(** * webp-converter: the directory walker, the converter dispatch and the
      statistics of [convert-images.js]

    The script walks the tree under [to-be-converted], converts every
    supported image to WebP under [converted] (same relative path, extension
    replaced) and prints a summary.  This file embeds the script's functions
    and proves properties of the walk.

    Modelling choices.
    - JavaScript strings are [string]s over the code units below 256
      (Latin-1).  In this range [toLowerCase] maps code unit to code unit;
      names with other characters are outside the model.
    - The counters and byte sizes are JavaScript numbers holding natural
      numbers (below 2^53): they are [N].  The percentage is computed in
      binary64, the format of JavaScript numbers, with the operations of
      the Standard Library's [SpecFloat] (round to nearest, ties to even);
      [toFixed] prints the exact value of the double it is given.  The
      sizes in megabytes are quotients by 1024, which binary64 computes
      without rounding: they are computed on the exact value.
    - [stats.formats] is a JavaScript object used as a map from extension to
      count: a [gmap string N].
    - The file system and the external encoders are the environment: a tree
      of nodes, where every file carries the answers the environment gives
      for it (sizes, probe, encoder results).  Exceptions are [Error] objects
      carrying a message.
    - Console output and encoder invocations are recorded, in program order,
      in a trace of events. *)

From Stdlib Require Import ZArith NArith QArith Qabs String Ascii List Lia.
From Stdlib Require Import DecimalString.
From Stdlib Require Floats.SpecFloat.
From stdpp Require Import gmap strings list fin_maps.

Local Open Scope string_scope.

(** ** JavaScript string operations used by the script *)

Module JsString.

(** [c] is an upper-case letter of Latin-1: [A] to [Z], or U+00C0 to
    U+00DE without the multiplication sign U+00D7. *)
Definition isUpper (c : ascii) : bool :=
  let n := nat_of_ascii c in
  (65 <=? n)%nat && (n <=? 90)%nat ||
  (192 <=? n)%nat && (n <=? 222)%nat && negb (n =? 215)%nat.

(** The lower-case letter of an upper-case one is 32 code units further;
    every other code unit below 256 is its own lower case (the sharp s
    U+00DF, the micro sign U+00B5 and U+00FF have no upper case in the
    range). *)
Definition lowerChar (c : ascii) : ascii :=
  if isUpper c then ascii_of_nat (nat_of_ascii c + 32) else c.

(** [s.toLowerCase()], for a string of code units below 256 *)
Fixpoint toLowerCase (s : string) : string :=
  match s with
  | EmptyString => EmptyString
  | String c r => String (lowerChar c) (toLowerCase r)
  end.

Definition isSlash (c : ascii) : bool := Ascii.eqb c "/".
Definition isDot (c : ascii) : bool := Ascii.eqb c ".".

(** The character class [[^/.]]. *)
Definition notSlashDot (c : ascii) : bool := negb (isSlash c) && negb (isDot c).

Fixpoint allChars (p : ascii -> bool) (s : string) : bool :=
  match s with
  | EmptyString => true
  | String c r => p c && allChars p r
  end.

Definition nonEmpty (s : string) : bool :=
  match s with EmptyString => false | String _ _ => true end.

(** [s.replace(/\.[^/.]+$/, r)]: the leftmost position where a dot is
    followed, up to the end of the string, by one or more characters that
    are neither a slash nor a dot; the string is cut there and [r]
    appended.  Without a match the string is returned as it is. *)
Fixpoint replaceExtension (s r : string) : string :=
  match s with
  | EmptyString => EmptyString
  | String c rest =>
      if isDot c && nonEmpty rest && allChars notSlashDot rest
      then r
      else String c (replaceExtension rest r)
  end.

(** [s.split("/")]: never empty, [""] gives [[""]]. *)
Fixpoint split (s : string) : list string :=
  match s with
  | EmptyString => [EmptyString]
  | String c r =>
      if isSlash c then EmptyString :: split r
      else match split r with
           | seg :: segs => String c seg :: segs
           | [] => [String c EmptyString]
           end
  end.

(** [segs.join("/")] *)
Fixpoint join (segs : list string) : string :=
  match segs with
  | [] => EmptyString
  | [s] => s
  | s :: rest => s ++ "/" ++ join rest
  end.

Fixpoint rev_acc (s acc : string) : string :=
  match s with
  | EmptyString => acc
  | String c r => rev_acc r (String c acc)
  end.

Definition startsWithSlash (s : string) : bool :=
  match s with String c _ => isSlash c | EmptyString => false end.

Definition endsWithSlash (s : string) : bool :=
  startsWithSlash (rev_acc s EmptyString).

End JsString.

(** ** Node's [path] module (POSIX flavour), as far as the script uses it *)

Module Path.
Import JsString.

(** [normalizeString]: empty and ["."] segments are dropped, [".."] removes
    the segment before it when there is one that is not itself [".."], and
    is otherwise kept only above a relative path.  [acc] holds the result
    so far, last segment first. *)
Fixpoint normalizeSegs (allowAboveRoot : bool) (segs acc : list string) : list string :=
  match segs with
  | [] => rev acc
  | seg :: rest =>
      if String.eqb seg "" || String.eqb seg "." then normalizeSegs allowAboveRoot rest acc
      else if String.eqb seg ".." then
        match acc with
        | last :: acc' =>
            if String.eqb last ".."
            then normalizeSegs allowAboveRoot rest
                   (if allowAboveRoot then ".." :: acc else acc)
            else normalizeSegs allowAboveRoot rest acc'
        | [] => normalizeSegs allowAboveRoot rest
                  (if allowAboveRoot then [".."] else [])
        end
      else normalizeSegs allowAboveRoot rest (seg :: acc)
  end.

(** [path.normalize(p)] *)
Definition normalize (p : string) : string :=
  match p with
  | EmptyString => "."
  | _ =>
      let isAbsolute := startsWithSlash p in
      let trailingSeparator := endsWithSlash p in
      let body := join (normalizeSegs (negb isAbsolute) (split p) []) in
      match body with
      | EmptyString =>
          if isAbsolute then "/" else if trailingSeparator then "./" else "."
      | _ =>
          let body' := if trailingSeparator then body ++ "/" else body in
          if isAbsolute then "/" ++ body' else body'
      end
  end.

(** [path.join(a, b)]: the non-empty arguments joined by a slash, then
    normalized. *)
Definition join2 (a b : string) : string :=
  match a, b with
  | EmptyString, EmptyString => "."
  | EmptyString, _ => normalize b
  | _, EmptyString => normalize a
  | _, _ => normalize (a ++ "/" ++ b)
  end.

(** [path.resolve(p)] as the list of segments of the absolute path, for a
    working directory given by its segments. *)
Definition resolveSegs (cwd : list string) (p : string) : list string :=
  if startsWithSlash p then normalizeSegs false (split p) []
  else normalizeSegs false (cwd ++ split p) [].

Fixpoint dropCommon (xs ys : list string) : list string * list string :=
  match xs, ys with
  | x :: xs', y :: ys' =>
      if String.eqb x y then dropCommon xs' ys' else (xs, ys)
  | _, _ => (xs, ys)
  end.

(** [path.relative(from, to)]: both paths are resolved, their common
    leading segments dropped, and the result climbs out of what is left of
    [from] and descends into what is left of [to]. *)
Definition relative (cwd : list string) (from to : string) : string :=
  if String.eqb from to then ""
  else
    let '(f, t) := dropCommon (resolveSegs cwd from) (resolveSegs cwd to) in
    join (map (fun _ => "..") f ++ t).

(** The last portion of [p], trailing slashes ignored, last character
    first: what [path.extname] and [path.basename] scan. *)
Fixpoint dropSlashes (r : string) : string :=
  match r with
  | String c r' => if isSlash c then dropSlashes r' else r
  | EmptyString => EmptyString
  end.

Fixpoint untilSlash (r : string) : string :=
  match r with
  | String c r' => if isSlash c then EmptyString else String c (untilSlash r')
  | EmptyString => EmptyString
  end.

Definition basenameRev (p : string) : string :=
  untilSlash (dropSlashes (rev_acc p EmptyString)).

(** [path.basename(p)] *)
Definition basename (p : string) : string := rev_acc (basenameRev p) EmptyString.

(** Scanning the reversed base name for its first dot: the extension seen
    so far (in reading order) and, once the dot is found, what precedes it
    (still reversed). *)
Fixpoint cutAtDot (r ext : string) : option (string * string) :=
  match r with
  | EmptyString => None
  | String c r' =>
      if isDot c then Some (String c ext, r') else cutAtDot r' (String c ext)
  end.

(** [path.extname(p)]: from the last dot of the base name to its end; empty
    when there is no dot, when the only dot is the first character, and for
    the base name [".."]. *)
Definition extname (p : string) : string :=
  match cutAtDot (basenameRev p) EmptyString with
  | None => ""
  | Some (ext, before) =>
      match before with
      | EmptyString => ""
      | _ => if String.eqb before "." && String.eqb ext "." then "" else ext
      end
  end.

End Path.

(** ** JavaScript numbers, as far as the report needs them *)

Module JsNumber.

(** The value of a number: a rational, or one of the special values of
    IEEE 754. *)
Inductive number :=
| Finite (q : Q)
| NaN
| PosInfinity
| NegInfinity.

(** Exact arithmetic: [x / y] for an integer [x] and a natural number
    [y]. *)
Definition divide (x : Z) (y : N) : number :=
  match y with
  | N0 => if (x =? 0)%Z then NaN else if (0 <? x)%Z then PosInfinity else NegInfinity
  | Npos d => Finite (x # d)
  end.

(** [x / k] and [x * k] for a positive constant [k]. *)
Definition over (x : number) (k : positive) : number :=
  match x with Finite q => Finite (q / (Zpos k # 1)) | _ => x end.

Definition times (x : number) (k : positive) : number :=
  match x with Finite q => Finite (q * (Zpos k # 1)) | _ => x end.

(** Binary64.  A JavaScript number is a double: a signed zero, an
    infinity, NaN, or a mantissa of at most 53 bits with an exponent. *)
Definition double : Type := SpecFloat.spec_float.

Definition prec : Z := 53.
Definition emax : Z := 1024.

(** The double of an integer literal or an integer-valued variable. *)
Definition ofInteger (z : Z) : double := SpecFloat.binary_normalize prec emax z 0 false.

(** [x - y], [x / y] and [x * y] on doubles. *)
Definition sub (x y : double) : double := SpecFloat.SFsub prec emax x y.
Definition div (x y : double) : double := SpecFloat.SFdiv prec emax x y.
Definition mul (x y : double) : double := SpecFloat.SFmul prec emax x y.

(** The exact value of a double. *)
Definition valueOf (x : double) : number :=
  match x with
  | SpecFloat.S754_zero _ => Finite 0
  | SpecFloat.S754_infinity false => PosInfinity
  | SpecFloat.S754_infinity true => NegInfinity
  | SpecFloat.S754_nan => NaN
  | SpecFloat.S754_finite s m e =>
      let z := if s then Zneg m else Zpos m in
      Finite (match e with
              | Zneg k => z # (2 ^ k)
              | _ => (z * 2 ^ e) # 1
              end)
  end.

Definition digits (n : N) : string := NilEmpty.string_of_uint (N.to_uint n).

(** [x.toFixed(2)] for a number of exact value [q], of magnitude below
    10^21 (as the figures printed for sizes below 2^53 are): the integer
    [n] with [n / 100] closest to [|q|], the larger one on a tie, written
    with two decimals and the sign of [q]. *)
Definition fixed2 (q : Q) : string :=
  let a := Z.abs (Qnum q) in
  let d := Zpos (Qden q) in
  let n := Z.to_N ((200 * a + d) / (2 * d)) in
  let body :=
    digits (n / 100) ++ "." ++ digits (n mod 100 / 10) ++ digits (n mod 10) in
  if (Qnum q <? 0)%Z then "-" ++ body else body.

(** [x.toFixed(2)] *)
Definition toFixed2 (x : number) : string :=
  match x with
  | Finite q => fixed2 q
  | NaN => "NaN"
  | PosInfinity => "Infinity"
  | NegInfinity => "-Infinity"
  end.

End JsNumber.

(** ** Data model *)

(** What [await] gives: a value, or a thrown [Error] with its message. *)
Inductive result (A : Type) :=
| Ok (a : A)
| Throw (message : string).
Arguments Ok {A} a.
Arguments Throw {A} message.

(** The object [convertFile] returns on success. *)
Record outcome := {
  success : bool;
  originalSize : N;
  newSize : N }.

(** The [stats] object of [processDirectory]. *)
Record stats := {
  totalFiles : N;
  successfulConversions : N;
  failedConversions : N;
  totalOriginalSize : N;
  totalNewSize : N;
  formats : gmap string N }.

(** The option objects handed to [sharp(...).webp]. *)
Record webpOptions := {
  quality : N;
  lossless : option bool;
  nearLossless : option bool;
  effort : N;
  smartSubsample : option bool }.

Inductive encoder :=
| Gif2webp (args : list string)
| Sharp (options : webpOptions).

(** Console lines, by the statement that prints them. *)
Inductive line :=
| Skipping (name : string)
| ConvertedLine (name originalMB newMB savings : string)
| ErrorConverting (name message : string)
| ErrorProcessing (dir message : string).

(** What the run does, in program order: console lines, encoder
    invocations, and the return of every call of the two functions the walk
    is made of. *)
Inductive event :=
| Console (l : line)
| Encode (e : encoder) (inputPath outputPath : string)
| ConvertFileReturns (inputPath outputPath : string) (r : option outcome)
| ProcessDirectoryReturns (inputDir : string) (s : stats).

(** The environment's answers for one file. *)
Record fileEnv := {
  statInput : result N;             (* (await fs.stat(inputPath)).size *)
  accessOutputDir : result unit;    (* fs.access(dirname(outputPath)) *)
  mkdirOutputDir : result unit;     (* fs.mkdir(..., {recursive: true}) *)
  metadataPages : result (option N);(* (await sharp(p).metadata()).pages *)
  gif2webpRun : result unit;        (* the gif2webp child process *)
  sharpToFile : result unit;        (* sharpInstance.toFile(outputPath) *)
  statOutput : result N }.          (* (await fs.stat(outputPath)).size *)

#[local] Set Warnings "-register-all".

(** A directory entry as [readdir(..., {withFileTypes: true})] reports it,
    with what lies behind it.  [Unreadable] is a directory whose listing
    fails; [Other] is an entry that is neither a file nor a directory (a
    symbolic link, a socket, ...). *)
Inductive node :=
| File (env : fileEnv)
| Dir (entries : list (string * node))
| Unreadable (message : string)
| Other.

(** ** Effects: a trace, a mutable state and exceptions *)

(** A computation over a mutable state [S]: the events it produces, the
    state it leaves (also when it throws) and its result. *)
Definition Eff (S A : Type) : Type := S -> list event * S * result A.

Definition ret {S A} (a : A) : Eff S A := fun s => ([], s, Ok a).

Definition bind {S A B} (m : Eff S A) (k : A -> Eff S B) : Eff S B :=
  fun s =>
    match m s with
    | (t, s', Ok a) => let '(t', s'', r) := k a s' in ((t ++ t')%list, s'', r)
    | (t, s', Throw e) => (t, s', Throw e)
    end.

Definition throw {S A} (message : string) : Eff S A := fun s => ([], s, Throw message).

(** [await] of an answer of the environment. *)
Definition await {S A} (r : result A) : Eff S A := fun s => ([], s, r).

Definition emit {S} (e : event) : Eff S unit := fun s => ([e], s, Ok tt).

Definition modify {S} (f : S -> S) : Eff S unit := fun s => ([], f s, Ok tt).

(** [try { m } catch (error) { h error }] *)
Definition tryCatch {S A} (m : Eff S A) (h : string -> Eff S A) : Eff S A :=
  fun s =>
    match m s with
    | (t, s', Throw e) => let '(t', s'', r) := h e s' in ((t ++ t')%list, s'', r)
    | done => done
    end.

(** A call of a function that has no access to the caller's variables. *)
Definition call {S A} (m : Eff unit A) : Eff S A :=
  fun s => let '(t, _, r) := m tt in (t, s, r).

(** [for (const x of xs) { body x }] *)
Definition forOf {S A} (body : A -> Eff S unit) : list A -> Eff S unit :=
  fix loop (xs : list A) : Eff S unit :=
    match xs with
    | [] => ret tt
    | x :: rest => bind (body x) (fun _ => loop rest)
    end.

Notation "'let!' x ':=' m 'in' k" := (bind m (fun x => k))
  (at level 10, x name, m at level 100, k at level 200).
Notation "'do!' m 'in' k" := (bind m (fun _ => k))
  (at level 10, m at level 100, k at level 200).

(** ** The script *)

Definition TO_BE_CONVERTED_DIR : string := "to-be-converted".
Definition CONVERTED_DIR : string := "converted".

Definition SUPPORTED_FORMATS : list string :=
  [".gif"; ".png"; ".jpg"; ".jpeg"; ".tiff"; ".bmp"; ".webp"; ".avif"].

(** [SUPPORTED_FORMATS.has(ext)] *)
Definition has (set : list string) (ext : string) : bool :=
  existsb (String.eqb ext) set.

(** [isAnimatedGif]: [metadata.pages && metadata.pages > 1] as the condition
    it is used for, and [true] when the probe throws. *)
Definition isAnimatedGif {S} (env : fileEnv) : Eff S bool :=
  tryCatch
    (let! pages := await (metadataPages env) in
     ret match pages with
         | Some n => negb (n =? 0)%N && (1 <? n)%N
         | None => false
         end)
    (fun _ => ret true).

(** [ensureDir] *)
Definition ensureDir {S} (env : fileEnv) : Eff S unit :=
  tryCatch (await (accessOutputDir env)) (fun _ => await (mkdirOutputDir env)).

(** [convertAnimatedGif] *)
Definition convertAnimatedGif {S} (env : fileEnv) (inputPath outputPath : string)
  : Eff S unit :=
  do! emit (Encode
        (Gif2webp [inputPath; "-q"; "75"; "-m"; "6"; "-min_size"; "-mt"; "-o"; outputPath])
        inputPath outputPath) in
  await (gif2webpRun env).

(** [convertWithSharp] *)
Definition convertWithSharp {S} (env : fileEnv) (inputPath outputPath : string)
  : Eff S unit :=
  let ext := JsString.toLowerCase (Path.extname inputPath) in
  let options :=
    if String.eqb ext ".png" then
      {| quality := 75; lossless := Some false; nearLossless := Some true;
         effort := 6; smartSubsample := Some true |}
    else if String.eqb ext ".jpg" || String.eqb ext ".jpeg" then
      {| quality := 80; lossless := None; nearLossless := None;
         effort := 6; smartSubsample := Some true |}
    else
      {| quality := 75; lossless := None; nearLossless := None;
         effort := 6; smartSubsample := None |} in
  do! emit (Encode (Sharp options) inputPath outputPath) in
  await (sharpToFile env).

(** The percentage [((originalSize - newSize) / originalSize) * 100], as
    [convertFile] computes it for one file and [main] for the totals: a
    difference, a quotient and a product of doubles. *)
Definition reduction (originalSize newSize : N) : JsNumber.number :=
  let original := JsNumber.ofInteger (Z.of_N originalSize) in
  let new := JsNumber.ofInteger (Z.of_N newSize) in
  JsNumber.valueOf
    (JsNumber.mul (JsNumber.div (JsNumber.sub original new) original)
                  (JsNumber.ofInteger 100)).

#[local] Arguments reduction : simpl never.

(** [(size / 1024 / 1024).toFixed(2)].  A division of a double by 1024
    lowers its exponent and leaves its mantissa: nothing is rounded, and
    the value is the exact quotient. *)
Definition megabytes (size : N) : string :=
  JsNumber.toFixed2
    (JsNumber.over (JsNumber.over (JsNumber.divide (Z.of_N size) 1) 1024) 1024).

(** [convertFile] *)
Definition convertFile (env : fileEnv) (inputPath outputPath : string)
  : Eff unit (option outcome) :=
  let! r :=
    tryCatch
      (let ext := JsString.toLowerCase (Path.extname inputPath) in
       if negb (has SUPPORTED_FORMATS ext) then
         do! emit (Console (Skipping (Path.basename inputPath))) in
         ret None
       else
         let! originalSize := await (statInput env) in
         do! ensureDir env in
         let! animated :=
           (if String.eqb ext ".gif" then isAnimatedGif env else ret false) in
         do! (if animated
              then convertAnimatedGif env inputPath outputPath
              else convertWithSharp env inputPath outputPath) in
         let! newSize := await (statOutput env) in
         let savings := JsNumber.toFixed2 (reduction originalSize newSize) in
         do! emit (Console (ConvertedLine (Path.basename inputPath)
                            (megabytes originalSize) (megabytes newSize) savings)) in
         ret (Some {| success := true;
                      originalSize := originalSize;
                      newSize := newSize |}))
      (fun message =>
         do! emit (Console (ErrorConverting (Path.basename inputPath) message)) in
         ret None) in
  do! emit (ConvertFileReturns inputPath outputPath r) in
  ret r.

(** The fresh [stats] object. *)
Definition emptyStats : stats :=
  {| totalFiles := 0; successfulConversions := 0; failedConversions := 0;
     totalOriginalSize := 0; totalNewSize := 0; formats := ∅ |}.

(** [formats[key] = (formats[key] || 0) + count] *)
Definition bump (key : string) (count : N) (formats : gmap string N) : gmap string N :=
  <[key := (default 0 (formats !! key) + count)%N]> formats.

(** The merge of a subdirectory's statistics into [stats]
    (lines 172 to 180). *)
Definition mergeStats (s subStats : stats) : stats :=
  {| totalFiles := totalFiles s + totalFiles subStats;
     successfulConversions := successfulConversions s + successfulConversions subStats;
     failedConversions := failedConversions s + failedConversions subStats;
     totalOriginalSize := totalOriginalSize s + totalOriginalSize subStats;
     totalNewSize := totalNewSize s + totalNewSize subStats;
     formats :=
       foldl (fun acc entry => bump entry.1 entry.2 acc)
             (formats s) (map_to_list (formats subStats)) |}.

(** [stats.totalFiles++; stats.formats[ext] = (stats.formats[ext] || 0) + 1] *)
Definition countFile (ext : string) (s : stats) : stats :=
  {| totalFiles := totalFiles s + 1;
     successfulConversions := successfulConversions s;
     failedConversions := failedConversions s;
     totalOriginalSize := totalOriginalSize s;
     totalNewSize := totalNewSize s;
     formats := bump ext 1 (formats s) |}.

(** The branch taken when [convertFile] returned an object. *)
Definition countSuccess (r : outcome) (s : stats) : stats :=
  {| totalFiles := totalFiles s;
     successfulConversions := successfulConversions s + 1;
     failedConversions := failedConversions s;
     totalOriginalSize := totalOriginalSize s + originalSize r;
     totalNewSize := totalNewSize s + newSize r;
     formats := formats s |}.

(** The branch taken when [convertFile] returned [null]. *)
Definition countFailure (s : stats) : stats :=
  {| totalFiles := totalFiles s;
     successfulConversions := successfulConversions s;
     failedConversions := failedConversions s + 1;
     totalOriginalSize := totalOriginalSize s;
     totalNewSize := totalNewSize s;
     formats := formats s |}.

Section Walk.

(** [process.cwd()], as the segments of an absolute path. *)
Variable cwd : list string.

(** [processDirectory].  The local [stats] is the state of the [try]
    block; what the [catch] leaves untouched is returned. *)
Fixpoint processDirectory (n : node) (inputDir outputDir : string)
  : Eff unit stats :=
  fun _ =>
    let tryBlock : Eff stats unit :=
      match n with
      | Dir entries =>
          forOf (fun entry : string * node =>
            let inputPath := Path.join2 inputDir entry.1 in
            let relativePath := Path.relative cwd TO_BE_CONVERTED_DIR inputPath in
            let outputPath := Path.join2 outputDir relativePath in
            match entry.2 with
            | Dir _ | Unreadable _ =>
                let! subStats := call (processDirectory entry.2 inputPath outputDir) in
                modify (fun s => mergeStats s subStats)
            | File env =>
                let ext := JsString.toLowerCase (Path.extname entry.1) in
                if has SUPPORTED_FORMATS ext then
                  do! modify (countFile ext) in
                  let outputWebP := JsString.replaceExtension outputPath ".webp" in
                  let! result := call (convertFile env inputPath outputWebP) in
                  match result with
                  | Some r => modify (countSuccess r)
                  | None => modify countFailure
                  end
                else ret tt
            | Other => ret tt
            end) entries
      | Unreadable message => throw message
      | File _ | Other => throw "ENOTDIR: not a directory"
      end in
    let '(t, s, _) :=
      tryCatch tryBlock
        (fun message => emit (Console (ErrorProcessing inputDir message)))
        emptyStats in
    ((t ++ [ProcessDirectoryReturns inputDir s])%list, tt, Ok s).

End Walk.

(** The walk [main] starts (line 217). *)
Definition walk (cwd : list string) (root : node) : Eff unit stats :=
  processDirectory cwd root TO_BE_CONVERTED_DIR CONVERTED_DIR.

(** [overall reduction] of the summary (lines 233 to 237). *)
Definition overallReduction (s : stats) : string :=
  JsNumber.toFixed2 (reduction (totalOriginalSize s) (totalNewSize s)).

(** ** Vocabulary of the statements *)

(** The percentage in exact arithmetic, which the doubles of [reduction]
    approximate. *)
Definition exactReduction (originalSize newSize : N) : JsNumber.number :=
  JsNumber.times
    (JsNumber.divide (Z.of_N originalSize - Z.of_N newSize) originalSize) 100.

(** The body of the loop of [processDirectory], over the function called on
    subdirectories: [processDirectory cwd (Dir entries)] runs
    [forOf (entryStep cwd (processDirectory cwd) ...) entries]
    (lemma [processDirectory_Dir]). *)
Definition entryStep (cwd : list string)
    (walkDir : node -> string -> string -> Eff unit stats)
    (inputDir outputDir : string) (entry : string * node) : Eff stats unit :=
  let inputPath := Path.join2 inputDir entry.1 in
  let relativePath := Path.relative cwd TO_BE_CONVERTED_DIR inputPath in
  let outputPath := Path.join2 outputDir relativePath in
  match entry.2 with
  | Dir _ | Unreadable _ =>
      let! subStats := call (walkDir entry.2 inputPath outputDir) in
      modify (fun s => mergeStats s subStats)
  | File env =>
      let ext := JsString.toLowerCase (Path.extname entry.1) in
      if has SUPPORTED_FORMATS ext then
        do! modify (countFile ext) in
        let outputWebP := JsString.replaceExtension outputPath ".webp" in
        let! result := call (convertFile env inputPath outputWebP) in
        match result with
        | Some r => modify (countSuccess r)
        | None => modify countFailure
        end
      else ret tt
  | Other => ret tt
  end.

(** The paths [processDirectory] hands to [convertFile] for the entry
    [name] of [inputDir]. *)
Definition inputPathOf (inputDir name : string) : string :=
  Path.join2 inputDir name.

Definition outputPathOf (cwd : list string) (inputDir outputDir name : string) : string :=
  JsString.replaceExtension
    (Path.join2 outputDir
       (Path.relative cwd TO_BE_CONVERTED_DIR (Path.join2 inputDir name)))
    ".webp".

(** The lower-cased extension an entry is classified by. *)
Definition extensionOf (name : string) : string :=
  JsString.toLowerCase (Path.extname name).

(** The names of all entries of a tree. *)
Fixpoint namesIn (n : node) : list string :=
  match n with
  | Dir entries => flat_map (fun entry => entry.1 :: namesIn entry.2) entries
  | _ => []
  end.

Definition notSlash (c : ascii) : bool := negb (JsString.isSlash c).

(** A name as [readdir] reports it, and a segment of [process.cwd()]: not
    empty, without a slash, and neither ["."] nor [".."]. *)
Definition goodName (s : string) : bool :=
  JsString.nonEmpty s && JsString.allChars notSlash s &&
  negb (String.eqb s ".") && negb (String.eqb s "..").

Definition goodNames (segs : list string) : Prop :=
  Forall (fun s => goodName s = true) segs.

(** An extension the regular expression of [processDirectory] matches: a
    dot followed by one or more characters other than dots and slashes. *)
Definition dotted (ext : string) : bool :=
  match ext with
  | String c e =>
      JsString.isDot c && JsString.nonEmpty e &&
      JsString.allChars JsString.notSlashDot e
  | EmptyString => false
  end.

(** [outputPath] mirrors [inputPath]: the input is
    [to-be-converted/dirs/stem.ext], its path relative to the root is
    [dirs/stem.ext], and the output is [converted/dirs/stem.webp]. *)
Definition mirrors (cwd : list string) (inputPath outputPath : string) : Prop :=
  exists dirs name stem,
    name = stem ++ Path.extname name /\
    has SUPPORTED_FORMATS (extensionOf name) = true /\
    inputPath = JsString.join (TO_BE_CONVERTED_DIR :: dirs ++ [name]) /\
    Path.relative cwd TO_BE_CONVERTED_DIR inputPath = JsString.join (dirs ++ [name]) /\
    outputPath = JsString.join (CONVERTED_DIR :: dirs ++ [stem ++ ".webp"]).

(** Events other than the return of [processDirectory] or [convertFile]. *)
Definition isOutput (e : event) : bool :=
  match e with
  | Console _ | Encode _ _ _ => true
  | _ => false
  end.

Definition isConsoleLine (e : event) : bool :=
  match e with Console _ => true | _ => false end.

(** The line [convertFile] prints for a path it does not support. *)
Definition isSkipping (e : event) : bool :=
  match e with Console (Skipping _) => true | _ => false end.

(** The encoders invoked, in order. *)
Definition encodersOf (t : list event) : list encoder :=
  flat_map (fun e => match e with Encode enc _ _ => [enc] | _ => [] end) t.

Definition isAnimationTranscoder (enc : encoder) : bool :=
  match enc with Gif2webp _ => true | Sharp _ => false end.

(** The outcomes [convertFile] returned, in the order of the calls. *)
Definition successes (t : list event) : list outcome :=
  flat_map (fun e => match e with
                     | ConvertFileReturns _ _ (Some r) => [r]
                     | _ => []
                     end) t.

Definition sumOf (f : outcome -> N) (l : list outcome) : N :=
  foldr (fun r acc => (f r + acc)%N) 0%N l.

(** The counters of a [stats] record add up. *)
Definition balanced (s : stats) : Prop :=
  totalFiles s = (successfulConversions s + failedConversions s)%N.

(** The sum of the counts of a [formats] object. *)
Definition sumCounts (m : gmap string N) : N :=
  map_fold (fun _ count acc => (count + acc)%N) 0%N m.

(** The sum of two counts, as the value of a key present on both sides. *)
Definition addCounts (x y : N) : option N := Some (x + y)%N.

(** What one supported file adds to the statistics of its directory. *)
Definition fileStats (ext : string) (r : option outcome) : stats :=
  match r with
  | Some o => countSuccess o (countFile ext emptyStats)
  | None => countFailure (countFile ext emptyStats)
  end.

(** The tree without the entries [skip] selects, at every depth. *)
Fixpoint prune (skip : string * node -> bool) (n : node) : node :=
  match n with
  | Dir entries =>
      Dir (flat_map (fun entry =>
                       if skip entry then []
                       else [(entry.1, prune skip entry.2)]) entries)
  | _ => n
  end.

(** An entry that is neither a file nor a directory. *)
Definition isOther (entry : string * node) : bool :=
  match entry.2 with Other => true | _ => false end.

(** A file whose extension is not in [SUPPORTED_FORMATS]. *)
Definition isUnsupportedFile (entry : string * node) : bool :=
  match entry.2 with
  | File _ => negb (has SUPPORTED_FORMATS (extensionOf entry.1))
  | _ => false
  end.

Definition throws {A} (r : result A) : bool :=
  match r with Throw _ => true | Ok _ => false end.

(** The routing as the specification words it: the animated path is
    required for a [.gif] whose probe reports more than one page, or whose
    probe fails. *)
Definition requiresAnimatedPath (ext : string) (probe : result (option N)) : bool :=
  String.eqb ext ".gif" &&
  match probe with
  | Ok (Some pages) => (1 <? pages)%N
  | Ok None => false
  | Throw _ => true
  end.

(** A failure during the read, the conversion or the final stat of one
    file: the input size cannot be read, the output directory can neither
    be accessed nor created, the encoder the file is routed to fails, or the
    output size cannot be read. *)
Definition conversionFails (env : fileEnv) (ext : string) : bool :=
  throws (statInput env)
  || (throws (accessOutputDir env) && throws (mkdirOutputDir env))
  || (if requiresAnimatedPath ext (metadataPages env)
      then throws (gif2webpRun env)
      else throws (sharpToFile env))
  || throws (statOutput env).

(** What [walk_ind] establishes for a tree: under a property [P] of its
    entry names, every call returns a record, and the invariant [I] relates
    the record to the events before the return. *)
Definition walkOk (cwd : list string) (outputDir : string) (P : string -> Prop)
    (I : string -> list event -> stats -> Prop) (n : node) : Prop :=
  Forall P (namesIn n) ->
  forall inputDir, exists t s,
    processDirectory cwd n inputDir outputDir tt =
      ((t ++ [ProcessDirectoryReturns inputDir s])%list, tt, Ok s) /\
    I inputDir t s.

(** ** Sample environments *)

(** A file every step of whose conversion succeeds. *)
Definition plainFile : fileEnv :=
  {| statInput := Ok 12%N; accessOutputDir := Ok tt; mkdirOutputDir := Ok tt;
     metadataPages := Ok None; gif2webpRun := Ok tt; sharpToFile := Ok tt;
     statOutput := Ok 7%N |}.

(** A GIF of two frames. *)
Definition twoFrameGif : fileEnv :=
  {| statInput := Ok 2048%N; accessOutputDir := Throw "ENOENT";
     mkdirOutputDir := Ok tt; metadataPages := Ok (Some 2%N);
     gif2webpRun := Ok tt; sharpToFile := Ok tt; statOutput := Ok 1024%N |}.

(** A file sharp cannot decode. *)
Definition corruptFile : fileEnv :=
  {| statInput := Ok 10%N; accessOutputDir := Ok tt; mkdirOutputDir := Ok tt;
     metadataPages := Ok None; gif2webpRun := Ok tt;
     sharpToFile := Throw "Input file contains unsupported image format";
     statOutput := Throw "ENOENT" |}.

(** A GIF of one frame. *)
Definition stillGif : fileEnv :=
  {| statInput := Ok 2048%N; accessOutputDir := Ok tt;
     mkdirOutputDir := Ok tt; metadataPages := Ok (Some 1%N);
     gif2webpRun := Ok tt; sharpToFile := Ok tt; statOutput := Ok 1024%N |}.

Definition sampleCwd : list string := ["home"; "user"; "webp-converter"].

(** A directory of three files, the second of which cannot be converted. *)
Definition threeFiles : list (string * node) :=
  [("a.png", File plainFile)] ++
  ("bad.png", File corruptFile) :: [("c.jpg", File plainFile)].

(** [to-be-converted/a/b/img.png] *)
Definition nestedTree : node :=
  Dir [("a", Dir [("b", Dir [("img.png", File plainFile)])])].

(** ** More of the script, and the vocabulary of further properties *)

(** The record a call of [processDirectory] returns. *)
Definition recordOf (cwd : list string) (n : node) (inputDir outputDir : string) : stats :=
  match processDirectory cwd n inputDir outputDir tt with
  | (_, _, Ok s) => s
  | (_, _, Throw _) => emptyStats
  end.

(** What a call of [convertFile] returns. *)
Definition resultOf (env : fileEnv) (inputPath outputPath : string) : option outcome :=
  match convertFile env inputPath outputPath tt with
  | (_, _, Ok r) => r
  | (_, _, Throw _) => None
  end.

(** What one entry of [inputDir] adds to the record of the directory: one
    file for a supported file, the record of the recursive call for a
    subdirectory, nothing otherwise. *)
Definition entryRecord (cwd : list string) (inputDir outputDir : string)
    (entry : string * node) : stats :=
  match entry.2 with
  | File env =>
      if has SUPPORTED_FORMATS (extensionOf entry.1)
      then fileStats (extensionOf entry.1)
             (resultOf env (inputPathOf inputDir entry.1)
                (outputPathOf cwd inputDir outputDir entry.1))
      else emptyStats
  | Dir _ | Unreadable _ =>
      recordOf cwd entry.2 (inputPathOf inputDir entry.1) outputDir
  | Other => emptyStats
  end.

(** The supported files of a tree, in the directories that can be listed. *)
Fixpoint countSupported (n : node) : N :=
  match n with
  | Dir entries =>
      foldr (fun entry acc =>
               (match entry.2 with
                | File _ => if has SUPPORTED_FORMATS (extensionOf entry.1) then 1 else 0
                | _ => countSupported entry.2
                end + acc)%N) 0%N entries
  | _ => 0%N
  end.

(** The calls of [convertFile] made, by their returns. *)
Definition callsOf (t : list event) : list (string * string) :=
  flat_map (fun e => match e with
                     | ConvertFileReturns inputPath outputPath _ => [(inputPath, outputPath)]
                     | _ => []
                     end) t.

(** The supported files of a tree, in the order of the walk: each with the
    names of the directories between the root and the file, and its name. *)
Fixpoint supportedFiles (n : node) : list (list string * string) :=
  match n with
  | Dir entries =>
      flat_map (fun entry =>
                  match entry.2 with
                  | File _ =>
                      if has SUPPORTED_FORMATS (extensionOf entry.1)
                      then [([], entry.1)] else []
                  | _ => map (fun f => (entry.1 :: f.1, f.2)) (supportedFiles entry.2)
                  end) entries
  | _ => []
  end.

(** The paths of the call of [convertFile] for the file [f], found from
    [inputDir] through the directories [f.1]. *)
Definition callOf (cwd : list string) (inputDir outputDir : string)
    (f : list string * string) : string * string :=
  let dir := foldl Path.join2 inputDir f.1 in
  (inputPathOf dir f.2, outputPathOf cwd dir outputDir f.2).

(** A name without its extension. *)
Definition stemOf (name : string) : string :=
  substring 0 (String.length name - String.length (Path.extname name)) name.

(** [to-be-converted/dirs/name] and [converted/dirs/stem.webp] *)
Definition mirroredPaths (f : list string * string) : string * string :=
  (JsString.join (TO_BE_CONVERTED_DIR :: f.1 ++ [f.2]),
   JsString.join (CONVERTED_DIR :: f.1 ++ [stemOf f.2 ++ ".webp"])).

(** [env] with another answer to [fs.access], and to [fs.mkdir]. *)
Definition withAccess (r : result unit) (env : fileEnv) : fileEnv :=
  {| statInput := statInput env; accessOutputDir := r;
     mkdirOutputDir := mkdirOutputDir env; metadataPages := metadataPages env;
     gif2webpRun := gif2webpRun env; sharpToFile := sharpToFile env;
     statOutput := statOutput env |}.

Definition withMkdir (r : result unit) (env : fileEnv) : fileEnv :=
  {| statInput := statInput env; accessOutputDir := accessOutputDir env;
     mkdirOutputDir := r; metadataPages := metadataPages env;
     gif2webpRun := gif2webpRun env; sharpToFile := sharpToFile env;
     statOutput := statOutput env |}.

(** The events of a call of [convertFile]. *)
Definition convertEvents (env : fileEnv) (inputPath outputPath : string) : list event :=
  (convertFile env inputPath outputPath tt).1.1.

(** The console lines among the events. *)
Definition consoleLines (t : list event) : list line :=
  flat_map (fun e => match e with Console l => [l] | _ => [] end) t.

Definition notDot (c : ascii) : bool := negb (JsString.isDot c).

(** [ensureDir(dirPath)], from the two answers of the file system. *)
Definition ensureDirAt {S} (access mkdir : result unit) : Eff S unit :=
  tryCatch (await access) (fun _ => await mkdir).

(** The answers of the file system for the two base directories. *)
Record setupEnv := {
  accessInputRoot : result unit;    (* fs.access("to-be-converted") *)
  mkdirInputRoot : result unit;     (* fs.mkdir("to-be-converted", ...) *)
  accessOutputRoot : result unit;   (* fs.access("converted") *)
  mkdirOutputRoot : result unit }.  (* fs.mkdir("converted", ...) *)

(** The console lines of [main], by the statement that prints them.
    [FormatLines] stands for the lines of the last loop, one per key of
    [stats.formats]; their order is the key order of the object, which the
    map does not record. *)
Inductive mainLine :=
| Starting
| SummaryHeader
| TotalFilesLine (count : N)
| SuccessfulLine (count : N)
| FailedLine (count : N)
| OriginalSizeLine (megabytes : string)
| NewSizeLine (megabytes : string)
| OverallReductionLine (percent : string)
| FormatsHeader
| FormatLines (formats : gmap string N)
| ConvertedFilesLine
| ErrorLine (message : string).

(** What a run does: the events of the walk, and the lines of [main]. *)
Inductive mainEvent :=
| Walk (e : event)
| Main (l : mainLine).

(** The lines [main] prints after the walk (lines 220 to 245). *)
Definition summary (s : stats) : list mainLine :=
  [SummaryHeader;
   TotalFilesLine (totalFiles s);
   SuccessfulLine (successfulConversions s);
   FailedLine (failedConversions s);
   OriginalSizeLine (megabytes (totalOriginalSize s));
   NewSizeLine (megabytes (totalNewSize s));
   OverallReductionLine (overallReduction s);
   FormatsHeader;
   FormatLines (formats s);
   ConvertedFilesLine].

(** [main]: the [try] block, with the [catch] as the branches of a thrown
    error.  [root] is what lies behind [to-be-converted] once the base
    directories are ensured. *)
Definition main (cwd : list string) (setup : setupEnv) (root : node) : list mainEvent :=
  match ensureDirAt (accessInputRoot setup) (mkdirInputRoot setup) tt with
  | (_, _, Throw message) => [Main (ErrorLine message)]
  | (_, _, Ok _) =>
      match ensureDirAt (accessOutputRoot setup) (mkdirOutputRoot setup) tt with
      | (_, _, Throw message) => [Main (ErrorLine message)]
      | (_, _, Ok _) =>
          match processDirectory cwd root TO_BE_CONVERTED_DIR CONVERTED_DIR tt with
          | (t, _, Ok s) =>
              (Main Starting :: map Walk t ++ map Main (summary s))%list
          | (t, _, Throw message) =>
              (Main Starting :: map Walk t ++ [Main (ErrorLine message)])%list
          end
      end
  end.

(** Both base directories exist or could be created. *)
Definition setupSucceeds (setup : setupEnv) : bool :=
  negb (throws (accessInputRoot setup) && throws (mkdirInputRoot setup)) &&
  negb (throws (accessOutputRoot setup) && throws (mkdirOutputRoot setup)).

Definition isErrorLine (e : mainEvent) : bool :=
  match e with Main (ErrorLine _) => true | _ => false end.

(** ** Sample environments of a run *)

(** Both base directories are there. *)
Definition readySetup : setupEnv :=
  {| accessInputRoot := Ok tt; mkdirInputRoot := Ok tt;
     accessOutputRoot := Ok tt; mkdirOutputRoot := Ok tt |}.

(** [converted] is missing and cannot be created. *)
Definition readOnlySetup : setupEnv :=
  {| accessInputRoot := Ok tt; mkdirInputRoot := Ok tt;
     accessOutputRoot := Throw "ENOENT: no such file or directory";
     mkdirOutputRoot := Throw "EACCES: permission denied" |}.

(** The options [convertWithSharp] passes for a PNG. *)
Definition pngOptions : webpOptions :=
  {| quality := 75; lossless := Some false; nearLossless := Some true;
     effort := 6; smartSubsample := Some true |}.

(** A file whose output directory has to be created. *)
Definition freshDirectoryFile : fileEnv :=
  withAccess (Throw "ENOENT: no such file or directory") plainFile.

(** ** Vocabulary of the rounding proofs *)

(** The location of the fraction [a / b] of a unit: none, or below, at or
    above the half. *)
Definition locationOf (a b : Z) : SpecFloat.location :=
  if (a =? 0)%Z then SpecFloat.loc_Exact else SpecFloat.loc_Inexact (2 * a ?= b)%Z.

(** The round bit and the sticky bit of [r] are those of the fraction
    [a / b]. *)
Definition carries (r : SpecFloat.shr_record) (a b : Z) : Prop :=
  (0 <= a < b)%Z /\
  SpecFloat.shr_r r = (b <=? 2 * a)%Z /\
  SpecFloat.shr_s r = negb (a =? 0)%Z && negb (2 * a =? b)%Z.

(** [r'] is [r] shifted right by [k] bits: the bits that leave the
    mantissa join the fraction. *)
Definition shifted (k : Z) (r r' : SpecFloat.shr_record) : Prop :=
  forall a b, (0 <= SpecFloat.shr_m r)%Z -> carries r a b ->
    SpecFloat.shr_m r' = (SpecFloat.shr_m r / 2 ^ k)%Z /\
    carries r' (a + b * (SpecFloat.shr_m r mod 2 ^ k))%Z (2 ^ k * b)%Z.

(** The double of an integer below 2^53 in magnitude: the mantissa is the
    integer shifted left to 53 bits, the exponent undoes the shift. *)
Definition mantissaOf (p : positive) : positive :=
  Z.to_pos (Zpos p * 2 ^ (53 - Zpos (SpecFloat.digits2_pos p))).

Definition exponentOf (p : positive) : Z := (Zpos (SpecFloat.digits2_pos p) - 53)%Z.

Definition doubleOf (z : Z) : JsNumber.double :=
  match z with
  | Z0 => SpecFloat.S754_zero false
  | Zpos p => SpecFloat.S754_finite false (mantissaOf p) (exponentOf p)
  | Zneg p => SpecFloat.S754_finite true (mantissaOf p) (exponentOf p)
  end.

(** ** The algebra of the statistics *)

Section StatsAlgebra.

Implicit Types (s a b c : stats) (m : gmap string N) (k : string).

Lemma stats_eq s1 s2 :
  totalFiles s1 = totalFiles s2 ->
  successfulConversions s1 = successfulConversions s2 ->
  failedConversions s1 = failedConversions s2 ->
  totalOriginalSize s1 = totalOriginalSize s2 ->
  totalNewSize s1 = totalNewSize s2 ->
  formats s1 = formats s2 ->
  s1 = s2.
Proof. destruct s1, s2; simpl; intros; subst; reflexivity. Qed.

Lemma bump_lookup key count m k :
  bump key count m !! k =
  if decide (key = k) then Some (default 0%N (m !! key) + count)%N else m !! k.
Proof. unfold bump. apply lookup_insert. Qed.

Lemma bump_union key count m :
  bump key count m = union_with addCounts m {[key := count]}.
Proof.
  apply map_eq; intros k. rewrite bump_lookup, lookup_union_with.
  destruct (decide (key = k)) as [->|Hne].
  - rewrite lookup_singleton_eq. destruct (m !! k); reflexivity.
  - rewrite lookup_singleton_ne by done. destruct (m !! k); reflexivity.
Qed.

Lemma foldl_bump_lookup (l : list (string * N)) m k :
  NoDup l.*1 ->
  foldl (fun acc entry => bump entry.1 entry.2 acc) m l !! k =
  union_with addCounts (m !! k) ((list_to_map l : gmap string N) !! k).
Proof.
  revert m. induction l as [|[key count] l IH]; intros m Hnd; simpl.
  - rewrite lookup_empty. destruct (m !! k); reflexivity.
  - inversion Hnd as [|? ? Hnotin Hnd']; subst.
    rewrite IH by assumption. rewrite bump_lookup.
    destruct (decide (key = k)) as [->|Hne].
    + rewrite lookup_insert_eq.
      rewrite (not_elem_of_list_to_map_1 l k) by assumption.
      destruct (m !! k); simpl; f_equal; lia.
    + rewrite lookup_insert_ne by done. reflexivity.
Qed.

(** The loop over [Object.entries(subStats.formats)] adds the two maps
    key by key. *)
Lemma formats_mergeStats s sub :
  formats (mergeStats s sub) = union_with addCounts (formats s) (formats sub).
Proof.
  apply map_eq; intros k. simpl.
  rewrite foldl_bump_lookup by apply NoDup_fst_map_to_list.
  rewrite list_to_map_to_list, lookup_union_with. reflexivity.
Qed.

Lemma addCounts_union_assoc m1 m2 m3 :
  union_with addCounts (union_with addCounts m1 m2) m3 =
  union_with addCounts m1 (union_with addCounts m2 m3).
Proof.
  apply map_eq; intros k. rewrite !lookup_union_with.
  destruct (m1 !! k), (m2 !! k), (m3 !! k); simpl; unfold addCounts;
    try reflexivity; f_equal; lia.
Qed.

Lemma addCounts_union_comm m1 m2 :
  union_with addCounts m1 m2 = union_with addCounts m2 m1.
Proof.
  apply map_eq; intros k. rewrite !lookup_union_with.
  destruct (m1 !! k), (m2 !! k); simpl; unfold addCounts;
    try reflexivity; f_equal; lia.
Qed.

Lemma mergeStats_assoc a b c :
  mergeStats (mergeStats a b) c = mergeStats a (mergeStats b c).
Proof.
  apply stats_eq; try (simpl; lia).
  rewrite !formats_mergeStats. apply addCounts_union_assoc.
Qed.

Lemma mergeStats_comm a b : mergeStats a b = mergeStats b a.
Proof.
  apply stats_eq; try (simpl; lia).
  rewrite !formats_mergeStats. apply addCounts_union_comm.
Qed.

Lemma mergeStats_empty_r a : mergeStats a emptyStats = a.
Proof.
  apply stats_eq; try (simpl; lia).
  rewrite formats_mergeStats. simpl.
  apply map_eq; intros k. rewrite lookup_union_with, lookup_empty.
  destruct (formats a !! k); reflexivity.
Qed.

Lemma mergeStats_empty_l a : mergeStats emptyStats a = a.
Proof. rewrite mergeStats_comm. apply mergeStats_empty_r. Qed.

Lemma countFile_merge ext r s :
  match r with
  | Some o => countSuccess o (countFile ext s)
  | None => countFailure (countFile ext s)
  end = mergeStats s (fileStats ext r).
Proof.
  destruct r as [o|]; apply stats_eq; try (simpl; lia);
    rewrite formats_mergeStats; simpl; rewrite !bump_union;
    f_equal; apply map_eq; intros k; rewrite lookup_union_with, lookup_empty;
    destruct (decide (ext = k)) as [->|Hne];
    rewrite ?lookup_singleton_eq, ?lookup_singleton_ne by done; reflexivity.
Qed.

End StatsAlgebra.
(** ** Facts about strings and paths *)

Section StringFacts.
Import JsString.

#[local] Arguments String.append !s1 s2 : simpl nomatch.

Lemma append_assoc (a b c : string) : (a ++ b) ++ c = a ++ (b ++ c).
Proof. induction a as [|x a IH]; simpl; [reflexivity | rewrite IH; reflexivity]. Qed.

Lemma append_empty_r (a : string) : a ++ "" = a.
Proof. induction a as [|x a IH]; simpl; [reflexivity | rewrite IH; reflexivity]. Qed.

Lemma length_append (a b : string) :
  String.length (a ++ b) = String.length a + String.length b.
Proof. induction a as [|x a IH]; simpl; [reflexivity | rewrite IH; reflexivity]. Qed.

Lemma allChars_append p a b : allChars p (a ++ b) = allChars p a && allChars p b.
Proof.
  induction a as [|x a IH]; simpl; [reflexivity|].
  rewrite IH, andb_assoc. reflexivity.
Qed.

Lemma rev_acc_append a b acc : rev_acc (a ++ b) acc = rev_acc b (rev_acc a acc).
Proof. revert acc. induction a as [|x a IH]; intros acc; simpl; [reflexivity | apply IH]. Qed.

Lemma rev_acc_acc a acc : rev_acc a acc = rev_acc a "" ++ acc.
Proof.
  revert acc. induction a as [|x a IH]; intros acc; simpl; [reflexivity|].
  rewrite IH, (IH (String x "")), append_assoc. reflexivity.
Qed.

Lemma rev_acc_involutive a : rev_acc (rev_acc a "") "" = a.
Proof.
  induction a as [|x a IH]; simpl; [reflexivity|].
  rewrite (rev_acc_acc a (String x "")), rev_acc_append, IH. reflexivity.
Qed.

Lemma allChars_rev_acc p a acc :
  allChars p (rev_acc a acc) = allChars p a && allChars p acc.
Proof.
  revert acc. induction a as [|x a IH]; intros acc; simpl; [reflexivity|].
  rewrite IH. simpl. rewrite !andb_assoc. f_equal. apply andb_comm.
Qed.

(** The last character of a non-empty string without slashes is not a
    slash. *)
Lemma rev_acc_no_slash b acc :
  nonEmpty b = true -> allChars notSlash b = true ->
  startsWithSlash (rev_acc b acc) = false.
Proof.
  revert acc. induction b as [|x b IH]; intros acc Hne Hall; [discriminate|].
  simpl in Hall. apply andb_prop in Hall as [Hx Hb]. simpl.
  destruct b as [|y b'].
  - simpl. unfold notSlash in Hx. apply negb_true_iff in Hx. exact Hx.
  - apply IH; [reflexivity | assumption].
Qed.

Lemma endsWithSlash_append a b :
  nonEmpty b = true -> allChars notSlash b = true -> endsWithSlash (a ++ b) = false.
Proof.
  intros Hne Hall. unfold endsWithSlash. rewrite rev_acc_append.
  apply rev_acc_no_slash; assumption.
Qed.

Lemma split_no_slash s : allChars notSlash s = true -> split s = [s].
Proof.
  induction s as [|x s IH]; simpl; [reflexivity|].
  intros [Hx Hs]%andb_prop. unfold notSlash in Hx. apply negb_true_iff in Hx.
  rewrite Hx, (IH Hs). reflexivity.
Qed.

Lemma split_append s rest :
  allChars notSlash s = true -> split (s ++ "/" ++ rest) = s :: split rest.
Proof.
  change ("/" ++ rest) with (String "/" rest).
  induction s as [|x s IH]; simpl; [reflexivity|].
  intros [Hx Hs]%andb_prop. unfold notSlash in Hx. apply negb_true_iff in Hx.
  rewrite Hx, (IH Hs). reflexivity.
Qed.

Lemma join_cons s segs : segs <> [] -> join (s :: segs) = s ++ "/" ++ join segs.
Proof. destruct segs; [congruence | reflexivity]. Qed.

Lemma join_app a b :
  a <> [] -> b <> [] -> join (a ++ b) = join a ++ "/" ++ join b.
Proof.
  intros Ha Hb. induction a as [|s a IH]; [congruence|].
  destruct a as [|s' a'].
  - simpl app. rewrite join_cons by assumption. reflexivity.
  - change ((s :: s' :: a') ++ b)%list with (s :: ((s' :: a') ++ b))%list.
    rewrite !join_cons by discriminate. rewrite IH by discriminate.
    rewrite !append_assoc. reflexivity.
Qed.

Lemma split_join segs :
  segs <> [] -> Forall (fun s => allChars notSlash s = true) segs ->
  split (join segs) = segs.
Proof.
  induction segs as [|s segs IH]; intros Hne Hall; [congruence|].
  inversion Hall as [|? ? Hs Hrest]; subst.
  destruct segs as [|s' segs'].
  - simpl. apply split_no_slash; assumption.
  - rewrite join_cons by discriminate. rewrite split_append by assumption.
    rewrite IH by (discriminate || assumption). reflexivity.
Qed.

End StringFacts.

Section PathFacts.
Import JsString.

#[local] Arguments String.append !s1 s2 : simpl nomatch.

Lemma goodName_inv s :
  goodName s = true ->
  nonEmpty s = true /\ allChars notSlash s = true /\
  String.eqb s "." = false /\ String.eqb s ".." = false.
Proof.
  unfold goodName. intros H.
  apply andb_prop in H as [H H4]. apply andb_prop in H as [H H3].
  apply andb_prop in H as [H1 H2].
  apply negb_true_iff in H3, H4. auto.
Qed.

Lemma goodNames_no_slash segs :
  goodNames segs -> Forall (fun s => allChars notSlash s = true) segs.
Proof.
  intros Hgood. eapply Forall_impl; [exact Hgood|].
  intros s Hs. apply goodName_inv in Hs. tauto.
Qed.

Lemma normalizeSegs_good allowAboveRoot segs acc :
  goodNames segs ->
  Path.normalizeSegs allowAboveRoot segs acc = (rev acc ++ segs)%list.
Proof.
  revert acc. induction segs as [|seg segs IH]; intros acc Hgood; simpl.
  - rewrite app_nil_r. reflexivity.
  - inversion Hgood as [|? ? Hseg Hrest]; subst.
    apply goodName_inv in Hseg as (Hne & _ & Hdot & Hdots).
    assert (Hempty : String.eqb seg "" = false) by (destruct seg; [discriminate | reflexivity]).
    rewrite Hempty, Hdot, Hdots. simpl.
    rewrite IH by assumption. simpl. rewrite <- app_assoc. reflexivity.
Qed.

Lemma join_nonEmpty s segs : nonEmpty s = true -> nonEmpty (join (s :: segs)) = true.
Proof.
  intros Hs. destruct segs; simpl; [assumption|].
  destruct s; [discriminate | reflexivity].
Qed.

Lemma startsWithSlash_join s segs :
  nonEmpty s = true -> allChars notSlash s = true ->
  startsWithSlash (join (s :: segs)) = false.
Proof.
  intros Hne Hall. destruct s as [|c s]; [discriminate|].
  simpl in Hall. apply andb_prop in Hall as [Hc _].
  unfold notSlash in Hc. apply negb_true_iff in Hc.
  destruct segs; simpl; assumption.
Qed.

Lemma join_last segs :
  segs <> [] -> exists pre l, join segs = pre ++ l /\ In l segs.
Proof.
  induction segs as [|s segs IH]; intros Hne; [congruence|].
  destruct segs as [|s' segs'].
  - exists "", s. split; [reflexivity | left; reflexivity].
  - destruct IH as (pre & l & Heq & Hin); [discriminate|].
    exists (s ++ "/" ++ pre), l. split; [|right; assumption].
    rewrite join_cons by discriminate. rewrite Heq, !append_assoc. reflexivity.
Qed.

Lemma endsWithSlash_join segs :
  segs <> [] -> goodNames segs -> endsWithSlash (join segs) = false.
Proof.
  intros Hne Hgood. destruct (join_last segs Hne) as (pre & l & -> & Hin).
  unfold goodNames in Hgood. rewrite List.Forall_forall in Hgood.
  apply Hgood, goodName_inv in Hin as (H1 & H2 & _).
  apply endsWithSlash_append; assumption.
Qed.

Lemma normalize_join segs :
  segs <> [] -> goodNames segs -> Path.normalize (join segs) = join segs.
Proof.
  intros Hne Hgood. destruct segs as [|s segs]; [congruence|].
  pose proof Hgood as Hall. inversion Hall as [|? ? Hs _]; subst.
  apply goodName_inv in Hs as (Hs1 & Hs2 & _).
  pose proof (join_nonEmpty s segs Hs1) as Hjoin.
  unfold Path.normalize.
  rewrite startsWithSlash_join, endsWithSlash_join by assumption.
  rewrite split_join by (assumption || apply goodNames_no_slash; assumption).
  rewrite normalizeSegs_good by assumption. simpl rev. simpl app.
  destruct (join (s :: segs)); [discriminate | reflexivity].
Qed.

Lemma goodNames_app a b : goodNames a -> goodNames b -> goodNames (a ++ b).
Proof. intros. apply Forall_app; split; assumption. Qed.

(** [path.join] of two normalized relative paths. *)
Lemma join2_join a b :
  a <> [] -> b <> [] -> goodNames a -> goodNames b ->
  Path.join2 (join a) (join b) = join (a ++ b).
Proof.
  intros Ha Hb Hga Hgb.
  assert (Hna : nonEmpty (join a) = true).
  { destruct a as [|s a]; [congruence|]. inversion Hga; subst.
    apply join_nonEmpty. apply goodName_inv; assumption. }
  assert (Hnb : nonEmpty (join b) = true).
  { destruct b as [|s b]; [congruence|]. inversion Hgb; subst.
    apply join_nonEmpty. apply goodName_inv; assumption. }
  unfold Path.join2.
  destruct (join a) eqn:Ea; [discriminate|].
  destruct (join b) eqn:Eb; [discriminate|].
  rewrite <- Ea, <- Eb, <- join_app by assumption.
  apply normalize_join.
  - destruct a; [congruence | discriminate].
  - apply goodNames_app; assumption.
Qed.

Lemma dropCommon_prefix p xs ys :
  Path.dropCommon (p ++ xs) (p ++ ys) = Path.dropCommon xs ys.
Proof.
  induction p as [|s p IH]; simpl; [reflexivity|].
  rewrite String.eqb_refl. assumption.
Qed.

Lemma join_longer s segs : segs <> [] -> String.eqb s (join (s :: segs)) = false.
Proof.
  intros Hne. rewrite join_cons by assumption. apply String.eqb_neq.
  intros Heq. assert (Hlen : String.length s = String.length (s ++ "/" ++ join segs))
    by (rewrite <- Heq; reflexivity).
  clear Heq. induction s as [|c s IH]; simpl in Hlen; [discriminate|].
  injection Hlen as Hlen. auto.
Qed.

(** [path.relative] from a directory of the working directory to a path
    below it. *)
Lemma relative_below cwd root rel :
  goodNames cwd -> goodName root = true -> rel <> [] -> goodNames rel ->
  Path.relative cwd root (join (root :: rel)) = join rel.
Proof.
  intros Hcwd Hroot Hne Hrel. unfold Path.relative.
  rewrite join_longer by assumption.
  pose proof (goodName_inv _ Hroot) as (Hr1 & Hr2 & _).
  assert (Hgood : goodNames (root :: rel)) by (constructor; assumption).
  unfold Path.resolveSegs.
  rewrite (startsWithSlash_join root rel) by assumption.
  replace (startsWithSlash root) with false
    by (symmetry; apply (startsWithSlash_join root []); assumption).
  rewrite split_no_slash by assumption.
  rewrite split_join by (discriminate || apply goodNames_no_slash; assumption).
  rewrite !normalizeSegs_good
    by (apply goodNames_app; [assumption | (constructor; [assumption|constructor]) || assumption]).
  simpl rev. simpl app.
  change (cwd ++ root :: rel)%list with (cwd ++ [root] ++ rel)%list.
  rewrite app_assoc. rewrite <- (app_nil_r (cwd ++ [root])) at 1.
  rewrite dropCommon_prefix. simpl. reflexivity.
Qed.

(** The regular expression matches at the last dot, and only there. *)
Lemma replaceExtension_append p e r :
  nonEmpty e = true -> allChars notSlashDot e = true ->
  replaceExtension (p ++ String "." e) r = p ++ r.
Proof.
  intros Hne Hall. induction p as [|c p IH]; simpl.
  - rewrite Hne, Hall. reflexivity.
  - rewrite allChars_append. simpl.
    rewrite !andb_false_r, IH. reflexivity.
Qed.

End PathFacts.

Section ExtensionFacts.
Import JsString.

#[local] Arguments String.append !s1 s2 : simpl nomatch.

Lemma lowerChar_class c :
  isDot (lowerChar c) = isDot c /\ notSlashDot (lowerChar c) = notSlashDot c.
Proof.
  destruct c as [[] [] [] [] [] [] [] []]; split; reflexivity.
Qed.

Lemma dotted_toLowerCase ext : dotted (toLowerCase ext) = dotted ext.
Proof.
  destruct ext as [|c e]; [reflexivity|]. simpl.
  rewrite (proj1 (lowerChar_class c)). f_equal; [f_equal|].
  - destruct e; reflexivity.
  - induction e as [|x e IH]; simpl; [reflexivity|].
    rewrite (proj2 (lowerChar_class x)), IH. reflexivity.
Qed.

Lemma supported_dotted ext :
  has SUPPORTED_FORMATS (toLowerCase ext) = true -> dotted ext = true.
Proof.
  intros Hhas. rewrite <- dotted_toLowerCase.
  unfold has in Hhas. apply existsb_exists in Hhas as (s & Hin & Heq).
  apply String.eqb_eq in Heq. rewrite Heq.
  assert (Hall : forallb dotted SUPPORTED_FORMATS = true) by reflexivity.
  rewrite forallb_forall in Hall. apply Hall. assumption.
Qed.

Lemma dotted_inv ext :
  dotted ext = true ->
  exists e, ext = String "." e /\ nonEmpty e = true /\ allChars notSlashDot e = true.
Proof.
  destruct ext as [|c e]; [discriminate|]. simpl.
  intros H. apply andb_prop in H as [H H3]. apply andb_prop in H as [H1 H2].
  apply Ascii.eqb_eq in H1. subst c. exists e. auto.
Qed.

Lemma dropSlashes_no_slash r : allChars notSlash r = true -> Path.dropSlashes r = r.
Proof.
  destruct r as [|c r]; [reflexivity|]. simpl.
  intros [Hc _]%andb_prop. unfold notSlash in Hc. apply negb_true_iff in Hc.
  rewrite Hc. reflexivity.
Qed.

Lemma untilSlash_no_slash r : allChars notSlash r = true -> Path.untilSlash r = r.
Proof.
  induction r as [|c r IH]; [reflexivity|]. simpl.
  intros [Hc Hr]%andb_prop. unfold notSlash in Hc. apply negb_true_iff in Hc.
  rewrite Hc, (IH Hr). reflexivity.
Qed.

Lemma basenameRev_no_slash name :
  allChars notSlash name = true -> Path.basenameRev name = rev_acc name "".
Proof.
  intros Hall. unfold Path.basenameRev.
  assert (Hrev : allChars notSlash (rev_acc name "") = true)
    by (rewrite allChars_rev_acc, Hall; reflexivity).
  rewrite dropSlashes_no_slash, untilSlash_no_slash by assumption. reflexivity.
Qed.

Lemma cutAtDot_spec r acc ext before :
  Path.cutAtDot r acc = Some (ext, before) ->
  rev_acc r acc = rev_acc before ext.
Proof.
  revert acc. induction r as [|c r IH]; intros acc; simpl; [discriminate|].
  destruct (isDot c).
  - intros [= <- <-]. reflexivity.
  - apply IH.
Qed.

(** The extension is a suffix of a name without slashes. *)
Lemma extname_suffix name :
  allChars notSlash name = true ->
  exists stem, name = stem ++ Path.extname name.
Proof.
  intros Hall. unfold Path.extname. rewrite basenameRev_no_slash by assumption.
  destruct (Path.cutAtDot (rev_acc name "") "") as [[ext before]|] eqn:Hcut.
  - apply cutAtDot_spec in Hcut. rewrite rev_acc_involutive in Hcut.
    destruct before as [|c before]; [exists name; symmetry; apply append_empty_r|].
    destruct (String.eqb (String c before) "." && String.eqb ext ".").
    + exists name. symmetry; apply append_empty_r.
    + exists (rev_acc (String c before) ""). rewrite Hcut. apply rev_acc_acc.
  - exists name. symmetry; apply append_empty_r.
Qed.

End ExtensionFacts.

Section Mirror.
Import JsString.

#[local] Arguments String.append !s1 s2 : simpl nomatch.

(** For one entry below the root, [processDirectory] hands
    [convertFile] the joined input path and the mirrored output path. *)
Lemma outputPathOf_mirror cwd dirs name :
  goodNames cwd -> goodNames dirs -> goodName name = true ->
  has SUPPORTED_FORMATS (extensionOf name) = true ->
  exists stem,
    name = stem ++ Path.extname name /\
    inputPathOf (join (TO_BE_CONVERTED_DIR :: dirs)) name =
      join (TO_BE_CONVERTED_DIR :: dirs ++ [name]) /\
    Path.relative cwd TO_BE_CONVERTED_DIR (join (TO_BE_CONVERTED_DIR :: dirs ++ [name])) =
      join (dirs ++ [name]) /\
    outputPathOf cwd (join (TO_BE_CONVERTED_DIR :: dirs)) CONVERTED_DIR name =
      join (CONVERTED_DIR :: dirs ++ [stem ++ ".webp"]).
Proof.
  intros Hcwd Hdirs Hname Hsup.
  pose proof (goodName_inv _ Hname) as (Hn1 & Hn2 & _).
  destruct (extname_suffix name Hn2) as (stem & Hstem).
  apply supported_dotted, dotted_inv in Hsup as (e & Hext & He1 & He2).
  assert (Hroot : goodName TO_BE_CONVERTED_DIR = true) by reflexivity.
  assert (Hout : goodName CONVERTED_DIR = true) by reflexivity.
  assert (Hrel : goodNames (dirs ++ [name]))
    by (apply goodNames_app; [assumption | constructor; [assumption | constructor]]).
  assert (Hin : Path.join2 (join (TO_BE_CONVERTED_DIR :: dirs)) name =
                join (TO_BE_CONVERTED_DIR :: dirs ++ [name])).
  { change name with (join [name]) at 1.
    rewrite join2_join; try discriminate; try reflexivity.
    - constructor; assumption.
    - constructor; [assumption | constructor]. }
  assert (Hr : Path.relative cwd TO_BE_CONVERTED_DIR
                 (join (TO_BE_CONVERTED_DIR :: dirs ++ [name])) = join (dirs ++ [name])).
  { apply relative_below; try assumption. destruct dirs; discriminate. }
  exists stem. split; [assumption|]. split; [exact Hin|]. split; [exact Hr|].
  unfold outputPathOf. rewrite Hin, Hr.
  change CONVERTED_DIR with (join [CONVERTED_DIR]) at 1.
  rewrite join2_join; try assumption; try discriminate.
  - change ([CONVERTED_DIR] ++ dirs ++ [name])%list
      with ((CONVERTED_DIR :: dirs) ++ [name])%list.
    change (CONVERTED_DIR :: dirs ++ [(stem ++ ".webp")%string])%list
      with ((CONVERTED_DIR :: dirs) ++ [(stem ++ ".webp")%string])%list.
    rewrite !join_app by discriminate. simpl (join [_]).
    rewrite Hstem at 1. rewrite Hext.
    rewrite <- !append_assoc. rewrite replaceExtension_append by assumption.
    reflexivity.
  - destruct dirs; discriminate.
  - constructor; [assumption | constructor].
Qed.

End Mirror.

Section BaseName.
Import JsString.

#[local] Arguments String.append !s1 s2 : simpl nomatch.

Lemma split_not_nil s : split s <> [].
Proof.
  destruct s as [|c s]; simpl; [discriminate|].
  destruct (isSlash c); [discriminate|]. destruct (split s); discriminate.
Qed.

Lemma split_at_slash a b : split (a ++ "/" ++ b) = (split a ++ split b)%list.
Proof.
  change ("/" ++ b) with (String "/" b).
  induction a as [|c a IH]; simpl; [reflexivity|].
  rewrite IH. destruct (isSlash c); [reflexivity|].
  pose proof (split_not_nil a) as Hne.
  destruct (split a); [congruence | reflexivity].
Qed.

Lemma normalizeSegs_last allowAboveRoot segs name acc :
  goodName name = true ->
  exists xs, Path.normalizeSegs allowAboveRoot (segs ++ [name]) acc = (xs ++ [name])%list.
Proof.
  intros Hname. revert acc. induction segs as [|seg segs IH]; intros acc.
  - exists (rev acc). rewrite normalizeSegs_good by (constructor; [assumption | constructor]).
    reflexivity.
  - simpl. destruct (String.eqb seg "" || String.eqb seg "."); [apply IH|].
    destruct (String.eqb seg ".."); [|apply IH].
    destruct acc as [|last acc']; [apply IH|].
    destruct (String.eqb last ".."); apply IH.
Qed.

Lemma join_snoc xs name :
  exists pre, join (xs ++ [name]) = pre ++ name /\
              (pre = "" \/ exists x, pre = x ++ "/").
Proof.
  destruct xs as [|x xs].
  - exists "". split; [reflexivity | left; reflexivity].
  - exists (join (x :: xs) ++ "/"). split; [|right; eexists; reflexivity].
    rewrite join_app by discriminate. rewrite append_assoc. reflexivity.
Qed.

Lemma untilSlash_append r x :
  allChars notSlash r = true -> Path.untilSlash (r ++ String "/" x) = r.
Proof.
  induction r as [|c r IH]; simpl; [reflexivity|].
  intros [Hc Hr]%andb_prop. unfold notSlash in Hc. apply negb_true_iff in Hc.
  rewrite Hc, (IH Hr). reflexivity.
Qed.

Lemma nonEmpty_rev_acc a acc :
  nonEmpty (rev_acc a acc) = nonEmpty a || nonEmpty acc.
Proof.
  revert acc. induction a as [|c a IH]; intros acc; simpl; [reflexivity|].
  rewrite IH. simpl. apply orb_true_r.
Qed.

Lemma basenameRev_prefixed pre name :
  goodName name = true ->
  pre = "" \/ (exists x, pre = x ++ "/") ->
  Path.basenameRev (pre ++ name) = Path.basenameRev name.
Proof.
  intros Hname [->|[x ->]]; [reflexivity|].
  apply goodName_inv in Hname as (Hne & Hall & _).
  rewrite (basenameRev_no_slash name) by assumption.
  unfold Path.basenameRev.
  rewrite !rev_acc_append. simpl rev_acc. rewrite rev_acc_acc.
  assert (Hrev : allChars notSlash (rev_acc name "") = true)
    by (rewrite allChars_rev_acc, Hall; reflexivity).
  assert (Hnonempty : nonEmpty (rev_acc name "") = true)
    by (rewrite nonEmpty_rev_acc, Hne; reflexivity).
  destruct (rev_acc name "") as [|c r]; [discriminate|].
  pose proof Hrev as Hc. simpl in Hc. apply andb_prop in Hc as [Hc _].
  unfold notSlash in Hc. apply negb_true_iff in Hc.
  simpl Path.dropSlashes. rewrite Hc.
  change (String c (r ++ String "/" (rev_acc x "")))
    with (String c r ++ String "/" (rev_acc x "")).
  apply untilSlash_append. assumption.
Qed.

(** Joining a directory and an entry name keeps the name as the last
    portion of the path. *)
Lemma basenameRev_join2 inputDir name :
  goodName name = true ->
  Path.basenameRev (Path.join2 inputDir name) = Path.basenameRev name.
Proof.
  intros Hname. pose proof (goodName_inv _ Hname) as (Hne & Hall & _).
  assert (Hp : exists q segs,
             Path.join2 inputDir name = Path.normalize (q ++ name) /\
             split (q ++ name) = (segs ++ [name])%list).
  { unfold Path.join2. destruct inputDir as [|c i].
    - destruct name as [|d name]; [discriminate|].
      exists "", []. split; [reflexivity | apply split_no_slash; assumption].
    - destruct name as [|d name]; [discriminate|].
      exists (String c i ++ "/"), (split (String c i)). split.
      + rewrite append_assoc. reflexivity.
      + rewrite append_assoc, split_at_slash. f_equal.
        apply split_no_slash; assumption. }
  destruct Hp as (q & segs & -> & Hsplit).
  unfold Path.normalize.
  assert (Hq : nonEmpty (q ++ name) = true).
  { destruct q; simpl; [assumption | reflexivity]. }
  destruct (q ++ name) as [|c0 p0] eqn:Ep; [discriminate|]. rewrite <- Ep in *.
  rewrite endsWithSlash_append by assumption. rewrite Hsplit.
  destruct (normalizeSegs_last (negb (startsWithSlash (q ++ name))) segs name [] Hname)
    as (xs & ->).
  destruct (join_snoc xs name) as (pre & -> & Hpre).
  assert (Hbody : nonEmpty (pre ++ name) = true).
  { destruct pre; simpl; [assumption | reflexivity]. }
  destruct (pre ++ name) as [|c1 p1] eqn:Eb; [discriminate|]. rewrite <- Eb.
  destruct (startsWithSlash (q ++ name)).
  - rewrite <- append_assoc.
    rewrite basenameRev_prefixed; [reflexivity | assumption |].
    right. destruct Hpre as [->|[x ->]].
    + exists "". reflexivity.
    + exists ("/" ++ x). rewrite append_assoc. reflexivity.
  - rewrite basenameRev_prefixed by assumption. reflexivity.
Qed.

Lemma extname_join2 inputDir name :
  goodName name = true ->
  Path.extname (Path.join2 inputDir name) = Path.extname name.
Proof.
  intros Hname. unfold Path.extname. rewrite basenameRev_join2 by assumption.
  reflexivity.
Qed.

Lemma basename_join2 inputDir name :
  goodName name = true ->
  Path.basename (Path.join2 inputDir name) = name.
Proof.
  intros Hname. unfold Path.basename. rewrite basenameRev_join2 by assumption.
  apply goodName_inv in Hname as (_ & Hall & _).
  rewrite basenameRev_no_slash by assumption. apply rev_acc_involutive.
Qed.

End BaseName.

(** ** The structure of a walk *)

(** Induction on trees, through the listing of a directory. *)
Lemma node_tree_ind (P : node -> Prop) :
  (forall env, P (File env)) ->
  (forall entries, Forall (fun entry => P entry.2) entries -> P (Dir entries)) ->
  (forall message, P (Unreadable message)) ->
  P Other ->
  forall n, P n.
Proof.
  intros HFile HDir HUnreadable HOther.
  fix IH 1. intros [env|entries|message|].
  - apply HFile.
  - apply HDir. induction entries as [|[name child] entries IHentries].
    + constructor.
    + constructor; [apply IH | apply IHentries].
  - apply HUnreadable.
  - apply HOther.
Qed.

Section WalkStructure.

Variable cwd : list string.

Lemma processDirectory_Dir entries inputDir outputDir :
  processDirectory cwd (Dir entries) inputDir outputDir tt =
  let '(t, s, _) :=
    tryCatch
      (forOf (entryStep cwd (processDirectory cwd) inputDir outputDir) entries)
      (fun message => emit (Console (ErrorProcessing inputDir message)))
      emptyStats in
  ((t ++ [ProcessDirectoryReturns inputDir s])%list, tt, Ok s).
Proof. reflexivity. Qed.

Lemma processDirectory_not_Dir n inputDir outputDir :
  (forall entries, n <> Dir entries) ->
  exists message,
    processDirectory cwd n inputDir outputDir tt =
    ([Console (ErrorProcessing inputDir message);
      ProcessDirectoryReturns inputDir emptyStats], tt, Ok emptyStats).
Proof.
  intros Hn. destruct n as [env|entries|message|].
  - eexists; reflexivity.
  - destruct (Hn entries eq_refl).
  - eexists; reflexivity.
  - eexists; reflexivity.
Qed.

Lemma forOf_cons {S A} (body : A -> Eff S unit) x xs :
  forOf body (x :: xs) = bind (body x) (fun _ => forOf body xs).
Proof. reflexivity. Qed.

(** A loop over a concatenation runs the first part, then the second from
    the state the first left. *)
Lemma forOf_app {S A} (body : A -> Eff S unit) xs ys s :
  (forall x s0, In x xs -> exists t s1, body x s0 = (t, s1, Ok tt)) ->
  forOf body (xs ++ ys)%list s =
  let '(t1, s1, _) := forOf body xs s in
  let '(t2, s2, r) := forOf body ys s1 in
  ((t1 ++ t2)%list, s2, r).
Proof.
  revert s. induction xs as [|x xs IH]; intros s Hok.
  - simpl. destruct (forOf body ys s) as [[t2 s2] r]. reflexivity.
  - simpl app. rewrite !forOf_cons. unfold bind.
    destruct (Hok x s (or_introl eq_refl)) as (t & s1 & ->).
    rewrite IH by (intros; apply Hok; right; assumption).
    destruct (forOf body xs s1) as [[t1 s1'] r1].
    destruct (forOf body ys s1') as [[t2 s2] r2].
    rewrite app_assoc. reflexivity.
Qed.

End WalkStructure.

#[local] Arguments has : simpl never.

Ltac run_eff :=
  unfold convertFile, isAnimatedGif, ensureDir, convertAnimatedGif,
    convertWithSharp, tryCatch, bind, call, await, emit, modify, ret, throw;
  simpl.

(** [convertFile] never throws: it returns an outcome or [null], after
    console lines and encoder invocations only. *)
Lemma convertFile_returns env inputPath outputPath :
  exists t r,
    convertFile env inputPath outputPath tt =
      ((t ++ [ConvertFileReturns inputPath outputPath r])%list, tt, Ok r) /\
    forallb isOutput t = true.
Proof.
  run_eff.
  generalize (JsString.toLowerCase (Path.extname inputPath)); intros ext.
  destruct (has SUPPORTED_FORMATS ext); simpl;
    [| eexists [_], _; split; reflexivity ].
  destruct (String.eqb ext ".gif");
    destruct env as [[?|?] [?|?] [?|?] [[?|]|?] [?|?] [?|?] [?|?]]; simpl;
    repeat match goal with |- context [if ?b then _ else _] => destruct b; simpl end;
    first [ eexists [], _; split; reflexivity
          | eexists [_], _; split; reflexivity
          | eexists [_; _], _; split; reflexivity
          | eexists [_; _; _], _; split; reflexivity ].
Qed.

Section WalkInduction.

Variable cwd : list string.
Variable outputDir : string.

(** A property of entry names the invariant may rely on. *)
Variable P : string -> Prop.

(** An invariant between the events of a directory's loop and its
    [stats]. *)
Variable I : string -> list event -> stats -> Prop.

Hypothesis I_start : forall inputDir, I inputDir [] emptyStats.

Hypothesis I_error : forall inputDir message,
  I inputDir [Console (ErrorProcessing inputDir message)] emptyStats.

Hypothesis I_directory : forall inputDir name t s tsub ssub,
  P name ->
  I inputDir t s ->
  I (inputPathOf inputDir name) tsub ssub ->
  I inputDir
    (t ++ tsub ++ [ProcessDirectoryReturns (inputPathOf inputDir name) ssub])%list
    (mergeStats s ssub).

Hypothesis I_file : forall inputDir name env t s tc r,
  P name ->
  has SUPPORTED_FORMATS (extensionOf name) = true ->
  I inputDir t s ->
  convertFile env (inputPathOf inputDir name)
    (outputPathOf cwd inputDir outputDir name) tt = (tc, tt, Ok r) ->
  I inputDir (t ++ tc)%list (mergeStats s (fileStats (extensionOf name) r)).

Lemma loop_ind entries inputDir :
  Forall (fun entry => walkOk cwd outputDir P I entry.2) entries ->
  Forall P (namesIn (Dir entries)) ->
  forall t0 s0, I inputDir t0 s0 ->
  exists t s,
    forOf (entryStep cwd (processDirectory cwd) inputDir outputDir) entries s0 =
      (t, s, Ok tt) /\
    I inputDir (t0 ++ t)%list s.
Proof.
  induction entries as [|[name child] entries IH]; intros Hsub Hnames t0 s0 H0.
  - exists [], s0. rewrite app_nil_r. split; [reflexivity | assumption].
  - inversion Hsub as [|? ? Hchild Hsub']; subst.
    unfold walkOk in Hchild. simpl in Hnames, Hchild.
    inversion Hnames as [|? ? Hname Hrest]; subst.
    apply Forall_app in Hrest as [Hnchild Hnrest].
    assert (Hstep : exists t1 s1,
               entryStep cwd (processDirectory cwd) inputDir outputDir
                 (name, child) s0 = (t1, s1, Ok tt) /\
               I inputDir (t0 ++ t1)%list s1).
    { unfold entryStep; simpl.
      assert (Hdir : (exists es, child = Dir es) \/ (exists m, child = Unreadable m) ->
                exists t1 s1,
                  bind (call (processDirectory cwd child
                                (Path.join2 inputDir name) outputDir))
                       (fun subStats => modify (fun s => mergeStats s subStats)) s0
                    = (t1, s1, Ok tt) /\ I inputDir (t0 ++ t1)%list s1).
      { intros _. destruct (Hchild Hnchild (inputPathOf inputDir name))
          as (tsub & ssub & Heq & Hsubinv).
        unfold inputPathOf in Heq.
        unfold bind, call, modify. rewrite Heq.
        eexists _, _; split; [reflexivity|].
        rewrite app_nil_r. apply I_directory; assumption. }
      destruct child as [env|es|m|].
      - destruct (has SUPPORTED_FORMATS _) eqn:Hsup.
        + destruct (convertFile_returns env (inputPathOf inputDir name)
                      (outputPathOf cwd inputDir outputDir name))
            as (tc & r & Heq & _).
          unfold inputPathOf, outputPathOf in Heq.
          unfold bind, call, modify. rewrite Heq.
          destruct r as [o|]; simpl;
            eexists _, _; (split; [reflexivity|]);
            rewrite app_nil_r;
            [ rewrite (countFile_merge _ (Some o)) | rewrite (countFile_merge _ None) ];
            eapply I_file; eauto.
        + exists [], s0. rewrite app_nil_r. split; [reflexivity | assumption].
      - apply Hdir; eauto.
      - apply Hdir; eauto.
      - exists [], s0. rewrite app_nil_r. split; [reflexivity | assumption]. }
    destruct Hstep as (t1 & s1 & Heq1 & H1).
    destruct (IH Hsub' Hnrest _ _ H1) as (t2 & s2 & Heq2 & H2).
    exists (t1 ++ t2)%list, s2. rewrite forOf_cons. unfold bind.
    rewrite Heq1, Heq2. split; [reflexivity|].
    rewrite app_assoc. assumption.
Qed.

Lemma walk_ind n : walkOk cwd outputDir P I n.
Proof.
  unfold walkOk.
  induction n as [env|entries IH|message|] using node_tree_ind;
    intros Hnames inputDir.
  - eexists [_], _; split; [reflexivity | apply I_error].
  - destruct (loop_ind entries inputDir IH Hnames [] emptyStats (I_start _))
      as (t & s & Heq & Hinv).
    exists t, s. rewrite processDirectory_Dir. unfold tryCatch. rewrite Heq.
    split; [reflexivity | assumption].
  - eexists [_], _; split; [reflexivity | apply I_error].
  - eexists [_], _; split; [reflexivity | apply I_error].
Qed.

End WalkInduction.

(** ** Invariants of the statistics *)

Lemma Forall_trivial (l : list string) : Forall (fun _ => True) l.
Proof. apply Forall_forall. intros; exact Logic.I. Qed.

Lemma convertFile_trace env inputPath outputPath tc r :
  convertFile env inputPath outputPath tt = (tc, tt, Ok r) ->
  exists t,
    tc = (t ++ [ConvertFileReturns inputPath outputPath r])%list /\
    forallb isOutput t = true.
Proof.
  intros Heq.
  destruct (convertFile_returns env inputPath outputPath) as (t & r' & Heq' & Hout).
  rewrite Heq in Heq'. injection Heq' as -> ->. exists t. split; [reflexivity | assumption].
Qed.

Lemma outputs_no_return t d s :
  forallb isOutput t = true -> ~ In (ProcessDirectoryReturns d s) t.
Proof.
  intros Hall Hin. rewrite forallb_forall in Hall.
  apply Hall in Hin. discriminate.
Qed.

Lemma successes_app t1 t2 : successes (t1 ++ t2) = (successes t1 ++ successes t2)%list.
Proof. unfold successes. apply flat_map_app. Qed.

Lemma successes_outputs t : forallb isOutput t = true -> successes t = [].
Proof.
  induction t as [|e t IH]; simpl; [reflexivity|].
  intros [He Ht]%andb_prop. rewrite (IH Ht).
  destruct e; try discriminate; reflexivity.
Qed.

Lemma sumOf_app f l1 l2 : sumOf f (l1 ++ l2) = (sumOf f l1 + sumOf f l2)%N.
Proof.
  unfold sumOf. induction l1 as [|r l1 IH]; simpl; [reflexivity|].
  rewrite IH. lia.
Qed.

Lemma sumCounts_empty : sumCounts ∅ = 0%N.
Proof. apply map_fold_empty. Qed.

Lemma sumCounts_insert key count (m : gmap string N) :
  m !! key = None -> sumCounts (<[key := count]> m) = (count + sumCounts m)%N.
Proof.
  intros Hnone. unfold sumCounts. apply map_fold_insert_L; [|assumption].
  intros; lia.
Qed.

Lemma sumCounts_bump key count (m : gmap string N) :
  sumCounts (bump key count m) = (sumCounts m + count)%N.
Proof.
  unfold bump. destruct (m !! key) as [old|] eqn:Hkey; simpl.
  - rewrite <- (insert_delete_eq m). rewrite sumCounts_insert by apply lookup_delete_eq.
    rewrite <- (insert_delete_id m key old) at 2 by assumption.
    rewrite sumCounts_insert by apply lookup_delete_eq. lia.
  - rewrite sumCounts_insert by assumption. lia.
Qed.

Lemma sumCounts_union (m1 m2 : gmap string N) :
  sumCounts (union_with addCounts m1 m2) = (sumCounts m1 + sumCounts m2)%N.
Proof.
  induction m2 as [|key count m2 Hnone IH] using map_ind.
  - rewrite sumCounts_empty. f_equal.
    replace (union_with addCounts m1 ∅) with m1; [lia|].
    apply map_eq; intros k. rewrite lookup_union_with, lookup_empty.
    destruct (m1 !! k); reflexivity.
  - replace (union_with addCounts m1 (<[key:=count]> m2))
      with (bump key count (union_with addCounts m1 m2)).
    + rewrite sumCounts_bump, IH, sumCounts_insert by assumption. lia.
    + apply map_eq; intros k. rewrite bump_lookup, !lookup_union_with.
      destruct (decide (key = k)) as [->|Hne].
      * rewrite lookup_insert_eq, Hnone. destruct (m1 !! k); reflexivity.
      * rewrite lookup_insert_ne by done. reflexivity.
Qed.

Lemma sumCounts_fileStats ext r : sumCounts (formats (fileStats ext r)) = 1%N.
Proof.
  destruct r; simpl; rewrite sumCounts_bump, sumCounts_empty; reflexivity.
Qed.

(** C1.  For every tree and every call of [processDirectory], the record
    returned satisfies [totalFiles = successfulConversions +
    failedConversions]; so does the record returned by every recursive call
    made on the way (each one is a [ProcessDirectoryReturns] event of the
    trace). *)
Theorem counters_balanced_at_every_level :
  forall (cwd : list string) (n : node) (inputDir outputDir : string),
  exists t s,
    processDirectory cwd n inputDir outputDir tt = (t, tt, Ok s) /\
    balanced s /\
    forall dir s', In (ProcessDirectoryReturns dir s') t -> balanced s'.
Proof.
  intros cwd n inputDir outputDir.
  destruct (walk_ind cwd outputDir (fun _ => True)
              (fun _ t s => balanced s /\
                 forall dir s', In (ProcessDirectoryReturns dir s') t -> balanced s'))
    with (n := n) (inputDir := inputDir) as (t & s & Heq & Hs & Ht).
  - intros _. split; [reflexivity | intros ? ? []].
  - intros dir message. split; [reflexivity|].
    intros ? ? [Hin|[]]. discriminate.
  - intros dir name t s tsub ssub _ [Hs Ht] [Hsub Htsub]. split.
    + unfold balanced in *. simpl. lia.
    + intros d s' Hin. rewrite !in_app_iff in Hin.
      destruct Hin as [Hin|[Hin|[Hin|[]]]]; eauto.
      injection Hin as _ <-. assumption.
  - intros dir name env t s tc r _ _ [Hs Ht] Hconv. split.
    + unfold balanced in *. destruct r; simpl; lia.
    + intros d s' Hin. rewrite in_app_iff in Hin. destruct Hin as [Hin|Hin]; eauto.
      apply convertFile_trace in Hconv as (t' & -> & Hout).
      rewrite in_app_iff in Hin. destruct Hin as [Hin|[Hin|[]]].
      * destruct (outputs_no_return _ _ _ Hout Hin).
      * discriminate.
  - apply Forall_trivial.
  - exists (t ++ [ProcessDirectoryReturns inputDir s])%list, s.
    split; [assumption|]. split; [assumption|].
    intros d s' Hin. rewrite in_app_iff in Hin. destruct Hin as [Hin|[Hin|[]]]; eauto.
    injection Hin as _ <-. assumption.
Qed.

(** C8.  In the record [processDirectory] returns, [totalOriginalSize] and
    [totalNewSize] are the sums of the two sizes over the outcomes
    [convertFile] returned during the call, and there are
    [successfulConversions] of them: a call that returned [null] adds to
    neither total. *)
Theorem byte_totals_sum_over_successes :
  forall (cwd : list string) (n : node) (inputDir outputDir : string),
  exists t s,
    processDirectory cwd n inputDir outputDir tt = (t, tt, Ok s) /\
    totalOriginalSize s = sumOf originalSize (successes t) /\
    totalNewSize s = sumOf newSize (successes t) /\
    successfulConversions s = N.of_nat (length (successes t)).
Proof.
  intros cwd n inputDir outputDir.
  destruct (walk_ind cwd outputDir (fun _ => True)
              (fun _ t s =>
                 totalOriginalSize s = sumOf originalSize (successes t) /\
                 totalNewSize s = sumOf newSize (successes t) /\
                 successfulConversions s = N.of_nat (length (successes t))))
    with (n := n) (inputDir := inputDir) as (t & s & Heq & Ho & Hn & Hc).
  - intros _. repeat split.
  - intros dir message. repeat split.
  - intros dir name t s tsub ssub _ (Ho & Hn & Hc) (Hso & Hsn & Hsc).
    rewrite !successes_app, !sumOf_app, !length_app. simpl.
    rewrite Ho, Hn, Hc, Hso, Hsn, Hsc. repeat split; lia.
  - intros dir name env t s tc r _ _ (Ho & Hn & Hc) Hconv.
    apply convertFile_trace in Hconv as (t' & -> & Hout).
    rewrite !successes_app, !sumOf_app, !length_app.
    rewrite (successes_outputs _ Hout). rewrite <- Ho, <- Hn.
    destruct r as [o|]; simpl; repeat split; lia.
  - apply Forall_trivial.
  - exists (t ++ [ProcessDirectoryReturns inputDir s])%list, s.
    rewrite successes_app, app_nil_r. auto.
Qed.

(** C2.  Merging a subdirectory's record into [stats] adds the five
    counters; in [formats] a key of both records gets the sum of the two
    counts and a key of one record only keeps its count.  Hence merging [a]
    then [b] into [s] gives the record that merging [b] then [a] gives. *)
Theorem merge_adds_and_commutes :
  forall s a b : stats,
    totalFiles (mergeStats s a) = (totalFiles s + totalFiles a)%N /\
    successfulConversions (mergeStats s a) =
      (successfulConversions s + successfulConversions a)%N /\
    failedConversions (mergeStats s a) =
      (failedConversions s + failedConversions a)%N /\
    totalOriginalSize (mergeStats s a) =
      (totalOriginalSize s + totalOriginalSize a)%N /\
    totalNewSize (mergeStats s a) = (totalNewSize s + totalNewSize a)%N /\
    (forall key,
       formats (mergeStats s a) !! key =
       match formats s !! key, formats a !! key with
       | Some x, Some y => Some (x + y)%N
       | Some x, None => Some x
       | None, Some y => Some y
       | None, None => None
       end) /\
    mergeStats (mergeStats s a) b = mergeStats (mergeStats s b) a.
Proof.
  intros s a b. repeat split.
  - intros key. rewrite formats_mergeStats, lookup_union_with.
    destruct (formats s !! key), (formats a !! key); reflexivity.
  - rewrite !mergeStats_assoc. f_equal. apply mergeStats_comm.
Qed.

(** ** Directories, entry by entry *)

Section Decomposition.

Variable cwd : list string.

(** [processDirectory] always returns a record. *)
Lemma processDirectory_returns n inputDir outputDir :
  exists t s,
    processDirectory cwd n inputDir outputDir tt =
      ((t ++ [ProcessDirectoryReturns inputDir s])%list, tt, Ok s).
Proof.
  destruct (walk_ind cwd outputDir (fun _ => True) (fun _ _ _ => True))
    with (n := n) (inputDir := inputDir) as (t & s & Heq & _);
    try (intros; exact Logic.I).
  - apply Forall_trivial.
  - exists t, s. assumption.
Qed.

(** What the loop body does for one entry does not depend on the
    statistics gathered so far: it prints, encodes, and merges a record of
    its own into them. *)
Lemma entryStep_merge inputDir outputDir entry :
  exists t delta,
    forall s,
      entryStep cwd (processDirectory cwd) inputDir outputDir entry s =
        (t, mergeStats s delta, Ok tt).
Proof.
  destruct entry as [name child]. unfold entryStep; simpl.
  assert (Hdir : exists t delta, forall s,
            bind (call (processDirectory cwd child
                          (Path.join2 inputDir name) outputDir))
                 (fun subStats => modify (fun s => mergeStats s subStats)) s
              = (t, mergeStats s delta, Ok tt)).
  { destruct (processDirectory_returns child (Path.join2 inputDir name) outputDir)
      as (tsub & ssub & Heq).
    eexists _, ssub. intros s. unfold bind, call, modify. rewrite Heq. reflexivity. }
  destruct child as [env|es|m|]; try exact Hdir.
  - destruct (has SUPPORTED_FORMATS _).
    + destruct (convertFile_returns env (Path.join2 inputDir name)
                  (JsString.replaceExtension
                     (Path.join2 outputDir
                        (Path.relative cwd TO_BE_CONVERTED_DIR
                           (Path.join2 inputDir name))) ".webp"))
        as (tc & r & Heq & _).
      eexists _, (fileStats _ r). intros s.
      unfold bind, call, modify. rewrite Heq.
      rewrite <- countFile_merge. destruct r; reflexivity.
    + exists [], emptyStats. intros s. rewrite mergeStats_empty_r. reflexivity.
  - exists [], emptyStats. intros s. rewrite mergeStats_empty_r. reflexivity.
Qed.

Lemma loop_merge inputDir outputDir entries :
  exists t delta,
    forall s,
      forOf (entryStep cwd (processDirectory cwd) inputDir outputDir) entries s =
        (t, mergeStats s delta, Ok tt).
Proof.
  induction entries as [|entry entries (t2 & d2 & IH)].
  - exists [], emptyStats. intros s. rewrite mergeStats_empty_r. reflexivity.
  - destruct (entryStep_merge inputDir outputDir entry) as (t1 & d1 & H1).
    exists (t1 ++ t2)%list, (mergeStats d1 d2). intros s.
    rewrite forOf_cons. unfold bind. rewrite H1, IH, mergeStats_assoc. reflexivity.
Qed.

(** A directory with one more entry: its trace has the entry's events in
    place, and its record is the record without the entry merged with
    what the entry adds. *)
Lemma directory_with_entry before entry after inputDir outputDir te delta :
  entryStep cwd (processDirectory cwd) inputDir outputDir entry emptyStats =
    (te, delta, Ok tt) ->
  exists tb ta s,
    processDirectory cwd (Dir (before ++ after)) inputDir outputDir tt =
      ((tb ++ ta ++ [ProcessDirectoryReturns inputDir s])%list, tt, Ok s) /\
    processDirectory cwd (Dir (before ++ entry :: after)) inputDir outputDir tt =
      ((tb ++ te ++ ta ++
        [ProcessDirectoryReturns inputDir (mergeStats s delta)])%list,
       tt, Ok (mergeStats s delta)).
Proof.
  intros Hentry.
  destruct (entryStep_merge inputDir outputDir entry) as (te' & delta' & He).
  rewrite He, mergeStats_empty_l in Hentry. injection Hentry as -> ->.
  destruct (loop_merge inputDir outputDir before) as (tb & db & Hb).
  destruct (loop_merge inputDir outputDir after) as (ta & da & Ha).
  assert (Hok : forall (x : string * node) (s0 : stats), In x before ->
            exists t s1,
              entryStep cwd (processDirectory cwd) inputDir outputDir x s0 =
                (t, s1, Ok tt)).
  { intros x s0 _. destruct (entryStep_merge inputDir outputDir x) as (t & d & Hx).
    eexists _, _. apply Hx. }
  exists tb, ta, (mergeStats (mergeStats emptyStats db) da). split.
  - rewrite processDirectory_Dir. unfold tryCatch.
    rewrite forOf_app by exact Hok. rewrite Hb, Ha.
    rewrite <- app_assoc. reflexivity.
  - rewrite processDirectory_Dir. unfold tryCatch.
    rewrite forOf_app by exact Hok. rewrite Hb, forOf_cons. unfold bind.
    rewrite He, Ha.
    replace (mergeStats (mergeStats (mergeStats emptyStats db) delta) da)
      with (mergeStats (mergeStats (mergeStats emptyStats db) da) delta).
    + rewrite <- !app_assoc. reflexivity.
    + rewrite !mergeStats_assoc. f_equal. f_equal. apply mergeStats_comm.
Qed.

End Decomposition.

(** ** Entries the walk passes over *)

Section Prune.

Variable cwd : list string.
Variable skip : string * node -> bool.

(** The loop body does nothing for the entries [skip] selects. *)
Hypothesis skip_noop : forall entry walkDir inputDir outputDir s,
  skip entry = true ->
  entryStep cwd walkDir inputDir outputDir entry s = ([], s, Ok tt).

Lemma prune_walk n :
  forall inputDir outputDir,
    processDirectory cwd (prune skip n) inputDir outputDir tt =
    processDirectory cwd n inputDir outputDir tt.
Proof.
  induction n as [env|entries IH|message|] using node_tree_ind;
    intros inputDir outputDir; try reflexivity.
  simpl prune. rewrite !processDirectory_Dir.
  assert (Hloop : forall s,
    forOf (entryStep cwd (processDirectory cwd) inputDir outputDir)
      (flat_map (fun entry => if skip entry then []
                              else [(entry.1, prune skip entry.2)]) entries) s =
    forOf (entryStep cwd (processDirectory cwd) inputDir outputDir) entries s).
  { induction entries as [|[name child] entries IHentries]; intros s.
    - reflexivity.
    - inversion IH as [|? ? Hchild IH']; subst. simpl in Hchild.
      simpl flat_map. destruct (skip (name, child)) eqn:Hskip.
      + simpl app. rewrite forOf_cons. unfold bind.
        rewrite skip_noop by assumption.
        rewrite IHentries by assumption.
        destruct (forOf _ entries s) as [[t s'] r]. reflexivity.
      + simpl app. rewrite !forOf_cons. unfold bind.
        replace (entryStep cwd (processDirectory cwd) inputDir outputDir
                   (name, prune skip child) s)
          with (entryStep cwd (processDirectory cwd) inputDir outputDir
                   (name, child) s).
        * destruct (entryStep _ _ _ _ (name, child) s) as [[t s'] [[]|m]];
            [rewrite IHentries by assumption|]; reflexivity.
        * unfold entryStep; simpl.
          destruct child as [env|es|m|]; try reflexivity.
          unfold bind, call. rewrite Hchild. reflexivity. }
  unfold tryCatch. rewrite Hloop. reflexivity.
Qed.

End Prune.

(** C10.  Entries that are neither files nor directories leave no mark: the
    walk over a tree gives the record, and the whole trace, of the walk over
    the tree with these entries removed at every depth. *)
Theorem other_entries_are_ignored :
  forall (cwd : list string) (n : node) (inputDir outputDir : string),
    processDirectory cwd n inputDir outputDir tt =
    processDirectory cwd (prune isOther n) inputDir outputDir tt.
Proof.
  intros cwd n inputDir outputDir. symmetry. apply prune_walk.
  intros [name child] walkDir i o s Hskip.
  unfold isOther in Hskip; simpl in Hskip.
  destruct child; try discriminate. reflexivity.
Qed.

(** [convertFile] called on a path without a supported extension prints the
    [Skipping] line and returns [null]; [processDirectory] never makes that
    call, since it classifies the entry first. *)
Lemma convertFile_skips_unsupported env inputPath outputPath :
  has SUPPORTED_FORMATS (extensionOf inputPath) = false ->
  convertFile env inputPath outputPath tt =
    ([Console (Skipping (Path.basename inputPath));
      ConvertFileReturns inputPath outputPath None], tt, Ok None).
Proof.
  unfold extensionOf. intros Hext. run_eff. rewrite Hext. reflexivity.
Qed.

Lemma unsupported_step_noop cwd entry walkDir inputDir outputDir s :
  isUnsupportedFile entry = true ->
  entryStep cwd walkDir inputDir outputDir entry s = ([], s, Ok tt).
Proof.
  destruct entry as [name child]. unfold isUnsupportedFile, entryStep; simpl.
  destruct child; try discriminate.
  unfold extensionOf. intros Hext%negb_true_iff. rewrite Hext. reflexivity.
Qed.

(** C5, as stated, fails: the walk over a directory holding only
    [notes.txt] prints nothing at all; it just returns the empty record. *)
Lemma unsupported_file_is_not_logged :
  walk ["home"; "user"] (Dir [("notes.txt", File plainFile)]) tt =
    ([ProcessDirectoryReturns "to-be-converted" emptyStats], tt, Ok emptyStats) /\
  existsb isConsoleLine
    (walk ["home"; "user"] (Dir [("notes.txt", File plainFile)]) tt).1.1 = false.
Proof. split; reflexivity. Qed.

Lemma existsb_app_false {A} (f : A -> bool) (l1 l2 : list A) :
  existsb f l1 = false -> existsb f l2 = false -> existsb f (l1 ++ l2) = false.
Proof. intros H1 H2. rewrite existsb_app, H1, H2. reflexivity. Qed.

(** For a supported path [convertFile] does not print the [Skipping] line. *)
Lemma convertFile_supported_not_skipped env inputPath outputPath :
  has SUPPORTED_FORMATS (extensionOf inputPath) = true ->
  existsb isSkipping (convertFile env inputPath outputPath tt).1.1 = false.
Proof.
  unfold extensionOf. intros Hext. run_eff. rewrite Hext. simpl.
  destruct (String.eqb _ ".gif");
    destruct env as [[o|?] [[]|?] [[]|?] [[pages|]|?] [[]|?] [[]|?] [n|?]];
    simpl;
    repeat match goal with |- context [if ?b then _ else _] => destruct b; simpl end;
    reflexivity.
Qed.

(** C5, amended.  A file whose extension is not supported is passed over in
    silence: the directory holding it is walked exactly as the directory
    without it (same record, same console lines, same encoder invocations,
    same calls of [convertFile]), and so is a whole tree with such files at
    any depth.  The file is counted nowhere and nothing is written for it.
    The [Skipping] line of [convertFile] is never printed by a walk (over
    entry names as [readdir] reports them). *)
Theorem unsupported_files_are_passed_over :
  forall (cwd : list string) (inputDir outputDir : string),
    (forall before name env after,
       has SUPPORTED_FORMATS (extensionOf name) = false ->
       processDirectory cwd (Dir (before ++ (name, File env) :: after))
         inputDir outputDir tt =
       processDirectory cwd (Dir (before ++ after)) inputDir outputDir tt) /\
    (forall n,
       processDirectory cwd n inputDir outputDir tt =
       processDirectory cwd (prune isUnsupportedFile n) inputDir outputDir tt) /\
    (forall n,
       goodNames (namesIn n) ->
       exists t s,
         processDirectory cwd n inputDir outputDir tt = (t, tt, Ok s) /\
         existsb isSkipping t = false).
Proof.
  intros cwd inputDir outputDir. split; [|split].
  - intros before name env after Hext.
    destruct (directory_with_entry cwd before (name, File env) after
                inputDir outputDir [] emptyStats) as (tb & ta & s & H0 & H1).
    + apply unsupported_step_noop. unfold isUnsupportedFile; simpl.
      rewrite Hext. reflexivity.
    + rewrite H0, H1, mergeStats_empty_r. reflexivity.
  - intros n. symmetry. apply prune_walk.
    intros. apply unsupported_step_noop. assumption.
  - intros n Hnames.
    destruct (walk_ind cwd outputDir (fun name => goodName name = true)
                (fun _ t _ => existsb isSkipping t = false))
      with (n := n) (inputDir := inputDir) as (t & s & Heq & Hquiet).
    + reflexivity.
    + reflexivity.
    + intros dir name t s tsub ssub _ Ht Hsub.
      repeat apply existsb_app_false; auto.
    + intros dir name env t s tc r Hname Hext Ht Hconv.
      apply existsb_app_false; [assumption|].
      pose proof (convertFile_supported_not_skipped env (inputPathOf dir name)
                    (outputPathOf cwd dir outputDir name)) as Hskip.
      rewrite Hconv in Hskip. apply Hskip.
      unfold extensionOf, inputPathOf. rewrite extname_join2 by assumption.
      exact Hext.
    + exact Hnames.
    + eexists _, s. split; [exact Heq|].
      apply existsb_app_false; [assumption | reflexivity].
Qed.

Lemma unsupported_files_are_passed_over_witness :
  processDirectory ["home"; "user"]
    (Dir ([("a.png", File plainFile)] ++ ("notes.txt", File plainFile) :: []))
    "to-be-converted" "converted" tt =
  processDirectory ["home"; "user"]
    (Dir ([("a.png", File plainFile)] ++ []))
    "to-be-converted" "converted" tt.
Proof.
  apply (proj1 (unsupported_files_are_passed_over
                  ["home"; "user"] "to-be-converted" "converted")).
  reflexivity.
Defined.

(** ** Binary64: the rounding of the percentage *)

(** The operations of [SpecFloat] compute on mantissas and exponents: the
    quotient or the product is formed with the location of what was cut
    off, and [binary_round_aux] shifts it to 53 bits and rounds it to the
    nearest double, ties to even.  This section specifies the shift
    ([shifted_iter]) and the rounding ([binary_round_aux_spec]), bounds
    its error ([binary_round_aux_bound]), shows that the integers below
    2^53 and their differences are exact, and bounds the error of the
    quotient and of the product by 100. *)

Section Binary64.
Import SpecFloat.
Local Open Scope Z_scope.

Lemma pow2_pred d : 0 < d -> 2 ^ d = 2 * 2 ^ (d - 1).
Proof.
  intros Hd. rewrite <- Z.pow_succ_r by lia. f_equal. lia.
Qed.

(** [digits2_pos p] is the number of bits of [p]. *)
Lemma digits2_pos_spec p :
  2 ^ (Zpos (digits2_pos p) - 1) <= Zpos p < 2 ^ Zpos (digits2_pos p).
Proof.
  induction p as [p IH|p IH|]; simpl digits2_pos.
  - rewrite Pos2Z.inj_succ. change (Zpos p~1) with (2 * Zpos p + 1).
    replace (Z.succ (Zpos (digits2_pos p)) - 1) with (Zpos (digits2_pos p)) by lia.
    rewrite (pow2_pred (Z.succ (Zpos (digits2_pos p)))) by lia.
    replace (Z.succ (Zpos (digits2_pos p)) - 1) with (Zpos (digits2_pos p)) by lia.
    rewrite (pow2_pred (Zpos (digits2_pos p))) in * by lia. lia.
  - rewrite Pos2Z.inj_succ. change (Zpos p~0) with (2 * Zpos p).
    replace (Z.succ (Zpos (digits2_pos p)) - 1) with (Zpos (digits2_pos p)) by lia.
    rewrite (pow2_pred (Z.succ (Zpos (digits2_pos p)))) by lia.
    replace (Z.succ (Zpos (digits2_pos p)) - 1) with (Zpos (digits2_pos p)) by lia.
    rewrite (pow2_pred (Zpos (digits2_pos p))) in * by lia. lia.
  - change (2 ^ (1 - 1) <= 1 < 2 ^ 1). rewrite Z.pow_1_r. change (2 ^ (1 - 1)) with 1. lia.
Qed.

Lemma digits2_pos_unique p k :
  2 ^ (k - 1) <= Zpos p < 2 ^ k -> Zpos (digits2_pos p) = k.
Proof.
  intros [Hlo Hhi]. pose proof (digits2_pos_spec p) as [Dlo Dhi].
  set (d := Zpos (digits2_pos p)) in *.
  assert (Hk : 0 < k).
  { destruct (Z.ltb_spec 0 k) as [|Hle]; [assumption|].
    exfalso. destruct (Z.eqb_spec k 0) as [->|Hne]; [simpl in Hhi; lia|].
    rewrite Z.pow_neg_r in Hhi by lia. lia. }
  destruct (Z.lt_trichotomy d k) as [Hlt|[Heq|Hgt]]; [|assumption|]; exfalso.
  - assert (2 ^ d <= 2 ^ (k - 1)) by (apply Z.pow_le_mono_r; lia). lia.
  - assert (2 ^ k <= 2 ^ (d - 1)) by (apply Z.pow_le_mono_r; lia). lia.
Qed.

Lemma carries_locationOf m a b :
  0 <= a < b -> carries (shr_record_of_loc m (locationOf a b)) a b.
Proof.
  intros Hab. unfold locationOf, carries. split; [assumption|].
  destruct (Z.eqb_spec a 0) as [Ha|Ha]; simpl;
    [| destruct (Z.compare_spec (2 * a) b); simpl ];
    destruct (Z.leb_spec b (2 * a)); destruct (Z.eqb_spec (2 * a) b);
    try lia; split; reflexivity.
Qed.

Lemma loc_of_carries r a b :
  carries r a b -> loc_of_shr_record r = locationOf a b.
Proof.
  destruct r as [m r s]. unfold carries, locationOf. simpl. intros (Hab & -> & ->).
  destruct (Z.eqb_spec a 0) as [Ha|Ha]; simpl;
    [| destruct (Z.compare_spec (2 * a) b); simpl ];
    destruct (Z.leb_spec b (2 * a)); destruct (Z.eqb_spec (2 * a) b);
    try lia; reflexivity.
Qed.

Lemma carries_half (r s : bool) (bit a b : Z) :
  0 <= a < b -> (bit = 0 \/ bit = 1) ->
  r = (b <=? 2 * a) -> s = negb (a =? 0) && negb (2 * a =? b) ->
  carries {| shr_m := 0; shr_r := (bit =? 1); shr_s := r || s |} (a + b * bit) (2 * b).
Proof.
  intros Hab Hbit -> ->. unfold carries. simpl.
  split; [destruct Hbit as [-> | ->]; lia|].
  destruct Hbit as [-> | ->]; simpl;
    destruct (Z.eqb_spec a 0); destruct (Z.leb_spec b (2 * a));
    destruct (Z.eqb_spec (2 * a) b); simpl; try lia;
    match goal with
    | |- context [Z.leb ?x ?y] => destruct (Z.leb_spec x y)
    end; try lia;
    repeat match goal with
    | |- context [Z.eqb ?x ?y] => destruct (Z.eqb_spec x y)
    end; try lia; split; reflexivity.
Qed.

(** One step of the shift, and any number of them. *)
Lemma shifted_1 r : shifted 1 r (shr_1 r).
Proof.
  destruct r as [m r s]. intros a b Hm (Hab & Hr & Hs). simpl in Hm, Hr, Hs.
  rewrite Z.pow_1_r. simpl shr_m.
  destruct m as [|[p|p|]|p]; try lia; simpl shr_1; simpl shr_m.
  - split; [reflexivity|].
    apply (carries_half r s 0 a b); auto.
  - assert (H1 : Zpos p~1 / 2 = Zpos p)
      by (symmetry; apply Z.div_unique with 1; lia).
    assert (H2 : Zpos p~1 mod 2 = 1)
      by (symmetry; apply Z.mod_unique with (Zpos p); lia).
    rewrite H1, H2. split; [reflexivity|].
    destruct (carries_half r s 1 a b) as (C1 & C2 & C3); auto.
    split; [exact C1|]. split; [exact C2 | exact C3].
  - assert (H1 : Zpos p~0 / 2 = Zpos p)
      by (symmetry; apply Z.div_unique with 0; lia).
    assert (H2 : Zpos p~0 mod 2 = 0)
      by (symmetry; apply Z.mod_unique with (Zpos p); lia).
    rewrite H1, H2. split; [reflexivity|].
    destruct (carries_half r s 0 a b) as (C1 & C2 & C3); auto.
    split; [exact C1|]. split; [exact C2 | exact C3].
  - split; [reflexivity|].
    apply (carries_half r s 1 a b); auto.
Qed.

Lemma shifted_add k1 k2 r r' r'' :
  0 <= k1 -> 0 <= k2 ->
  shifted k1 r r' -> shifted k2 r' r'' -> shifted (k1 + k2) r r''.
Proof.
  intros Hk1 Hk2 H1 H2 a b Hm Hc.
  destruct (H1 a b Hm Hc) as (Hm1 & Hc1).
  assert (Hp1 : 0 < 2 ^ k1) by (apply Z.pow_pos_nonneg; lia).
  assert (Hp2 : 0 < 2 ^ k2) by (apply Z.pow_pos_nonneg; lia).
  assert (Hm' : 0 <= shr_m r') by (rewrite Hm1; apply Z.div_pos; lia).
  destruct (H2 _ _ Hm' Hc1) as (Hm2 & Hc2).
  rewrite Z.pow_add_r by assumption. split.
  - rewrite Hm2, Hm1. apply Z.div_div; lia.
  - rewrite Hm1 in Hc2. rewrite Z.rem_mul_r by lia.
    replace (a + b * (shr_m r mod 2 ^ k1 + 2 ^ k1 * ((shr_m r / 2 ^ k1) mod 2 ^ k2)))
      with (a + b * (shr_m r mod 2 ^ k1) + 2 ^ k1 * b * ((shr_m r / 2 ^ k1) mod 2 ^ k2)) by ring.
    replace (2 ^ k1 * 2 ^ k2 * b) with (2 ^ k2 * (2 ^ k1 * b)) by ring.
    exact Hc2.
Qed.

Lemma shifted_iter p r : shifted (Zpos p) r (iter_pos shr_1 p r).
Proof.
  revert r. induction p as [p IH|p IH|]; intros r; simpl iter_pos.
  - replace (Zpos p~1) with (1 + (Zpos p + Zpos p)) by lia.
    eapply shifted_add; [lia | lia | apply shifted_1 |].
    eapply shifted_add; [lia | lia | apply IH | apply IH].
  - replace (Zpos p~0) with (Zpos p + Zpos p) by lia.
    eapply shifted_add; [lia | lia | apply IH | apply IH].
  - apply shifted_1.
Qed.


(** Rounding to nearest moves the mantissa by at most half a unit. *)
Lemma round_cases m a b :
  0 <= a < b ->
  (round_nearest_even m (locationOf a b) = m \/ round_nearest_even m (locationOf a b) = m + 1) /\
  Z.abs ((round_nearest_even m (locationOf a b) - m) * b - a) * 2 <= b /\
  (a = 0 -> round_nearest_even m (locationOf a b) = m).
Proof.
  intros Hab. unfold locationOf, round_nearest_even.
  destruct (Z.eqb_spec a 0) as [Ha|Ha];
    [| destruct (Z.compare_spec (2 * a) b); [destruct (Z.even m)| |] ];
    (split; [auto|]); split; lia.
Qed.

(** A mantissa of 53 bits or more, in the range of the normal doubles, is
    shifted down to 53 bits. *)
Lemma shr_fexp_spec m e a b :
  0 < m -> 0 <= a < b ->
  0 <= Zdigits2 m - 53 -> -1074 <= e + (Zdigits2 m - 53) ->
  exists r,
    shr_fexp 53 1024 m e (locationOf a b) = (r, e + (Zdigits2 m - 53)) /\
    shr_m r = m / 2 ^ (Zdigits2 m - 53) /\
    carries r (a + b * (m mod 2 ^ (Zdigits2 m - 53))) (2 ^ (Zdigits2 m - 53) * b).
Proof.
  intros Hm Hab Hk He. unfold shr_fexp.
  set (k := Zdigits2 m - 53) in *.
  replace (fexp 53 1024 (Zdigits2 m + e) - e) with k
    by (unfold fexp, emin; lia).
  pose proof (carries_locationOf m a b Hab) as Hc.
  destruct k as [|q|q] eqn:Ek; [| |lia]; unfold shr.
  - eexists. split; [rewrite Z.add_0_r; reflexivity|].
    change (2 ^ 0) with 1. rewrite Z.div_1_r, Z.mod_1_r.
    replace (a + b * 0) with a by lia. replace (1 * b) with b by lia.
    split; [destruct (locationOf a b) as [|[]]; reflexivity | exact Hc].
  - eexists. split; [reflexivity|].
    assert (Hm0 : 0 <= shr_m (shr_record_of_loc m (locationOf a b)))
      by (destruct (locationOf a b) as [|[]]; simpl; lia).
    destruct (shifted_iter q _ a b Hm0 Hc) as (H1 & H2).
    replace (shr_m (shr_record_of_loc m (locationOf a b))) with m in H1, H2
      by (destruct (locationOf a b) as [|[]]; reflexivity).
    split; assumption.
Qed.

(** What [binary_round_aux] returns for such a mantissa: the 53 leading
    bits rounded to nearest even, renormalized when the rounding carries
    into a 54th bit, or an infinity when the exponent overflows. *)
Lemma binary_round_aux_spec s m e a b :
  0 < m -> 0 <= a < b ->
  0 <= Zdigits2 m - 53 -> -1074 <= e + (Zdigits2 m - 53) ->
  binary_round_aux 53 1024 s m e (locationOf a b) =
  let k := Zdigits2 m - 53 in
  let mr := round_nearest_even (m / 2 ^ k) (locationOf (a + b * (m mod 2 ^ k)) (2 ^ k * b)) in
  if mr <? 2 ^ 53
  then if e + k <=? 971 then S754_finite s (Z.to_pos mr) (e + k) else S754_infinity s
  else if e + k + 1 <=? 971 then S754_finite s (Z.to_pos (2 ^ 52)) (e + k + 1)
       else S754_infinity s.
Proof.
  intros Hm Hab Hk He.
  destruct (shr_fexp_spec m e a b Hm Hab Hk He) as (r & Hshr & Hr & Hc).
  unfold binary_round_aux. rewrite Hshr.
  rewrite (loc_of_carries _ _ _ Hc), Hr.
  set (k := Zdigits2 m - 53) in *. cbv zeta.
  set (a1 := a + b * (m mod 2 ^ k)) in *. set (b1 := 2 ^ k * b) in *.
  assert (Hab1 : 0 <= a1 < b1) by apply Hc.
  destruct (round_cases (m / 2 ^ k) a1 b1 Hab1) as (Hmr & _ & _).
  set (mr := round_nearest_even (m / 2 ^ k) (locationOf a1 b1)) in *.
  (* the truncated mantissa has 53 digits *)
  assert (Hm1 : 2 ^ 52 <= m / 2 ^ k < 2 ^ 53).
  { destruct m as [|p|p]; try lia. unfold Zdigits2 in k.
    pose proof (digits2_pos_spec p) as [Dlo Dhi].
    assert (Hp : 0 < 2 ^ k) by (apply Z.pow_pos_nonneg; lia).
    replace (Zpos (digits2_pos p) - 1) with (52 + k) in Dlo by lia.
    replace (Zpos (digits2_pos p)) with (53 + k) in Dhi by lia.
    rewrite Z.pow_add_r in Dlo, Dhi by lia.
    split.
    - apply Z.div_le_lower_bound; lia.
    - apply Z.div_lt_upper_bound; lia. }
  assert (E52 : 2 ^ 52 = 4503599627370496) by reflexivity.
  assert (E53 : 2 ^ 53 = 9007199254740992) by reflexivity.
  destruct (Z.ltb_spec mr (2 ^ 53)) as [Hlt|Hge].
  - (* no carry *)
    assert (Hd : Zdigits2 mr = 53).
    { destruct mr as [|p|p]; try lia. apply digits2_pos_unique.
      change (53 - 1) with 52. lia. }
    unfold shr_fexp. rewrite Hd.
    replace (fexp 53 1024 (53 + (e + k)) - (e + k)) with 0
      by (unfold fexp, emin; lia).
    unfold shr. simpl shr_m.
    destruct mr as [|p|p]; try lia. reflexivity.
  - (* the rounding carried into a 54th digit *)
    assert (Hmr' : mr = 2 ^ 53) by lia.
    rewrite Hmr'. unfold shr_fexp.
    change (Zdigits2 (2 ^ 53)) with 54.
    replace (fexp 53 1024 (54 + (e + k)) - (e + k)) with 1
      by (unfold fexp, emin; lia).
    reflexivity.
Qed.


(** ** Integers below 2^53 as doubles *)

Lemma digits_small p : Zpos p < 2 ^ 53 -> 1 <= Zpos (digits2_pos p) <= 53.
Proof.
  intros Hp. split; [lia|].
  pose proof (digits2_pos_spec p) as [Dlo _].
  destruct (Z.leb_spec (Zpos (digits2_pos p)) 53) as [|Hgt]; [assumption|exfalso].
  assert (2 ^ 53 <= 2 ^ (Zpos (digits2_pos p) - 1)) by (apply Z.pow_le_mono_r; lia).
  lia.
Qed.

Lemma mantissaOf_spec p :
  Zpos p < 2 ^ 53 ->
  Zpos (mantissaOf p) = Zpos p * 2 ^ (53 - Zpos (digits2_pos p)) /\
  2 ^ 52 <= Zpos (mantissaOf p) < 2 ^ 53.
Proof.
  intros Hp. pose proof (digits_small p Hp) as Hd.
  pose proof (digits2_pos_spec p) as [Dlo Dhi].
  set (d := Zpos (digits2_pos p)) in *.
  assert (Hs : 0 < 2 ^ (53 - d)) by (apply Z.pow_pos_nonneg; lia).
  assert (Hm : Zpos (mantissaOf p) = Zpos p * 2 ^ (53 - d))
    by (unfold mantissaOf; fold d; rewrite Z2Pos.id; [reflexivity | lia]).
  split; [exact Hm|]. rewrite Hm.
  assert (H52 : 2 ^ 52 = 2 ^ (d - 1) * 2 ^ (53 - d))
    by (rewrite <- Z.pow_add_r by lia; f_equal; lia).
  assert (H53 : 2 ^ 53 = 2 ^ d * 2 ^ (53 - d))
    by (rewrite <- Z.pow_add_r by lia; f_equal; lia).
  rewrite H52, H53. split.
  - apply Z.mul_le_mono_nonneg_r; lia.
  - apply Z.mul_lt_mono_pos_r; lia.
Qed.

Lemma mantissaOf_digits p : Zpos p < 2 ^ 53 -> Zdigits2 (Zpos (mantissaOf p)) = 53.
Proof.
  intros Hp. destruct (mantissaOf_spec p Hp) as (_ & Hlo & Hhi).
  apply digits2_pos_unique. change (53 - 1) with 52. lia.
Qed.

Lemma iter_xO m d : Zpos (Pos.iter xO m d) = Zpos m * 2 ^ Zpos d.
Proof.
  induction d as [|d IH] using Pos.peano_ind.
  - simpl. rewrite Z.pow_1_r. lia.
  - rewrite Pos.iter_succ, Pos2Z.inj_succ, Z.pow_succ_r by lia.
    change (Zpos (Pos.iter xO m d)~0) with (2 * Zpos (Pos.iter xO m d)).
    rewrite IH. ring.
Qed.

Lemma shl_align_spec m e e' :
  e' <= e -> shl_align m e e' = (Z.to_pos (Zpos m * 2 ^ (e - e')), e').
Proof.
  intros He. unfold shl_align.
  destruct (e' - e) as [|d|d] eqn:Ed; try lia.
  - replace e' with e in * by lia. rewrite Z.sub_diag. change (2 ^ 0) with 1.
    rewrite Z.mul_1_r. reflexivity.
  - replace (e - e') with (Zpos d) by lia.
    rewrite <- iter_xO. reflexivity.
Qed.

(** Rounding a positive integer below 2^53, given with trailing zeros,
    is exact. *)
Lemma binary_round_integer s p e x :
  e <= 0 -> -1000 <= e -> Zpos x < 2 ^ 53 -> Zpos p = Zpos x * 2 ^ (- e) ->
  binary_round 53 1024 s p e = S754_finite s (mantissaOf x) (exponentOf x).
Proof.
  intros He He' Hx Hp.
  pose proof (digits_small x Hx) as Hd.
  pose proof (digits2_pos_spec x) as [Dlo Dhi].
  destruct (mantissaOf_spec x Hx) as (Hm & Hmlo & Hmhi).
  unfold exponentOf. set (d := Zpos (digits2_pos x)) in *.
  assert (Hs : 0 < 2 ^ (- e)) by (apply Z.pow_pos_nonneg; lia).
  assert (Hdp : Zpos (digits2_pos p) = d - e).
  { apply digits2_pos_unique. rewrite Hp.
    replace (d - e - 1) with ((d - 1) + - e) by lia.
    replace (d - e) with (d + - e) by lia.
    rewrite !Z.pow_add_r by lia. split.
    - apply Z.mul_le_mono_nonneg_r; lia.
    - apply Z.mul_lt_mono_pos_r; lia. }
  unfold binary_round. rewrite Hdp.
  replace (fexp 53 1024 (d - e + e)) with (d - 53) by (unfold fexp, emin; lia).
  destruct (Z.leb_spec (d - 53) e) as [Hle|Hgt].
  - (* the mantissa is shifted left to 53 digits *)
    rewrite shl_align_spec by assumption.
    assert (Hmz : Zpos p * 2 ^ (e - (d - 53)) = Zpos (mantissaOf x)).
    { rewrite Hm, Hp, <- Z.mul_assoc, <- Z.pow_add_r by lia. do 2 f_equal. lia. }
    rewrite Hmz, Pos2Z.id.
    change loc_Exact with (locationOf 0 1).
    rewrite binary_round_aux_spec; rewrite ?mantissaOf_digits by assumption; try lia.
    cbv zeta. change (53 - 53) with 0. change (2 ^ 0) with 1.
    rewrite Z.div_1_r, Z.mod_1_r. simpl (locationOf _ _). simpl round_nearest_even.
    destruct (Z.ltb_spec (Zpos (mantissaOf x)) (2 ^ 53)); [|lia].
    replace (d - 53 + 0) with (d - 53) by lia.
    destruct (Z.leb_spec (d - 53) 971); [|lia].
    rewrite Pos2Z.id. reflexivity.
  - (* the trailing zeros are shifted out *)
    unfold shl_align. destruct (d - 53 - e) as [|q|q] eqn:Eq; try lia.
    change loc_Exact with (locationOf 0 1).
    assert (Hk : Zdigits2 (Zpos p) - 53 = Zpos q) by (unfold Zdigits2; lia).
    rewrite binary_round_aux_spec; rewrite ?Hk; try lia.
    cbv zeta.
    assert (Hsplit : Zpos p = Zpos (mantissaOf x) * 2 ^ Zpos q).
    { rewrite Hm, Hp, <- Z.mul_assoc, <- Z.pow_add_r by lia. do 2 f_equal. lia. }
    assert (Hq : 0 < 2 ^ Zpos q) by (apply Z.pow_pos_nonneg; lia).
    rewrite Hsplit, Z.div_mul, Z.mod_mul by lia.
    simpl (locationOf _ _). simpl round_nearest_even.
    destruct (Z.ltb_spec (Zpos (mantissaOf x)) (2 ^ 53)); [|lia].
    replace (e + Zpos q) with (d - 53) by lia.
    destruct (Z.leb_spec (d - 53) 971); [|lia].
    rewrite Pos2Z.id. reflexivity.
Qed.

Lemma binary_normalize_integer z :
  Z.abs z < 2 ^ 53 -> binary_normalize 53 1024 z 0 false = doubleOf z.
Proof.
  intros Hz. destruct z as [|p|p]; simpl binary_normalize; [reflexivity| |];
    apply binary_round_integer; try lia; change (2 ^ (- 0)) with 1; lia.
Qed.

(** The difference of two natural numbers below 2^53 is exact. *)
Lemma SFsub_integers x y :
  0 <= x < 2 ^ 53 -> 0 <= y < 2 ^ 53 ->
  SFsub 53 1024 (doubleOf x) (doubleOf y) = doubleOf (x - y).
Proof.
  intros Hx Hy.
  destruct x as [|px|px]; destruct y as [|py|py]; try lia; try reflexivity.
  unfold doubleOf at 1 2. unfold SFsub.
  destruct (mantissaOf_spec px) as (Hmx & _); [lia|].
  destruct (mantissaOf_spec py) as (Hmy & _); [lia|].
  pose proof (digits_small px ltac:(lia)) as Hdx.
  pose proof (digits_small py ltac:(lia)) as Hdy.
  unfold exponentOf.
  set (dx := Zpos (digits2_pos px)) in *. set (dy := Zpos (digits2_pos py)) in *.
  set (ez := Z.min (dx - 53) (dy - 53)).
  assert (Hez : ez <= dx - 53 /\ ez <= dy - 53 /\ -52 <= ez <= 0)
    by (unfold ez; lia).
  rewrite !shl_align_spec by lia. simpl fst. unfold cond_Zopp.
  assert (Hs : 0 < 2 ^ (- ez)) by (apply Z.pow_pos_nonneg; lia).
  assert (Hax : Zpos px * 2 ^ (- ez) = Zpos (mantissaOf px) * 2 ^ (dx - 53 - ez)).
  { rewrite Hmx, <- Z.mul_assoc, <- Z.pow_add_r by lia.
    do 2 f_equal. lia. }
  assert (Hay : Zpos py * 2 ^ (- ez) = Zpos (mantissaOf py) * 2 ^ (dy - 53 - ez)).
  { rewrite Hmy, <- Z.mul_assoc, <- Z.pow_add_r by lia.
    do 2 f_equal. lia. }
  rewrite <- Hax, <- Hay, !Z2Pos.id by lia.
  rewrite <- Z.mul_sub_distr_r.
  destruct (Zpos px - Zpos py) as [|pz|pz] eqn:Ez.
  + reflexivity.
  + assert (Hpos : Zpos pz * 2 ^ (- ez) = Zpos (Z.to_pos (Zpos pz * 2 ^ (- ez))))
      by (rewrite Z2Pos.id; lia).
    rewrite Hpos. simpl binary_normalize.
    apply binary_round_integer; lia.
  + assert (Hneg : Zneg pz * 2 ^ (- ez) = Zneg (Z.to_pos (Zpos pz * 2 ^ (- ez)))).
    { change (Zneg pz) with (- Zpos pz). rewrite Z.mul_opp_l.
      rewrite <- Pos2Z.opp_pos, Z2Pos.id; lia. }
    rewrite Hneg. simpl binary_normalize.
    apply binary_round_integer; lia.
Qed.


(** ** Rounded operations: the error of one rounding *)

(** The rounded value is within 2^-53 of the value [m + a / b] it rounds,
    relative to it. *)
Lemma binary_round_aux_bound s m e a b :
  0 < m -> 0 <= a < b ->
  0 <= Zdigits2 m - 53 -> -1074 <= e + (Zdigits2 m - 53) ->
  e + (Zdigits2 m - 53) + 1 <= 971 ->
  exists m2 e2,
    binary_round_aux 53 1024 s m e (locationOf a b) = S754_finite s m2 e2 /\
    2 ^ 52 <= Zpos m2 < 2 ^ 53 /\
    e + (Zdigits2 m - 53) <= e2 <= e + (Zdigits2 m - 53) + 1 /\
    Z.abs (Zpos m2 * 2 ^ (e2 - e) * b - (m * b + a)) * 2 ^ 53 <= m * b + a.
Proof.
  intros Hm Hab Hk He He'.
  rewrite binary_round_aux_spec by assumption. cbv zeta.
  set (k := Zdigits2 m - 53) in *.
  assert (HP : 0 < 2 ^ k) by (apply Z.pow_pos_nonneg; lia).
  pose proof (Z.div_mod m (2 ^ k) ltac:(lia)) as Hdm.
  pose proof (Z.mod_pos_bound m (2 ^ k) HP) as Hmm.
  assert (Hm1 : 2 ^ 52 <= m / 2 ^ k < 2 ^ 53).
  { destruct m as [|p|p]; try lia. unfold Zdigits2 in k.
    pose proof (digits2_pos_spec p) as [Dlo Dhi].
    replace (Zpos (digits2_pos p) - 1) with (52 + k) in Dlo by lia.
    replace (Zpos (digits2_pos p)) with (53 + k) in Dhi by lia.
    rewrite Z.pow_add_r in Dlo, Dhi by lia.
    split.
    - apply Z.div_le_lower_bound; lia.
    - apply Z.div_lt_upper_bound; lia. }
  set (m1 := m / 2 ^ k) in *. set (mm := m mod 2 ^ k) in *.
  set (a1 := a + b * mm). set (b1 := 2 ^ k * b).
  assert (Hab1 : 0 <= a1 < b1) by (unfold a1, b1; nia).
  destruct (round_cases m1 a1 b1 Hab1) as (Hmr & Herr & _).
  set (mr := round_nearest_even m1 (locationOf a1 b1)) in *.
  assert (E52 : 2 ^ 52 = 4503599627370496) by reflexivity.
  assert (E53 : 2 ^ 53 = 9007199254740992) by reflexivity.
  assert (Hval : mr * 2 ^ k * b - (m * b + a) = (mr - m1) * b1 - a1)
    by (unfold a1, b1; rewrite Hdm at 1; ring).
  assert (Hbound : Z.abs (mr * 2 ^ k * b - (m * b + a)) * 2 ^ 53 <= m * b + a).
  { rewrite Hval.
    assert (H1 : 2 ^ 52 * b1 <= m1 * b1) by (apply Z.mul_le_mono_nonneg_r; lia).
    assert (H2 : m1 * b1 <= m * b) by (unfold b1; rewrite Hdm; nia).
    rewrite E53. rewrite E52 in H1. lia. }
  destruct (Z.ltb_spec mr (2 ^ 53)) as [Hlt|Hge].
  - destruct (Z.leb_spec (e + k) 971); [|lia].
    exists (Z.to_pos mr), (e + k). rewrite Z2Pos.id by lia.
    split; [reflexivity|]. split; [lia|]. split; [lia|].
    replace (e + k - e) with k by lia. exact Hbound.
  - destruct (Z.leb_spec (e + k + 1) 971); [|lia].
    exists (Z.to_pos (2 ^ 52)), (e + k + 1). rewrite Z2Pos.id by lia.
    split; [reflexivity|]. split; [lia|]. split; [lia|].
    replace (e + k + 1 - e) with (k + 1) by lia.
    rewrite Z.pow_add_r, Z.pow_1_r by lia.
    assert (Hmr53 : mr = 2 ^ 52 * 2) by lia.
    replace (2 ^ 52 * (2 ^ k * 2)) with (mr * 2 ^ k) by (rewrite Hmr53; ring).
    exact Hbound.
Qed.

(** The location [SFdiv] computes for a remainder. *)
Lemma new_location_locationOf nb r :
  0 <= r < nb -> new_location nb r = locationOf r nb.
Proof.
  intros Hr. unfold new_location, new_location_even, new_location_odd, locationOf.
  destruct (Z.even nb) eqn:Hev; [reflexivity|].
  destruct (Z.eqb_spec r 0); [reflexivity|]. f_equal.
  assert (Hodd : Z.odd nb = true) by (rewrite <- Z.negb_even, Hev; reflexivity).
  apply Z.odd_spec in Hodd as (c & Hc).
  destruct (Z.compare_spec (2 * r + 1) nb); destruct (Z.compare_spec (2 * r) nb);
    try reflexivity; lia.
Qed.

Lemma div_eucl_div_mod a b : Z.div_eucl a b = (a / b, a mod b).
Proof. unfold Z.div, Z.modulo. destruct (Z.div_eucl a b). reflexivity. Qed.

Lemma digits_lower m : 2 ^ 52 <= m -> 0 <= Zdigits2 m - 53.
Proof.
  intros Hm. destruct m as [|p|p]; try (simpl in Hm; lia).
  pose proof (digits2_pos_spec p) as [_ Dhi]. unfold Zdigits2.
  destruct (Z.leb_spec 53 (Zpos (digits2_pos p))); [lia|exfalso].
  assert (2 ^ Zpos (digits2_pos p) <= 2 ^ 52) by (apply Z.pow_le_mono_r; lia).
  lia.
Qed.

Lemma digits_upper m k : 0 < m < 2 ^ k -> Zdigits2 m <= k.
Proof.
  intros Hm. destruct m as [|p|p]; try lia.
  pose proof (digits2_pos_spec p) as [Dlo _]. unfold Zdigits2.
  destruct (Z.leb_spec (Zpos (digits2_pos p)) k); [lia|exfalso].
  assert (0 <= k).
  { destruct (Z.leb_spec 0 k); [assumption|]. rewrite Z.pow_neg_r in Hm; lia. }
  assert (2 ^ k <= 2 ^ (Zpos (digits2_pos p) - 1)) by (apply Z.pow_le_mono_r; lia).
  lia.
Qed.

(** The quotient of two doubles with mantissas of 53 bits. *)
Lemma SFdiv_bound sx mx ex my ey :
  2 ^ 52 <= Zpos mx < 2 ^ 53 -> 2 ^ 52 <= Zpos my < 2 ^ 53 ->
  -400 <= ex <= 400 -> -400 <= ey <= 400 ->
  exists m1 e1,
    SFdiv 53 1024 (S754_finite sx mx ex) (S754_finite false my ey) =
      S754_finite sx m1 e1 /\
    2 ^ 52 <= Zpos m1 < 2 ^ 53 /\
    ex - ey - 53 <= e1 <= ex - ey - 51 /\
    Z.abs (Zpos m1 * 2 ^ (e1 - (ex - ey - 53)) * Zpos my - Zpos mx * 2 ^ 53) * 2 ^ 53
      <= Zpos mx * 2 ^ 53.
Proof.
  intros Hmx Hmy Hex Hey.
  assert (E52 : 2 ^ 52 = 4503599627370496) by reflexivity.
  assert (E53 : 2 ^ 53 = 9007199254740992) by reflexivity.
  assert (E54 : 2 ^ 54 = 18014398509481984) by reflexivity.
  assert (Hdx : Zdigits2 (Zpos mx) = 53)
    by (apply digits2_pos_unique; change (53 - 1) with 52; lia).
  assert (Hdy : Zdigits2 (Zpos my) = 53)
    by (apply digits2_pos_unique; change (53 - 1) with 52; lia).
  unfold SFdiv, SFdiv_core_binary. rewrite Hdx, Hdy.
  replace (Z.min (fexp 53 1024 (53 + ex - (53 + ey))) (ex - ey)) with (ex - ey - 53)
    by (unfold fexp, emin; lia).
  replace (ex - ey - (ex - ey - 53)) with 53 by lia.
  rewrite Z.shiftl_mul_pow2 by lia.
  rewrite div_eucl_div_mod.
  set (q := Zpos mx * 2 ^ 53 / Zpos my). set (r := (Zpos mx * 2 ^ 53) mod Zpos my).
  pose proof (Z.div_mod (Zpos mx * 2 ^ 53) (Zpos my) ltac:(lia)) as Hdm.
  pose proof (Z.mod_pos_bound (Zpos mx * 2 ^ 53) (Zpos my) ltac:(lia)) as Hr.
  fold q r in Hdm, Hr.
  assert (Hq : 2 ^ 52 <= q < 2 ^ 54).
  { unfold q. split.
    - apply Z.div_le_lower_bound; lia.
    - apply Z.div_lt_upper_bound; lia. }
  rewrite new_location_locationOf by assumption.
  rewrite xorb_false_r.
  pose proof (digits_lower q ltac:(lia)) as Hk.
  pose proof (digits_upper q 54 ltac:(lia)) as Hk'.
  destruct (binary_round_aux_bound sx q (ex - ey - 53) r (Zpos my))
    as (m1 & e1 & Heq & Hm1 & He1 & Hb); try lia.
  exists m1, e1. split; [exact Heq|]. split; [exact Hm1|]. split; [lia|].
  rewrite Hdm. replace (Zpos my * q + r) with (q * Zpos my + r) by ring.
  exact Hb.
Qed.

(** The product of two doubles with mantissas of 53 bits. *)
Lemma SFmul_bound sx mx ex my ey :
  2 ^ 52 <= Zpos mx < 2 ^ 53 -> 2 ^ 52 <= Zpos my < 2 ^ 53 ->
  -400 <= ex <= 400 -> -400 <= ey <= 400 ->
  exists m2 e2,
    SFmul 53 1024 (S754_finite sx mx ex) (S754_finite false my ey) =
      S754_finite sx m2 e2 /\
    2 ^ 52 <= Zpos m2 < 2 ^ 53 /\
    ex + ey + 52 <= e2 <= ex + ey + 54 /\
    Z.abs (Zpos m2 * 2 ^ (e2 - (ex + ey)) - Zpos mx * Zpos my) * 2 ^ 53
      <= Zpos mx * Zpos my.
Proof.
  intros Hmx Hmy Hex Hey.
  assert (E52 : 2 ^ 52 = 4503599627370496) by reflexivity.
  assert (E53 : 2 ^ 53 = 9007199254740992) by reflexivity.
  assert (E104 : 2 ^ 104 = 2 ^ 52 * 2 ^ 52) by reflexivity.
  assert (E106 : 2 ^ 106 = 2 ^ 53 * 2 ^ 53) by reflexivity.
  unfold SFmul. rewrite xorb_false_r. rewrite Pos2Z.inj_mul.
  set (m := Zpos mx * Zpos my).
  assert (Hm : 2 ^ 104 <= m < 2 ^ 106) by (unfold m; nia).
  assert (Hk : 105 <= Zdigits2 m).
  { destruct m as [|p|p] eqn:Ep; try lia.
    pose proof (digits2_pos_spec p) as [_ Dhi]. unfold Zdigits2.
    destruct (Z.leb_spec 105 (Zpos (digits2_pos p))); [lia|exfalso].
    assert (2 ^ Zpos (digits2_pos p) <= 2 ^ 104) by (apply Z.pow_le_mono_r; lia).
    lia. }
  pose proof (digits_upper m 106 ltac:(lia)) as Hk'.
  change loc_Exact with (locationOf 0 1).
  destruct (binary_round_aux_bound sx m (ex + ey) 0 1)
    as (m2 & e2 & Heq & Hm2 & He2 & Hb); try lia.
  exists m2, e2. split; [exact Heq|]. split; [exact Hm2|]. split; [lia|].
  rewrite Z.mul_1_r, Z.add_0_r in Hb. rewrite Z.mul_1_r in Hb. exact Hb.
Qed.


(** ** The percentage *)

(** Two roundings in a row: a quotient, then a product by a constant. *)
Lemma two_roundings (m1 m2 A B my V c : Z) :
  0 <= m1 -> 0 <= A -> 0 <= my -> 0 <= V -> 0 <= c ->
  Z.abs (m1 * A * my - V) * 2 ^ 53 <= V ->
  Z.abs (m2 * B - m1 * c) * 2 ^ 53 <= m1 * c ->
  Z.abs (m2 * B * A * my - c * V) * 2 ^ 51 <= c * V.
Proof.
  intros Hm1 HA Hmy HV Hc Hw Hu.
  assert (E53 : 2 ^ 53 = 9007199254740992) by reflexivity.
  assert (E51 : 2 ^ 51 = 2251799813685248) by reflexivity.
  rewrite E53 in *. rewrite E51.
  set (u := m2 * B - m1 * c) in *. set (w := m1 * A * my - V) in *.
  replace (m2 * B * A * my - c * V) with (u * (A * my) + c * w)
    by (unfold u, w; ring).
  assert (HAmy : 0 <= A * my) by (apply Z.mul_nonneg_nonneg; assumption).
  pose proof (Z.abs_triangle (u * (A * my)) (c * w)) as Htri.
  rewrite (Z.abs_mul u (A * my)), (Z.abs_mul c w) in Htri.
  rewrite (Z.abs_eq (A * my)) in Htri by assumption.
  rewrite (Z.abs_eq c) in Htri by assumption.
  pose proof (Z.abs_nonneg u) as Hu0. pose proof (Z.abs_nonneg w) as Hw0.
  set (au := Z.abs u) in *. set (aw := Z.abs w) in *.
  assert (Hw1 : m1 * A * my <= V + aw) by (unfold aw, w; lia).
  assert (H1 : au * (A * my) * 9007199254740992 <= m1 * c * (A * my))
    by (apply Z.mul_le_mono_nonneg_r with (p := A * my) in Hu; nia).
  assert (H2 : m1 * c * (A * my) <= c * (V + aw)).
  { replace (m1 * c * (A * my)) with (c * (m1 * A * my)) by ring.
    apply Z.mul_le_mono_nonneg_l; assumption. }
  assert (H3 : c * aw * 9007199254740992 <= c * V)
    by (rewrite <- Z.mul_assoc; apply Z.mul_le_mono_nonneg_l; assumption).
  assert (H4 : c * aw <= c * V) by nia.
  lia.
Qed.

Lemma cancel_scale (K X Y E : Z) :
  0 < K -> Z.abs (K * X) * E <= K * Y -> Z.abs X * E <= Y.
Proof.
  intros HK H. rewrite Z.abs_mul, (Z.abs_eq K) in H by lia.
  rewrite <- Z.mul_assoc in H. apply Z.mul_le_mono_pos_l in H; assumption.
Qed.

Lemma ofInteger_doubleOf z : Z.abs z < 2 ^ 53 -> JsNumber.ofInteger z = doubleOf z.
Proof. apply binary_normalize_integer. Qed.

(** A positive integer, however large, is a positive double or rounds to
    plus infinity. *)
Lemma ofInteger_positive p :
  (exists m e, JsNumber.ofInteger (Zpos p) = S754_finite false m e) \/
  JsNumber.ofInteger (Zpos p) = S754_infinity false.
Proof.
  destruct (Z.ltb_spec (Zpos p) (2 ^ 53)) as [Hlt|Hge].
  - left. rewrite ofInteger_doubleOf by lia. eexists _, _. reflexivity.
  - unfold JsNumber.ofInteger, JsNumber.prec, JsNumber.emax.
    simpl binary_normalize. unfold binary_round.
    assert (E52 : 2 ^ 52 = 4503599627370496) by reflexivity.
    assert (E53 : 2 ^ 53 = 9007199254740992) by reflexivity.
    pose proof (digits_lower (Zpos p) ltac:(lia)) as Hk. unfold Zdigits2 in Hk.
    replace (fexp 53 1024 (Zpos (digits2_pos p) + 0)) with (Zpos (digits2_pos p) - 53)
      by (unfold fexp, emin; lia).
    unfold shl_align.
    destruct (Zpos (digits2_pos p) - 53 - 0) as [|q|q] eqn:Eq; try lia;
      change loc_Exact with (locationOf 0 1);
      (rewrite binary_round_aux_spec; [| lia | lia | unfold Zdigits2; lia | unfold Zdigits2; lia]);
      cbv zeta;
      repeat match goal with |- context [if ?c then _ else _] => destruct c end;
      (left; eexists _, _; reflexivity) || (right; reflexivity).
Qed.

(** The double the script computes for sizes below 2^53, and its distance
    to the exact percentage [100 * (o - n) / o]. *)
Lemma reduction_double (o n : N) :
  (0 < o)%N -> (o < 2 ^ 53)%N -> (n < 2 ^ 53)%N -> o <> n ->
  exists m e,
    JsNumber.mul
      (JsNumber.div
         (JsNumber.sub (JsNumber.ofInteger (Z.of_N o)) (JsNumber.ofInteger (Z.of_N n)))
         (JsNumber.ofInteger (Z.of_N o)))
      (JsNumber.ofInteger 100) = S754_finite (o <? n)%N m e /\
    Z.abs (Zpos m * 2 ^ Z.max 0 e * Z.of_N o -
           100 * Z.abs (Z.of_N o - Z.of_N n) * 2 ^ Z.max 0 (- e)) * 2 ^ 51 <=
    100 * Z.abs (Z.of_N o - Z.of_N n) * 2 ^ Z.max 0 (- e).
Proof.
  intros Ho Ho' Hn Hne.
  assert (E53 : 2 ^ 53 = 9007199254740992) by reflexivity.
  assert (Hzo : 0 < Z.of_N o < 2 ^ 53) by (rewrite E53; lia).
  assert (Hzn : 0 <= Z.of_N n < 2 ^ 53) by (rewrite E53; lia).
  rewrite !ofInteger_doubleOf by (rewrite ?E53; simpl; lia).
  unfold JsNumber.mul, JsNumber.div, JsNumber.sub, JsNumber.prec, JsNumber.emax.
  rewrite SFsub_integers by lia.
  assert (Hs : (o <? n)%N = (Z.of_N o - Z.of_N n <? 0)).
  { destruct (N.ltb_spec o n); destruct (Z.ltb_spec (Z.of_N o - Z.of_N n) 0);
      try reflexivity; lia. }
  rewrite Hs.
  destruct (Z.of_N o) as [|po|po] eqn:Eo; try lia.
  set (x := Zpos po - Z.of_N n) in *.
  assert (Hx : x <> 0 /\ Z.abs x < 2 ^ 53) by (unfold x; lia).
  assert (Hdiv : exists px, Zpos px = Z.abs x /\
            doubleOf x = S754_finite (x <? 0) (mantissaOf px) (exponentOf px)).
  { destruct x as [|px|px]; try lia; exists px; split; reflexivity. }
  destruct Hdiv as (px & Hpx & ->). rewrite <- Hpx in *.
  clearbody x. clear Hs.
  unfold doubleOf.
  destruct (mantissaOf_spec px ltac:(lia)) as (Hmx & Hmx').
  destruct (mantissaOf_spec po ltac:(lia)) as (Hmy & Hmy').
  destruct (mantissaOf_spec 100 ltac:(reflexivity)) as (Hmc & Hmc').
  pose proof (digits_small px ltac:(lia)) as Hdx.
  pose proof (digits_small po ltac:(lia)) as Hdy.
  destruct (SFdiv_bound (x <? 0) (mantissaOf px) (exponentOf px) (mantissaOf po) (exponentOf po))
    as (m1 & e1 & -> & Hm1 & He1 & Hb1); try (unfold exponentOf; lia).
  destruct (SFmul_bound (x <? 0) m1 e1 (mantissaOf 100) (exponentOf 100))
    as (m2 & e2 & -> & Hm2 & He2 & Hb2); try (unfold exponentOf in *; simpl; lia).
  exists m2, e2. split; [reflexivity|].
  change (exponentOf 100) with (-46) in *.
  change (Zpos (mantissaOf 100)) with (100 * 2 ^ 46) in *.
  unfold exponentOf in *.
  set (dx := Zpos (digits2_pos px)) in *. set (dy := Zpos (digits2_pos po)) in *.
  set (e' := dx - 53 - (dy - 53) - 53) in *.
  pose proof (two_roundings (Zpos m1) (Zpos m2) (2 ^ (e1 - e')) (2 ^ (e2 - (e1 + -46)))
                (Zpos (mantissaOf po)) (Zpos (mantissaOf px) * 2 ^ 53) (100 * 2 ^ 46)) as Hcomp.
  assert (HA : 0 < 2 ^ (e1 - e')) by (apply Z.pow_pos_nonneg; lia).
  assert (HB : 0 < 2 ^ (e2 - (e1 + -46))) by (apply Z.pow_pos_nonneg; lia).
  assert (HSx : 0 < 2 ^ (53 - dx)) by (apply Z.pow_pos_nonneg; lia).
  assert (HSy : 0 < 2 ^ (53 - dy)) by (apply Z.pow_pos_nonneg; lia).
  assert (HP2 : 0 < 2 ^ Z.max 0 e2) by (apply Z.pow_pos_nonneg; lia).
  assert (HN2 : 0 < 2 ^ Z.max 0 (- e2)) by (apply Z.pow_pos_nonneg; lia).
  specialize (Hcomp ltac:(lia) ltac:(lia) ltac:(lia) ltac:(lia) ltac:(lia) Hb1 Hb2).
  rewrite Hmx, Hmy in Hcomp.
  (* the scales on both sides agree *)
  assert (Hscale : 2 ^ (e2 - (e1 + -46)) * 2 ^ (e1 - e') * 2 ^ (53 - dy) * 2 ^ Z.max 0 (- e2) =
                   2 ^ 99 * 2 ^ (53 - dx) * 2 ^ Z.max 0 e2).
  { rewrite <- !Z.pow_add_r by lia. f_equal. unfold e'. lia. }
  set (A := 2 ^ (e1 - e')) in *. set (B := 2 ^ (e2 - (e1 + -46))) in *.
  set (Sx := 2 ^ (53 - dx)) in *. set (Sy := 2 ^ (53 - dy)) in *.
  set (P2 := 2 ^ Z.max 0 e2) in *. set (N2 := 2 ^ Z.max 0 (- e2)) in *.
  apply (cancel_scale (2 ^ 99 * Sx)); [lia|].
  apply Z.mul_le_mono_nonneg_r with (p := N2) in Hcomp; [|lia].
  assert (E99 : 2 ^ 99 = 2 ^ 46 * 2 ^ 53) by reflexivity.
  assert (Hlhs : 2 ^ 99 * Sx * (Z.pos m2 * P2 * Z.pos po - 100 * Z.pos px * N2) =
                 N2 * (Z.pos m2 * B * A * (Z.pos po * Sy) -
                       100 * 2 ^ 46 * (Z.pos px * Sx * 2 ^ 53))).
  { replace (N2 * (Z.pos m2 * B * A * (Z.pos po * Sy) -
                   100 * 2 ^ 46 * (Z.pos px * Sx * 2 ^ 53)))
      with (Z.pos m2 * Z.pos po * (B * A * Sy * N2) -
            100 * Z.pos px * N2 * (2 ^ 46 * 2 ^ 53 * Sx)) by ring.
    rewrite Hscale, E99. ring. }
  rewrite Hlhs, Z.abs_mul, (Z.abs_eq N2) by lia.
  replace (2 ^ 99 * Sx * (100 * Z.pos px * N2))
    with (100 * 2 ^ 46 * (Z.pos px * Sx * 2 ^ 53) * N2) by (rewrite E99; ring).
  etransitivity; [|exact Hcomp].
  apply Z.eq_le_incl. ring.
Qed.

(** The bound of [reduction_double], on the value of the double. *)
Lemma percentage_bound (s : bool) (m : positive) (e : Z) (x : Z) (d : positive) :
  s = (x <? 0) ->
  Z.abs (Zpos m * 2 ^ Z.max 0 e * Zpos d - 100 * Z.abs x * 2 ^ Z.max 0 (- e)) * 2 ^ 51
    <= 100 * Z.abs x * 2 ^ Z.max 0 (- e) ->
  exists q,
    JsNumber.valueOf (S754_finite s m e) = JsNumber.Finite q /\
    (Qabs (q - (x # d) * (100 # 1)) <= (1 # 2 ^ 51) * Qabs ((x # d) * (100 # 1)))%Q.
Proof.
  intros Hs Hb. eexists. split; [reflexivity|].
  assert (E51 : 2 ^ 51 = 2251799813685248) by reflexivity.
  set (z := if s then Zneg m else Zpos m).
  assert (Hkey : forall P2 N2 : Z, 0 < P2 -> 0 < N2 ->
            Z.abs (Zpos m * P2 * Zpos d - 100 * Z.abs x * N2) * 2 ^ 51 <= 100 * Z.abs x * N2 ->
            Z.abs (z * P2 * Zpos d - x * 100 * N2) * 2 ^ 51 <= Z.abs (x * 100) * N2).
  { intros P2 N2 HP HN H. rewrite Z.abs_mul. change (Z.abs 100) with 100.
    replace (Z.abs x * 100 * N2) with (100 * Z.abs x * N2) by ring.
    etransitivity; [|exact H]. apply Z.eq_le_incl. f_equal.
    unfold z. subst s. destruct (Z.ltb_spec x 0).
    - rewrite (Z.abs_neq x) by lia. change (Zneg m) with (- Zpos m).
      rewrite <- Z.abs_opp. f_equal. ring.
    - rewrite (Z.abs_eq x) by lia. f_equal. ring. }
  assert (Hfin : forall U b N : Z,
            Z.abs U * 2 ^ 51 <= b * N ->
            Z.abs U * (Zpos (2 ^ 51) * Zpos d) <= b * (N * Zpos d)).
  { intros U b N H. change (Zpos (2 ^ 51)) with (2 ^ 51).
    rewrite !Z.mul_assoc. apply Z.mul_le_mono_nonneg_r; [lia | exact H]. }
  destruct e as [|k|k]; unfold Qle; cbn [Qnum Qden Qabs Qminus Qplus Qopp Qmult];
    rewrite ?Pos2Z.inj_mul, ?Pos.mul_1_r, ?Z.mul_1_l, ?Z.mul_1_r.
  - specialize (Hkey 1 1 ltac:(lia) ltac:(lia) Hb).
    rewrite <- (Z.mul_1_l (Zpos d)) at 3. apply Hfin.
    etransitivity; [|exact Hkey]. apply Z.eq_le_incl. do 2 f_equal. ring.
  - assert (HP : 0 < 2 ^ Zpos k) by (apply Z.pow_pos_nonneg; lia).
    specialize (Hkey (2 ^ Zpos k) 1 HP ltac:(lia) Hb).
    rewrite <- (Z.mul_1_l (Zpos d)) at 3. apply Hfin.
    etransitivity; [|exact Hkey]. apply Z.eq_le_incl. do 2 f_equal. ring.
  - assert (HN : 0 < 2 ^ Zpos k) by (apply Z.pow_pos_nonneg; lia).
    specialize (Hkey 1 (2 ^ Zpos k) ltac:(lia) HN Hb).
    rewrite Pos2Z.inj_pow. apply Hfin.
    etransitivity; [|exact Hkey]. apply Z.eq_le_incl. do 2 f_equal. ring.
Qed.


(** The sign of a double is the sign of its value, which is not zero. *)
Lemma valueOf_sign (s : bool) (m : positive) (e : Z) (q : Q) :
  JsNumber.valueOf (S754_finite s m e) = JsNumber.Finite q ->
  ((q < 0)%Q <-> s = true) /\ ~ (q == 0)%Q.
Proof.
  intros Hq. injection Hq as <-.
  assert (Hpow : forall k, 0 < 2 ^ Zpos k) by (intros k; apply Z.pow_pos_nonneg; lia).
  destruct e as [|k|k]; try specialize (Hpow k);
    destruct s; unfold Qlt, Qeq; cbn [Qnum Qden]; rewrite ?Z.mul_1_r;
    (split; [split; [intros H; reflexivity || (exfalso; nia)
                    | intros H; nia || discriminate H] | nia]).
Qed.

(** Equal sizes: the difference is zero, and so are the quotient and the
    product. *)
Lemma reduction_of_equal_sizes (d : positive) :
  (Npos d < 2 ^ 53)%N -> reduction (Npos d) (Npos d) = JsNumber.Finite 0.
Proof.
  intros Hd. unfold reduction. cbv zeta.
  assert (E53 : 2 ^ 53 = 9007199254740992) by reflexivity.
  rewrite !ofInteger_doubleOf by (rewrite ?E53; simpl; lia).
  unfold JsNumber.mul, JsNumber.div, JsNumber.sub, JsNumber.prec, JsNumber.emax.
  rewrite SFsub_integers by (simpl; lia).
  rewrite Z.sub_diag. reflexivity.
Qed.

(** The percentage of sizes below 2^53, the original one positive: the
    double is within 2^-51 of the exact quotient, relative to it. *)
Lemma reduction_close (d : positive) (newSize : N) :
  (Npos d < 2 ^ 53)%N -> (newSize < 2 ^ 53)%N ->
  exists q e : Q,
    reduction (Npos d) newSize = JsNumber.Finite q /\
    exactReduction (Npos d) newSize = JsNumber.Finite e /\
    (e == (100 * (Zpos d - Z.of_N newSize)) # d)%Q /\
    (Qabs (q - e) <= (1 # 2 ^ 51) * Qabs e)%Q /\
    ((q == 0)%Q <-> newSize = Npos d) /\
    ((q < 0)%Q <-> (Npos d < newSize)%N).
Proof.
  intros Hd Hn.
  assert (He : ((Zpos d - Z.of_N newSize # d) * (100 # 1) ==
                (100 * (Zpos d - Z.of_N newSize)) # d)%Q)
    by (unfold Qeq; simpl; rewrite Pos.mul_1_r; ring).
  destruct (N.eq_dec (Npos d) newSize) as [<-|Hne].
  - exists 0%Q, ((Zpos d - Zpos d # d) * (100 # 1))%Q.
    split; [apply reduction_of_equal_sizes; exact Hd|].
    split; [reflexivity|]. split; [exact He|].
    split; [rewrite Z.sub_diag; unfold Qle; simpl; lia|].
    split; [split; reflexivity|].
    split; [intros H; discriminate H | intros H; exfalso; revert H; apply N.lt_irrefl].
  - destruct (reduction_double (Npos d) newSize) as (m & e & Heq & Hb);
      try assumption; [reflexivity|].
    destruct (percentage_bound (Npos d <? newSize)%N m e (Zpos d - Z.of_N newSize) d)
      as (q & Hq & Hbound).
    + destruct (N.ltb_spec (Npos d) newSize);
        destruct (Z.ltb_spec (Zpos d - Z.of_N newSize) 0); try reflexivity; lia.
    + exact Hb.
    + destruct (valueOf_sign _ _ _ _ Hq) as (Hsign & Hzero).
      exists q, ((Zpos d - Z.of_N newSize # d) * (100 # 1))%Q.
      split; [unfold reduction; cbv zeta; rewrite Heq; exact Hq|].
      split; [reflexivity|]. split; [exact He|]. split; [exact Hbound|].
      split; [split; [intros H; destruct (Hzero H) | intros H; destruct (Hne (eq_sym H))]|].
      rewrite Hsign. apply N.ltb_lt.
Qed.

(** Nothing converted into something: minus infinity, whatever the new
    size. *)
Lemma reduction_of_nothing (d : positive) :
  reduction 0 (Npos d) = JsNumber.NegInfinity.
Proof.
  unfold reduction. cbv zeta.
  change (JsNumber.ofInteger (Z.of_N 0)) with (S754_zero false).
  change (JsNumber.ofInteger 100)
    with (S754_finite false 7036874417766400 (-46)).
  change (Z.of_N (Npos d)) with (Zpos d).
  destruct (ofInteger_positive d) as [(m & e & ->)| ->]; reflexivity.
Qed.

End Binary64.

(** ** The reduction percentage *)

(** C4, as stated, fails: with [originalSize = 0] and [newSize = 0] the
    value is NaN, printed as ["NaN"], not a zero. *)
Lemma zero_size_reduction_is_NaN :
  reduction 0 0 = JsNumber.NaN /\
  JsNumber.toFixed2 (reduction 0 0) = "NaN" /\
  JsNumber.toFixed2 (reduction 0 0) <> "0.00" /\
  overallReduction emptyStats = "NaN".
Proof. repeat split. vm_compute. discriminate. Qed.

(** C4, amended.  For a positive [originalSize] (sizes below 2^53) the
    value is the double that binary64 gives for
    [(originalSize - newSize) / originalSize * 100]: it lies within 2^-51,
    relative, of the exact quotient, it is zero exactly when the sizes are
    equal and negative exactly when the file grew, and it is printed with
    two decimals.  1000 and 400 give ["60.00"]; 160 and 63 give ["60.62"],
    where the exact 60.625 would be printed as 60.63.  For
    [originalSize = 0] nothing is raised: the division yields NaN when
    [newSize] is 0 too and minus infinity otherwise, and that is what is
    printed. *)
Theorem reduction_percentage :
  (forall (d : positive) (newSize : N),
     (Npos d < 2 ^ 53)%N -> (newSize < 2 ^ 53)%N ->
     exists q e : Q,
       reduction (Npos d) newSize = JsNumber.Finite q /\
       exactReduction (Npos d) newSize = JsNumber.Finite e /\
       (e == (100 * (Zpos d - Z.of_N newSize)) # d)%Q /\
       (Qabs (q - e) <= (1 # 2 ^ 51) * Qabs e)%Q /\
       ((q == 0)%Q <-> newSize = Npos d) /\
       ((q < 0)%Q <-> (Npos d < newSize)%N)) /\
  JsNumber.toFixed2 (reduction 1000 400) = "60.00" /\
  JsNumber.toFixed2 (reduction 160 63) = "60.62" /\
  JsNumber.toFixed2 (reduction 0 0) = "NaN" /\
  (forall d : positive, JsNumber.toFixed2 (reduction 0 (Npos d)) = "-Infinity").
Proof.
  split; [exact reduction_close|].
  split; [vm_compute; reflexivity|].
  split; [vm_compute; reflexivity|].
  split; [vm_compute; reflexivity|].
  intros d. rewrite reduction_of_nothing. reflexivity.
Qed.

(** ** The dispatch of [convertFile] *)

Lemma pages_test (pages : N) : negb (pages =? 0)%N && (1 <? pages)%N = (1 <? pages)%N.
Proof.
  destruct (N.ltb_spec 1 pages) as [Hlt|Hge]; [|apply andb_false_r].
  rewrite andb_true_r. apply negb_true_iff, N.eqb_neq. lia.
Qed.

(** C6.  Once [convertFile] reaches its dispatch (supported extension, input
    size read, output directory ensured), it invokes exactly one encoder on
    the two paths: gif2webp when [requiresAnimatedPath] holds of the
    lower-cased extension and the probe, sharp otherwise.  A failing probe
    is not an error of the conversion. *)
Theorem animated_gif_routing :
  forall (env : fileEnv) (inputPath outputPath : string),
    has SUPPORTED_FORMATS (extensionOf inputPath) = true ->
    throws (statInput env) = false ->
    throws (accessOutputDir env) && throws (mkdirOutputDir env) = false ->
    exists t r enc,
      convertFile env inputPath outputPath tt = (t, tt, Ok r) /\
      encodersOf t = [enc] /\
      In (Encode enc inputPath outputPath) t /\
      isAnimationTranscoder enc =
        requiresAnimatedPath (extensionOf inputPath) (metadataPages env).
Proof.
  intros env inputPath outputPath Hext Hstat Hdir.
  unfold extensionOf in *. unfold requiresAnimatedPath. run_eff.
  revert Hext. generalize (JsString.toLowerCase (Path.extname inputPath)).
  intros ext Hext. rewrite Hext. simpl.
  destruct env as [[o|?] [[]|?] [[]|?] [[pages|]|?] [[]|?] [[]|?] [n|?]];
    simpl in *; try discriminate;
    try rewrite pages_test;
    destruct (String.eqb ext ".gif"); simpl;
    try destruct (1 <? pages)%N; simpl;
    eexists _, _, _; (split; [reflexivity|]); simpl; auto 6.
Qed.

(** ** One file's failure *)

(** When a step fails, [convertFile] prints one error line and returns
    [null]; no other console line is printed. *)
Lemma convertFile_fails env inputPath outputPath :
  has SUPPORTED_FORMATS (extensionOf inputPath) = true ->
  conversionFails env (extensionOf inputPath) = true ->
  exists tf message,
    convertFile env inputPath outputPath tt =
      ((tf ++ [Console (ErrorConverting (Path.basename inputPath) message);
               ConvertFileReturns inputPath outputPath None])%list, tt, Ok None) /\
    existsb isConsoleLine tf = false.
Proof.
  unfold extensionOf, conversionFails, requiresAnimatedPath. intros Hext Hfail.
  run_eff. revert Hext Hfail.
  generalize (JsString.toLowerCase (Path.extname inputPath)). intros ext Hext Hfail.
  rewrite Hext. simpl.
  destruct env as [[o|?] [[]|?] [[]|?] [[pages|]|?] [[]|?] [[]|?] [n|?]];
    simpl in *;
    try rewrite pages_test;
    destruct (String.eqb ext ".gif"); simpl in *;
    try destruct (1 <? pages)%N; simpl in *; try discriminate;
    first [ eexists [], _; split; reflexivity
          | eexists [_], _; split; reflexivity ].
Qed.

(** When no step fails, [convertFile] returns the two sizes. *)
Lemma convertFile_succeeds env inputPath outputPath :
  has SUPPORTED_FORMATS (extensionOf inputPath) = true ->
  conversionFails env (extensionOf inputPath) = false ->
  exists t original new,
    statInput env = Ok original /\ statOutput env = Ok new /\
    convertFile env inputPath outputPath tt =
      (t, tt, Ok (Some {| success := true; originalSize := original; newSize := new |})).
Proof.
  unfold extensionOf, conversionFails, requiresAnimatedPath. intros Hext Hfail.
  run_eff. revert Hext Hfail.
  generalize (JsString.toLowerCase (Path.extname inputPath)). intros ext Hext Hfail.
  rewrite Hext. simpl.
  destruct env as [[o|?] [[]|?] [[]|?] [[pages|]|?] [[]|?] [[]|?] [n|?]];
    simpl in *;
    try rewrite pages_test;
    destruct (String.eqb ext ".gif"); simpl in *;
    try destruct (1 <? pages)%N; simpl in *; try discriminate;
    eexists _, _, _; repeat split; reflexivity.
Qed.

(** The loop body for a supported file, from what [convertFile] does. *)
Lemma supported_step cwd walkDir inputDir outputDir name env tc r s :
  has SUPPORTED_FORMATS (extensionOf name) = true ->
  convertFile env (inputPathOf inputDir name)
    (outputPathOf cwd inputDir outputDir name) tt = (tc, tt, Ok r) ->
  entryStep cwd walkDir inputDir outputDir (name, File env) s =
    (tc, mergeStats s (fileStats (extensionOf name) r), Ok tt).
Proof.
  unfold extensionOf, inputPathOf, outputPathOf, entryStep. simpl.
  intros Hext Hconv. rewrite Hext.
  unfold bind, call, modify. rewrite Hconv.
  rewrite <- countFile_merge. destruct r; simpl; rewrite app_nil_r; reflexivity.
Qed.

(** C7.  A failure while reading, converting or measuring one supported
    file stays inside [convertFile]: it prints one error line and returns
    [null] instead of throwing.  In the directory holding the file,
    [processDirectory] counts one more file and one more failure and is
    otherwise as without the file: the entries before and after it leave the
    events they leave without it, and the successes and byte totals are
    those of the other entries. *)
Theorem one_failure_does_not_abort_the_directory :
  forall (cwd : list string) (env : fileEnv) (name : string)
         (before after : list (string * node)) (inputDir outputDir : string),
    goodName name = true ->
    has SUPPORTED_FORMATS (extensionOf name) = true ->
    conversionFails env (extensionOf name) = true ->
    exists tf message tb ta s,
      let inputPath := inputPathOf inputDir name in
      let outputPath := outputPathOf cwd inputDir outputDir name in
      let failure :=
        (tf ++ [Console (ErrorConverting name message);
                ConvertFileReturns inputPath outputPath None])%list in
      let s' := mergeStats s (fileStats (extensionOf name) None) in
      convertFile env inputPath outputPath tt = (failure, tt, Ok None) /\
      existsb isConsoleLine tf = false /\
      processDirectory cwd (Dir (before ++ after)) inputDir outputDir tt =
        ((tb ++ ta ++ [ProcessDirectoryReturns inputDir s])%list, tt, Ok s) /\
      processDirectory cwd (Dir (before ++ (name, File env) :: after))
        inputDir outputDir tt =
        ((tb ++ failure ++ ta ++ [ProcessDirectoryReturns inputDir s'])%list,
         tt, Ok s') /\
      failedConversions s' = (failedConversions s + 1)%N /\
      totalFiles s' = (totalFiles s + 1)%N /\
      successfulConversions s' = successfulConversions s /\
      totalOriginalSize s' = totalOriginalSize s /\
      totalNewSize s' = totalNewSize s.
Proof.
  intros cwd env name before after inputDir outputDir Hname Hext Hfail.
  assert (Hext' : extensionOf (inputPathOf inputDir name) = extensionOf name).
  { unfold extensionOf, inputPathOf. rewrite extname_join2 by assumption. reflexivity. }
  destruct (convertFile_fails env (inputPathOf inputDir name)
              (outputPathOf cwd inputDir outputDir name))
    as (tf & message & Hconv & Hquiet); try (rewrite Hext'; assumption).
  unfold inputPathOf at 2 in Hconv. rewrite basename_join2 in Hconv by assumption.
  destruct (directory_with_entry cwd before (name, File env) after inputDir outputDir
              _ _ (supported_step cwd (processDirectory cwd) inputDir outputDir
                     name env _ None emptyStats Hext Hconv))
    as (tb & ta & s & H0 & H1).
  rewrite mergeStats_empty_l in H1.
  exists tf, message, tb, ta, s. cbv zeta.
  split; [exact Hconv|]. split; [exact Hquiet|]. split; [exact H0|].
  split; [rewrite H1, <- !app_assoc; reflexivity|].
  simpl. repeat split; lia.
Qed.

(** C9.  In the record [processDirectory] returns, the counts of [formats]
    add up to [totalFiles].  A supported file adds one to [totalFiles] and
    one to the count of its lower-cased extension, whatever its environment
    makes of the conversion. *)
Theorem format_counts_add_up_to_totalFiles :
  forall (cwd : list string) (inputDir outputDir : string),
    (forall n, exists t s,
       processDirectory cwd n inputDir outputDir tt = (t, tt, Ok s) /\
       sumCounts (formats s) = totalFiles s) /\
    (forall before name env after,
       has SUPPORTED_FORMATS (extensionOf name) = true ->
       exists t s t' s',
         processDirectory cwd (Dir (before ++ after)) inputDir outputDir tt =
           (t, tt, Ok s) /\
         processDirectory cwd (Dir (before ++ (name, File env) :: after))
           inputDir outputDir tt = (t', tt, Ok s') /\
         totalFiles s' = (totalFiles s + 1)%N /\
         formats s' = bump (extensionOf name) 1 (formats s)).
Proof.
  intros cwd inputDir outputDir. split.
  - intros n.
    destruct (walk_ind cwd outputDir (fun _ => True)
                (fun _ _ s => sumCounts (formats s) = totalFiles s))
      with (n := n) (inputDir := inputDir) as (t & s & Heq & Hs).
    + intros _. apply sumCounts_empty.
    + intros _ _. apply sumCounts_empty.
    + intros dir name t s tsub ssub _ Hs Hsub.
      rewrite formats_mergeStats, sumCounts_union, Hs, Hsub. reflexivity.
    + intros dir name env t s tc r _ _ Hs _.
      rewrite formats_mergeStats, sumCounts_union, Hs, sumCounts_fileStats.
      destruct r; simpl; lia.
    + apply Forall_trivial.
    + eexists _, s. split; [exact Heq | exact Hs].
  - intros before name env after Hext.
    destruct (convertFile_returns env (inputPathOf inputDir name)
                (outputPathOf cwd inputDir outputDir name)) as (tc & r & Hconv & _).
    destruct (directory_with_entry cwd before (name, File env) after inputDir outputDir
                _ _ (supported_step cwd (processDirectory cwd) inputDir outputDir
                       name env _ r emptyStats Hext Hconv))
      as (tb & ta & s & H0 & H1).
    rewrite mergeStats_empty_l in H1.
    eexists _, s, _, _. split; [exact H0|]. split; [exact H1|]. split.
    + destruct r; simpl; lia.
    + rewrite formats_mergeStats, bump_union. f_equal.
      destruct r; simpl; rewrite bump_union; apply map_eq; intros k;
        rewrite lookup_union_with, lookup_empty;
        destruct ({[extensionOf name := 1%N]} !! k); reflexivity.
Qed.

(** ** The mirrored output path *)

Lemma callsOf_app t1 t2 : callsOf (t1 ++ t2) = (callsOf t1 ++ callsOf t2)%list.
Proof. unfold callsOf. apply flat_map_app. Qed.

Lemma callsOf_outputs t : forallb isOutput t = true -> callsOf t = [].
Proof.
  induction t as [|e t IH]; simpl; [reflexivity|].
  intros [He Ht]%andb_prop. rewrite (IH Ht).
  destruct e; try discriminate; reflexivity.
Qed.

Section Calls.

Variable cwd : list string.

Lemma supportedFiles_cons entry entries :
  supportedFiles (Dir (entry :: entries)) =
  (match entry.2 with
   | File _ => if has SUPPORTED_FORMATS (extensionOf entry.1) then [([], entry.1)] else []
   | _ => map (fun f => (entry.1 :: f.1, f.2)) (supportedFiles entry.2)
   end ++ supportedFiles (Dir entries))%list.
Proof. reflexivity. Qed.

Lemma callOf_below inputDir outputDir name (files : list (list string * string)) :
  map (callOf cwd inputDir outputDir) (map (fun f => (name :: f.1, f.2)) files) =
  map (callOf cwd (inputPathOf inputDir name) outputDir) files.
Proof. rewrite map_map. reflexivity. Qed.

(** The calls of [convertFile] during a call of [processDirectory]: one
    for each supported file of the tree, in the order of the listings, with
    the paths the loop computes for it. *)
Lemma walk_calls n :
  forall inputDir outputDir,
  exists t s,
    processDirectory cwd n inputDir outputDir tt =
      ((t ++ [ProcessDirectoryReturns inputDir s])%list, tt, Ok s) /\
    callsOf t = map (callOf cwd inputDir outputDir) (supportedFiles n).
Proof.
  induction n as [env|entries IH|message|] using node_tree_ind;
    intros inputDir outputDir;
    try (eexists [_], _; split; reflexivity).
  assert (Hloop : forall s0, exists t s,
            forOf (entryStep cwd (processDirectory cwd) inputDir outputDir) entries s0 =
              (t, s, Ok tt) /\
            callsOf t = map (callOf cwd inputDir outputDir) (supportedFiles (Dir entries))).
  { induction entries as [|[name child] entries IHentries]; intros s0.
    - exists [], s0. split; reflexivity.
    - inversion IH as [|? ? Hchild IH']; subst. simpl in Hchild.
      assert (Hstep : exists t1 s1,
                entryStep cwd (processDirectory cwd) inputDir outputDir (name, child) s0 =
                  (t1, s1, Ok tt) /\
                callsOf t1 =
                  map (callOf cwd inputDir outputDir)
                    match child with
                    | File _ =>
                        if has SUPPORTED_FORMATS (extensionOf name) then [([], name)] else []
                    | _ => map (fun f => (name :: f.1, f.2)) (supportedFiles child)
                    end).
      { assert (Hdir : (exists es, child = Dir es) \/ (exists m, child = Unreadable m) ->
                  exists t1 s1,
                    bind (call (processDirectory cwd child
                                  (Path.join2 inputDir name) outputDir))
                         (fun subStats => modify (fun s => mergeStats s subStats)) s0
                      = (t1, s1, Ok tt) /\
                    callsOf t1 =
                      map (callOf cwd inputDir outputDir)
                        (map (fun f => (name :: f.1, f.2)) (supportedFiles child))).
        { intros _. destruct (Hchild (inputPathOf inputDir name) outputDir)
            as (tsub & ssub & Heq & Hcalls).
          unfold inputPathOf in Heq. unfold bind, call, modify. rewrite Heq.
          eexists _, _. split; [reflexivity|].
          rewrite app_nil_r, callsOf_app, Hcalls, callOf_below. simpl.
          rewrite app_nil_r. reflexivity. }
        destruct child as [env|es|m|].
        - destruct (has SUPPORTED_FORMATS (extensionOf name)) eqn:Hsup.
          + destruct (convertFile_returns env (inputPathOf inputDir name)
                        (outputPathOf cwd inputDir outputDir name))
              as (tc & r & Heq & Hout).
            rewrite (supported_step _ _ _ _ _ _ _ _ s0 Hsup Heq).
            eexists _, _. split; [reflexivity|].
            rewrite callsOf_app, (callsOf_outputs _ Hout). reflexivity.
          + exists [], s0. unfold entryStep. simpl. unfold extensionOf in Hsup.
            rewrite Hsup. split; reflexivity.
        - apply Hdir. eauto.
        - apply Hdir. eauto.
        - exists [], s0. split; reflexivity. }
      destruct Hstep as (t1 & s1 & Heq1 & Hc1).
      destruct (IHentries IH' s1) as (t2 & s2 & Heq2 & Hc2).
      exists (t1 ++ t2)%list, s2. rewrite forOf_cons. unfold bind.
      rewrite Heq1, Heq2. split; [reflexivity|].
      rewrite callsOf_app, Hc1, Hc2, supportedFiles_cons, map_app. reflexivity. }
  destruct (Hloop emptyStats) as (t & s & Heq & Hcalls).
  exists t, s. rewrite processDirectory_Dir. unfold tryCatch. rewrite Heq.
  split; [reflexivity | exact Hcalls].
Qed.

End Calls.

Section MirroredCalls.
Import JsString.

#[local] Arguments String.append !s1 s2 : simpl nomatch.

Lemma substring_append (stem ext : string) :
  substring 0 (String.length stem) (stem ++ ext) = stem.
Proof.
  induction stem as [|c stem IH]; simpl.
  - destruct ext; reflexivity.
  - rewrite IH. reflexivity.
Qed.

Lemma stemOf_spec stem name :
  name = stem ++ Path.extname name -> stemOf name = stem.
Proof.
  intros Hname. unfold stemOf. rewrite Hname at 1 3.
  rewrite length_append.
  replace (String.length stem + String.length (Path.extname name) -
           String.length (Path.extname name))%nat with (String.length stem) by lia.
  apply substring_append.
Qed.

Lemma foldl_join2 dirs :
  goodNames dirs ->
  foldl Path.join2 TO_BE_CONVERTED_DIR dirs = join (TO_BE_CONVERTED_DIR :: dirs).
Proof.
  induction dirs as [|name dirs IH] using rev_ind; intros Hdirs; [reflexivity|].
  apply Forall_app in Hdirs as [Hdirs Hname].
  rewrite foldl_app. simpl. rewrite IH by assumption.
  change name with (join [name]) at 1.
  change (TO_BE_CONVERTED_DIR :: dirs ++ [name])%list
    with ((TO_BE_CONVERTED_DIR :: dirs) ++ [name])%list.
  apply join2_join; try discriminate.
  - constructor; [reflexivity | assumption].
  - assumption.
Qed.

(** The directories above a supported file and its name are entry names
    of the tree. *)
Lemma supportedFiles_names (P : string -> Prop) n :
  Forall P (namesIn n) ->
  Forall (fun f => Forall P f.1 /\ P f.2 /\
                   has SUPPORTED_FORMATS (extensionOf f.2) = true)
         (supportedFiles n).
Proof.
  induction n as [env|entries IH|message|] using node_tree_ind;
    intros Hnames; try constructor.
  induction entries as [|[name child] entries IHentries]; [constructor|].
  inversion IH as [|? ? Hchild IH']; subst. simpl in Hchild.
  simpl in Hnames. inversion Hnames as [|? ? Hname Hrest]; subst.
  apply Forall_app in Hrest as [Hnchild Hnrest].
  rewrite supportedFiles_cons. apply Forall_app. split; [|apply IHentries; assumption].
  simpl.
  assert (Hsub : Forall (fun f => Forall P f.1 /\ P f.2 /\
                                  has SUPPORTED_FORMATS (extensionOf f.2) = true)
                   (map (fun f : list string * string => (name :: f.1, f.2))
                        (supportedFiles child))).
  { specialize (Hchild Hnchild). rewrite List.Forall_forall in Hchild.
    apply List.Forall_forall. intros f Hin. apply in_map_iff in Hin as (g & <- & Hg).
    destruct (Hchild g Hg) as (H1 & H2 & H3). simpl.
    split; [constructor; assumption|]. split; assumption. }
  destruct child as [env|es|m|]; try exact Hsub.
  destruct (has SUPPORTED_FORMATS (extensionOf name)) eqn:Hsup; constructor.
  - simpl. split; [constructor|]. split; assumption.
  - constructor.
Qed.

(** Below [to-be-converted], the paths the loop computes for a supported
    file are the mirrored ones. *)
Lemma callOf_mirroredPaths cwd f :
  goodNames cwd -> goodNames f.1 -> goodName f.2 = true ->
  has SUPPORTED_FORMATS (extensionOf f.2) = true ->
  callOf cwd TO_BE_CONVERTED_DIR CONVERTED_DIR f = mirroredPaths f.
Proof.
  destruct f as [dirs name]. simpl. intros Hcwd Hdirs Hname Hsup.
  destruct (outputPathOf_mirror cwd dirs name Hcwd Hdirs Hname Hsup)
    as (stem & Hstem & Hi & _ & Ho).
  unfold callOf, mirroredPaths. simpl.
  rewrite foldl_join2 by assumption.
  rewrite Hi, Ho, (stemOf_spec stem name Hstem). reflexivity.
Qed.

End MirroredCalls.

(** Every call of [convertFile] in the walk [main] starts is for an entry
    [to-be-converted/dirs/stem.ext] of the tree, with the output
    [converted/dirs/stem.webp]. *)
Lemma calls_are_mirrored (cwd : list string) (root : node) :
  goodNames cwd -> goodNames (namesIn root) ->
  exists t s,
    walk cwd root tt = (t, tt, Ok s) /\
    forall inputPath outputPath r,
      In (ConvertFileReturns inputPath outputPath r) t ->
      mirrors cwd inputPath outputPath.
Proof.
  intros Hcwd Hroot.
  destruct (walk_ind cwd CONVERTED_DIR (fun name => goodName name = true)
              (fun dir t _ =>
                 forall dirs, goodNames dirs ->
                   dir = JsString.join (TO_BE_CONVERTED_DIR :: dirs) ->
                   forall inputPath outputPath r,
                     In (ConvertFileReturns inputPath outputPath r) t ->
                     mirrors cwd inputPath outputPath))
    with (n := root) (inputDir := TO_BE_CONVERTED_DIR) as (t & s & Heq & Hinv).
  + intros dir dirs _ _ inputPath outputPath r [].
  + intros dir message dirs _ _ inputPath outputPath r [Hin|[]]. discriminate.
  + intros dir name t s tsub ssub Hname Ht Hsub dirs Hdirs -> inputPath outputPath r Hin.
    rewrite !in_app_iff in Hin. destruct Hin as [Hin|[Hin|[Hin|[]]]].
    * eapply Ht; eauto.
    * eapply (Hsub (dirs ++ [name])%list); eauto.
      -- apply goodNames_app; [assumption | constructor; [assumption | constructor]].
      -- unfold inputPathOf. change name with (JsString.join [name]) at 1.
         change (TO_BE_CONVERTED_DIR :: dirs ++ [name])%list
           with ((TO_BE_CONVERTED_DIR :: dirs) ++ [name])%list.
         apply join2_join; try discriminate.
         ++ constructor; [reflexivity | assumption].
         ++ constructor; [assumption | constructor].
    * discriminate.
  + intros dir name env t s tc r Hname Hext Ht Hconv dirs Hdirs ->
      inputPath outputPath r' Hin.
    rewrite in_app_iff in Hin. destruct Hin as [Hin|Hin]; [eapply Ht; eauto|].
    apply convertFile_trace in Hconv as (t' & -> & Hout).
    rewrite in_app_iff in Hin. destruct Hin as [Hin|[Hin|[]]].
    * rewrite forallb_forall in Hout. apply Hout in Hin. discriminate.
    * injection Hin as <- <- _.
      destruct (outputPathOf_mirror cwd dirs name Hcwd Hdirs Hname Hext)
        as (stem & Hstem & Hi & Hr & Ho).
      exists dirs, name, stem.
      split; [exact Hstem|]. split; [exact Hext|]. split; [exact Hi|].
      split; [|exact Ho].
      rewrite <- Hr. f_equal. exact Hi.
  + exact Hroot.
  + exists (t ++ [ProcessDirectoryReturns TO_BE_CONVERTED_DIR s])%list, s.
    split; [exact Heq|]. intros inputPath outputPath r Hin.
    rewrite in_app_iff in Hin. destruct Hin as [Hin|[Hin|[]]]; [|discriminate].
    apply (Hinv []) with (r := r); [constructor | reflexivity | exact Hin].
Qed.

Lemma walk_mirrored (cwd : list string) (root : node) :
  goodNames cwd -> goodNames (namesIn root) ->
  exists t s,
    walk cwd root tt = (t, tt, Ok s) /\
    callsOf t = map mirroredPaths (supportedFiles root) /\
    (forall inputPath outputPath,
       In (inputPath, outputPath) (callsOf t) ->
       outputPath =
         JsString.replaceExtension
           (Path.join2 CONVERTED_DIR
              (Path.relative cwd TO_BE_CONVERTED_DIR inputPath)) ".webp") /\
    (forall inputPath outputPath r,
       In (ConvertFileReturns inputPath outputPath r) t ->
       mirrors cwd inputPath outputPath).
Proof.
  intros Hcwd Hroot.
  destruct (calls_are_mirrored cwd root Hcwd Hroot) as (t & s & Heq & Hmirrors).
  destruct (walk_calls cwd root TO_BE_CONVERTED_DIR CONVERTED_DIR)
    as (t' & s' & Heq' & Hcalls).
  unfold walk in Heq. rewrite Heq' in Heq. injection Heq as <- <-.
  eexists _, s'. split; [exact Heq'|].
  rewrite callsOf_app, Hcalls. simpl. rewrite app_nil_r.
  split; [|split; [|exact Hmirrors]].
  - apply map_ext_in. intros f Hin.
    pose proof (supportedFiles_names (fun name => goodName name = true) root Hroot) as Hgood.
    rewrite List.Forall_forall in Hgood. destruct (Hgood f Hin) as (Hd & Hn & Hs).
    apply callOf_mirroredPaths; assumption.
  - intros inputPath outputPath Hin. apply in_map_iff in Hin as (f & Hf & _).
    unfold callOf in Hf. injection Hf as <- <-. reflexivity.
Qed.

(** C3.  In the walk [main] starts, every supported file of the tree is
    handed to [convertFile], once and in the order of the listings, and the
    file [dirs/stem.ext] below [to-be-converted] is handed over with the
    output path [converted/dirs/stem.webp]: the output root joined with the
    input path relative to the input root, the extension replaced.  No
    other call is made.  In particular the walk over
    [to-be-converted/a/b/img.png] makes the one call with the output
    [converted/a/b/img.webp].  (Entry names are names as [readdir] reports
    them and the working directory is a normalized absolute path.) *)
Theorem output_path_mirrors_input_path :
  forall (cwd : list string) (root : node),
    goodNames cwd ->
    goodNames (namesIn root) ->
    (exists t s,
       walk cwd root tt = (t, tt, Ok s) /\
       callsOf t = map mirroredPaths (supportedFiles root) /\
       (forall inputPath outputPath,
          In (inputPath, outputPath) (callsOf t) ->
          outputPath =
            JsString.replaceExtension
              (Path.join2 CONVERTED_DIR
                 (Path.relative cwd TO_BE_CONVERTED_DIR inputPath)) ".webp") /\
       (forall inputPath outputPath r,
          In (ConvertFileReturns inputPath outputPath r) t ->
          mirrors cwd inputPath outputPath)) /\
    (forall env : fileEnv,
       exists t s,
         walk cwd (Dir [("a", Dir [("b", Dir [("img.png", File env)])])]) tt =
           (t, tt, Ok s) /\
         callsOf t = [("to-be-converted/a/b/img.png", "converted/a/b/img.webp")]).
Proof.
  intros cwd root Hcwd Hroot. split; [apply walk_mirrored; assumption|].
  intros env.
  destruct (walk_mirrored cwd (Dir [("a", Dir [("b", Dir [("img.png", File env)])])]) Hcwd)
    as (t & s & Heq & Hcalls & _).
  - repeat constructor.
  - exists t, s. split; [exact Heq | exact Hcalls].
Qed.

Lemma output_path_mirrors_input_path_witness :
  goodNames sampleCwd /\ goodNames (namesIn nestedTree) /\
  ((exists t s,
      walk sampleCwd nestedTree tt = (t, tt, Ok s) /\
      callsOf t = map mirroredPaths (supportedFiles nestedTree) /\
      (forall inputPath outputPath,
         In (inputPath, outputPath) (callsOf t) ->
         outputPath =
           JsString.replaceExtension
             (Path.join2 CONVERTED_DIR
                (Path.relative sampleCwd TO_BE_CONVERTED_DIR inputPath)) ".webp") /\
      (forall inputPath outputPath r,
         In (ConvertFileReturns inputPath outputPath r) t ->
         mirrors sampleCwd inputPath outputPath)) /\
   (forall env : fileEnv,
      exists t s,
        walk sampleCwd (Dir [("a", Dir [("b", Dir [("img.png", File env)])])]) tt =
          (t, tt, Ok s) /\
        callsOf t = [("to-be-converted/a/b/img.png", "converted/a/b/img.webp")])).
Proof.
  assert (H1 : goodNames sampleCwd) by (repeat constructor).
  assert (H2 : goodNames (namesIn nestedTree)) by (repeat constructor).
  split; [exact H1|]. split; [exact H2|].
  exact (output_path_mirrors_input_path sampleCwd nestedTree H1 H2).
Defined.

(** The walk over [to-be-converted/a/b/img.png], run. *)
Example nested_file_is_mirrored :
  In (ConvertFileReturns "to-be-converted/a/b/img.png" "converted/a/b/img.webp"
        (Some {| success := true; originalSize := 12; newSize := 7 |}))
     (walk sampleCwd nestedTree tt).1.1.
Proof. vm_compute. tauto. Qed.

(** ** The theorems at concrete inputs *)

Lemma animated_gif_routing_witness :
  has SUPPORTED_FORMATS (extensionOf "to-be-converted/anim.gif") = true /\
  throws (statInput twoFrameGif) = false /\
  throws (accessOutputDir twoFrameGif) && throws (mkdirOutputDir twoFrameGif) = false /\
  exists t r enc,
    convertFile twoFrameGif "to-be-converted/anim.gif" "converted/anim.webp" tt =
      (t, tt, Ok r) /\
    encodersOf t = [enc] /\
    In (Encode enc "to-be-converted/anim.gif" "converted/anim.webp") t /\
    isAnimationTranscoder enc =
      requiresAnimatedPath (extensionOf "to-be-converted/anim.gif")
        (metadataPages twoFrameGif).
Proof.
  split; [reflexivity|]. split; [reflexivity|]. split; [reflexivity|].
  apply (animated_gif_routing twoFrameGif
           "to-be-converted/anim.gif" "converted/anim.webp"); reflexivity.
Defined.

(** A GIF of two frames goes to gif2webp, a GIF of one frame to sharp. *)
Example two_frames_animated_one_frame_static :
  map isAnimationTranscoder
    (encodersOf (convertFile twoFrameGif "to-be-converted/anim.gif"
                   "converted/anim.webp" tt).1.1) = [true] /\
  map isAnimationTranscoder
    (encodersOf (convertFile stillGif "to-be-converted/still.gif"
                   "converted/still.webp" tt).1.1) = [false].
Proof. split; reflexivity. Qed.

Lemma one_failure_does_not_abort_the_directory_witness :
  goodName "bad.png" = true /\
  has SUPPORTED_FORMATS (extensionOf "bad.png") = true /\
  conversionFails corruptFile (extensionOf "bad.png") = true /\
  exists t s t' s',
    processDirectory sampleCwd
      (Dir ([("a.png", File plainFile)] ++ [("c.jpg", File plainFile)]))
      TO_BE_CONVERTED_DIR CONVERTED_DIR tt = (t, tt, Ok s) /\
    processDirectory sampleCwd (Dir threeFiles)
      TO_BE_CONVERTED_DIR CONVERTED_DIR tt = (t', tt, Ok s') /\
    failedConversions s' = (failedConversions s + 1)%N /\
    successfulConversions s' = successfulConversions s.
Proof.
  assert (H1 : goodName "bad.png" = true) by reflexivity.
  assert (H2 : has SUPPORTED_FORMATS (extensionOf "bad.png") = true) by reflexivity.
  assert (H3 : conversionFails corruptFile (extensionOf "bad.png") = true) by reflexivity.
  split; [exact H1|]. split; [exact H2|]. split; [exact H3|].
  pose proof (one_failure_does_not_abort_the_directory sampleCwd corruptFile "bad.png"
                [("a.png", File plainFile)] [("c.jpg", File plainFile)]
                TO_BE_CONVERTED_DIR CONVERTED_DIR H1 H2 H3) as H.
  cbv zeta in H.
  destruct H as (tf & message & tb & ta & s & _ & _ & H0 & Hw & Hf & _ & Hs & _).
  eexists _, s, _, _. split; [exact H0|]. split; [exact Hw|].
  split; [exact Hf | exact Hs].
Defined.

(** The directory of three files, run: two successes, one failure. *)
Example three_files_one_failure :
  match processDirectory sampleCwd (Dir threeFiles)
          TO_BE_CONVERTED_DIR CONVERTED_DIR tt with
  | (_, _, Ok s) =>
      totalFiles s = 3%N /\ successfulConversions s = 2%N /\
      failedConversions s = 1%N /\ totalOriginalSize s = 24%N /\
      totalNewSize s = 14%N /\
      formats s = {[ ".png" := 2%N; ".jpg" := 1%N ]}
  | _ => False
  end.
Proof. vm_compute. repeat split. Qed.

Lemma format_counts_add_up_to_totalFiles_witness :
  has SUPPORTED_FORMATS (extensionOf "bad.png") = true /\
  exists t s t' s',
    processDirectory sampleCwd
      (Dir ([("a.png", File plainFile)] ++ [("c.jpg", File plainFile)]))
      TO_BE_CONVERTED_DIR CONVERTED_DIR tt = (t, tt, Ok s) /\
    processDirectory sampleCwd
      (Dir ([("a.png", File plainFile)] ++
            ("bad.png", File corruptFile) :: [("c.jpg", File plainFile)]))
      TO_BE_CONVERTED_DIR CONVERTED_DIR tt = (t', tt, Ok s') /\
    totalFiles s' = (totalFiles s + 1)%N /\
    formats s' = bump (extensionOf "bad.png") 1 (formats s).
Proof.
  split; [reflexivity|].
  apply (proj2 (format_counts_add_up_to_totalFiles sampleCwd
                  TO_BE_CONVERTED_DIR CONVERTED_DIR)).
  reflexivity.
Defined.

(** A file of size zero is converted like any other; its line reads
    [NaN] where the percentage goes. *)
Example zero_size_file_prints_NaN :
  convertFile
    {| statInput := Ok 0%N; accessOutputDir := Ok tt; mkdirOutputDir := Ok tt;
       metadataPages := Ok None; gif2webpRun := Ok tt; sharpToFile := Ok tt;
       statOutput := Ok 0%N |}
    "to-be-converted/empty.bmp" "converted/empty.webp" tt =
  ([Encode (Sharp {| quality := 75; lossless := None; nearLossless := None;
                     effort := 6; smartSubsample := None |})
      "to-be-converted/empty.bmp" "converted/empty.webp";
    Console (ConvertedLine "empty.bmp" "0.00" "0.00" "NaN");
    ConvertFileReturns "to-be-converted/empty.bmp" "converted/empty.webp"
      (Some {| success := true; originalSize := 0; newSize := 0 |})],
   tt,
   Ok (Some {| success := true; originalSize := 0; newSize := 0 |})).
Proof. reflexivity. Qed.

(** ** The record of a directory, from the records of its entries *)

Section Records.

Variable cwd : list string.

Lemma recordOf_eq n inputDir outputDir :
  exists t,
    processDirectory cwd n inputDir outputDir tt =
      ((t ++ [ProcessDirectoryReturns inputDir (recordOf cwd n inputDir outputDir)])%list,
       tt, Ok (recordOf cwd n inputDir outputDir)).
Proof.
  destruct (processDirectory_returns cwd n inputDir outputDir) as (t & s & Heq).
  exists t. unfold recordOf. rewrite Heq. reflexivity.
Qed.

Lemma resultOf_eq env inputPath outputPath :
  exists t,
    convertFile env inputPath outputPath tt =
      ((t ++ [ConvertFileReturns inputPath outputPath (resultOf env inputPath outputPath)])%list,
       tt, Ok (resultOf env inputPath outputPath)) /\
    forallb isOutput t = true.
Proof.
  destruct (convertFile_returns env inputPath outputPath) as (t & r & Heq & Hout).
  exists t. unfold resultOf. rewrite Heq. split; [reflexivity | assumption].
Qed.

(** The loop body, run from the fresh record, leaves the entry's record. *)
Lemma entryStep_record inputDir outputDir entry :
  exists t,
    entryStep cwd (processDirectory cwd) inputDir outputDir entry emptyStats =
      (t, entryRecord cwd inputDir outputDir entry, Ok tt).
Proof.
  destruct entry as [name child]. unfold entryRecord. simpl.
  assert (Hdir : (exists es, child = Dir es) \/ (exists m, child = Unreadable m) ->
            exists t,
              entryStep cwd (processDirectory cwd) inputDir outputDir (name, child)
                emptyStats =
              (t, recordOf cwd child (inputPathOf inputDir name) outputDir, Ok tt)).
  { intros Hchild.
    destruct (recordOf_eq child (inputPathOf inputDir name) outputDir) as (t & Heq).
    exists (t ++ [ProcessDirectoryReturns (inputPathOf inputDir name)
                    (recordOf cwd child (inputPathOf inputDir name) outputDir)])%list.
    unfold inputPathOf in *.
    assert (Hstep : entryStep cwd (processDirectory cwd) inputDir outputDir (name, child) =
              bind (call (processDirectory cwd child (Path.join2 inputDir name) outputDir))
                   (fun subStats => modify (fun s => mergeStats s subStats)))
      by (destruct Hchild as [[es ->]|[m ->]]; reflexivity).
    rewrite Hstep. unfold bind, call, modify. rewrite Heq.
    rewrite mergeStats_empty_l, app_nil_r. reflexivity. }
  destruct child as [env|es|m|].
  - destruct (has SUPPORTED_FORMATS (extensionOf name)) eqn:Hext.
    + destruct (resultOf_eq env (inputPathOf inputDir name)
                  (outputPathOf cwd inputDir outputDir name)) as (t & Heq & _).
      eexists. rewrite (supported_step _ _ _ _ _ _ _ _ _ Hext Heq).
      rewrite mergeStats_empty_l. reflexivity.
    + exists []. unfold entryStep. simpl. unfold extensionOf in Hext. rewrite Hext.
      reflexivity.
  - apply Hdir. eauto.
  - apply Hdir. eauto.
  - exists []. reflexivity.
Qed.

Lemma recordOf_nil inputDir outputDir :
  recordOf cwd (Dir []) inputDir outputDir = emptyStats.
Proof. reflexivity. Qed.

Lemma recordOf_cons entry entries inputDir outputDir :
  recordOf cwd (Dir (entry :: entries)) inputDir outputDir =
  mergeStats (entryRecord cwd inputDir outputDir entry)
             (recordOf cwd (Dir entries) inputDir outputDir).
Proof.
  destruct (entryStep_record inputDir outputDir entry) as (te & Hentry).
  destruct (directory_with_entry cwd [] entry entries inputDir outputDir _ _ Hentry)
    as (tb & ta & s & H0 & H1).
  simpl app in H0, H1. unfold recordOf. rewrite H0, H1.
  apply mergeStats_comm.
Qed.

Lemma recordOf_app xs ys inputDir outputDir :
  recordOf cwd (Dir (xs ++ ys)) inputDir outputDir =
  mergeStats (recordOf cwd (Dir xs) inputDir outputDir)
             (recordOf cwd (Dir ys) inputDir outputDir).
Proof.
  induction xs as [|x xs IH]; simpl app.
  - rewrite recordOf_nil, mergeStats_empty_l. reflexivity.
  - rewrite !recordOf_cons, IH, mergeStats_assoc. reflexivity.
Qed.

End Records.

Section RecordTheorems.

Lemma totalFiles_entryRecord cwd inputDir outputDir entry :
  (forall i o, totalFiles (recordOf cwd entry.2 i o) = countSupported entry.2) ->
  totalFiles (entryRecord cwd inputDir outputDir entry) =
  match entry.2 with
  | File _ => if has SUPPORTED_FORMATS (extensionOf entry.1) then 1%N else 0%N
  | _ => countSupported entry.2
  end.
Proof.
  destruct entry as [name child]. unfold entryRecord. simpl. intros IH.
  destruct child as [env|es|m|]; try apply IH; try reflexivity.
  destruct (has SUPPORTED_FORMATS (extensionOf name)); [|reflexivity].
  destruct (resultOf _ _ _); reflexivity.
Qed.

Lemma totalFiles_recordOf cwd n :
  forall inputDir outputDir,
    totalFiles (recordOf cwd n inputDir outputDir) = countSupported n.
Proof.
  induction n as [env|entries IH|message|] using node_tree_ind;
    intros inputDir outputDir; try reflexivity.
  induction entries as [|entry entries IHentries]; [reflexivity|].
  inversion IH as [|? ? Hentry IH']; subst.
  rewrite recordOf_cons. simpl totalFiles.
  rewrite (totalFiles_entryRecord _ _ _ _ Hentry), (IHentries IH').
  reflexivity.
Qed.

(** [totalFiles] and the number of calls of [convertFile] are the number of
    supported files of the tree. *)
Lemma supported_files_counted :
  forall (cwd : list string) (n : node) (inputDir outputDir : string),
  exists t s,
    processDirectory cwd n inputDir outputDir tt = (t, tt, Ok s) /\
    totalFiles s = countSupported n /\
    N.of_nat (length (callsOf t)) = countSupported n.
Proof.
  intros cwd n inputDir outputDir.
  destruct (walk_ind cwd outputDir (fun _ => True)
              (fun _ t s => totalFiles s = N.of_nat (length (callsOf t))))
    with (n := n) (inputDir := inputDir) as (t & s & Heq & Hcalls).
  - reflexivity.
  - reflexivity.
  - intros dir name t s tsub ssub _ Ht Hsub.
    rewrite !callsOf_app, !length_app. simpl. rewrite Ht, Hsub. lia.
  - intros dir name env t s tc r _ _ Ht Hconv.
    apply convertFile_trace in Hconv as (t' & -> & Hout).
    rewrite !callsOf_app, !length_app, (callsOf_outputs _ Hout).
    destruct r; simpl; rewrite Ht; lia.
  - apply Forall_trivial.
  - assert (Hs : s = recordOf cwd n inputDir outputDir)
      by (unfold recordOf; rewrite Heq; reflexivity).
    eexists _, s. split; [exact Heq|].
    rewrite callsOf_app, length_app. simpl.
    rewrite <- (totalFiles_recordOf cwd n inputDir outputDir), <- Hs.
    split; [reflexivity | lia].
Qed.

(** X1.  [totalFiles] is the number of files with a supported extension in
    the directories of the tree that can be listed, and [convertFile] is
    called exactly once for each of them: the calls are, in the order of
    the listings, the calls for these files, each with the input and output
    path the loop computes for the file. *)
Theorem every_supported_file_is_counted_once :
  forall (cwd : list string) (n : node) (inputDir outputDir : string),
  exists t s,
    processDirectory cwd n inputDir outputDir tt = (t, tt, Ok s) /\
    totalFiles s = countSupported n /\
    N.of_nat (length (callsOf t)) = countSupported n /\
    callsOf t = map (callOf cwd inputDir outputDir) (supportedFiles n).
Proof.
  intros cwd n inputDir outputDir.
  destruct (supported_files_counted cwd n inputDir outputDir)
    as (t & s & Heq & Htotal & Hlen).
  destruct (walk_calls cwd n inputDir outputDir) as (t' & s' & Heq' & Hcalls).
  exists t, s. split; [exact Heq|]. split; [exact Htotal|]. split; [exact Hlen|].
  rewrite Heq' in Heq. injection Heq as <- <-.
  rewrite callsOf_app, Hcalls. simpl. apply app_nil_r.
Qed.

(** X2.  The order in which [readdir] lists the entries of a directory does
    not change the record returned for it. *)
Theorem listing_order_does_not_change_the_record :
  forall (cwd : list string) (xs ys : list (string * node))
         (inputDir outputDir : string),
    Permutation xs ys ->
    exists tx ty s,
      processDirectory cwd (Dir xs) inputDir outputDir tt = (tx, tt, Ok s) /\
      processDirectory cwd (Dir ys) inputDir outputDir tt = (ty, tt, Ok s).
Proof.
  intros cwd xs ys inputDir outputDir Hperm.
  assert (Hrec : recordOf cwd (Dir xs) inputDir outputDir =
                 recordOf cwd (Dir ys) inputDir outputDir).
  { induction Hperm as [|x xs ys _ IH|x y xs|xs ys zs _ IH1 _ IH2].
    - reflexivity.
    - rewrite !recordOf_cons, IH. reflexivity.
    - rewrite !recordOf_cons, <- !mergeStats_assoc.
      f_equal. apply mergeStats_comm.
    - congruence. }
  destruct (recordOf_eq cwd (Dir xs) inputDir outputDir) as (tx & Hx).
  destruct (recordOf_eq cwd (Dir ys) inputDir outputDir) as (ty & Hy).
  rewrite Hrec in Hx. eexists _, _, _. split; [exact Hx | exact Hy].
Qed.

(** X3.  A directory is walked entry after entry: the events of a listing
    [xs ++ ys] are those of [xs] followed by those of [ys], and its record
    is the merge of the two records. *)
Theorem a_listing_is_walked_part_after_part :
  forall (cwd : list string) (xs ys : list (string * node))
         (inputDir outputDir : string),
  exists tx ty sx sy,
    processDirectory cwd (Dir xs) inputDir outputDir tt =
      ((tx ++ [ProcessDirectoryReturns inputDir sx])%list, tt, Ok sx) /\
    processDirectory cwd (Dir ys) inputDir outputDir tt =
      ((ty ++ [ProcessDirectoryReturns inputDir sy])%list, tt, Ok sy) /\
    processDirectory cwd (Dir (xs ++ ys)) inputDir outputDir tt =
      ((tx ++ ty ++ [ProcessDirectoryReturns inputDir (mergeStats sx sy)])%list,
       tt, Ok (mergeStats sx sy)).
Proof.
  intros cwd xs ys inputDir outputDir.
  destruct (loop_merge cwd inputDir outputDir xs) as (tx & dx & Hx).
  destruct (loop_merge cwd inputDir outputDir ys) as (ty & dy & Hy).
  exists tx, ty, (mergeStats emptyStats dx), (mergeStats emptyStats dy).
  rewrite !processDirectory_Dir. unfold tryCatch.
  rewrite forOf_app.
  - rewrite !Hx, !Hy. repeat split.
    rewrite (mergeStats_empty_l dy), <- app_assoc. reflexivity.
  - intros x s0 _.
    destruct (entryStep_merge cwd inputDir outputDir x) as (t & d & Hstep).
    eexists _, _. apply Hstep.
Qed.

(** X4.  A directory that cannot be listed is reported by one error line and
    adds nothing: called on it, [processDirectory] returns the fresh record;
    as an entry of a directory it leaves the record of that directory as it
    is without the entry, and the entries after it are still walked. *)
Theorem an_unreadable_directory_is_reported_and_skipped :
  forall (cwd : list string) (message : string) (inputDir outputDir : string),
    processDirectory cwd (Unreadable message) inputDir outputDir tt =
      ([Console (ErrorProcessing inputDir message);
        ProcessDirectoryReturns inputDir emptyStats], tt, Ok emptyStats) /\
    forall name before after,
    exists tb ta s,
      processDirectory cwd (Dir (before ++ after)) inputDir outputDir tt =
        ((tb ++ ta ++ [ProcessDirectoryReturns inputDir s])%list, tt, Ok s) /\
      processDirectory cwd (Dir (before ++ (name, Unreadable message) :: after))
        inputDir outputDir tt =
        ((tb ++
          [Console (ErrorProcessing (inputPathOf inputDir name) message);
           ProcessDirectoryReturns (inputPathOf inputDir name) emptyStats] ++
          ta ++ [ProcessDirectoryReturns inputDir s])%list, tt, Ok s).
Proof.
  intros cwd message inputDir outputDir. split; [reflexivity|].
  intros name before after.
  destruct (directory_with_entry cwd before (name, Unreadable message) after
              inputDir outputDir
              [Console (ErrorProcessing (inputPathOf inputDir name) message);
               ProcessDirectoryReturns (inputPathOf inputDir name) emptyStats]
              emptyStats) as (tb & ta & s & H0 & H1).
  - reflexivity.
  - rewrite mergeStats_empty_r in H1. exists tb, ta, s. split; assumption.
Qed.

Lemma supported_NoDup : NoDup SUPPORTED_FORMATS.
Proof. apply (bool_decide_unpack _). vm_compute. reflexivity. Qed.

(** X5.  Every key of [formats] in a returned record is one of the eight
    supported extensions, in lower case, and its count is at least one; so
    the object never has more than eight keys. *)
Theorem formats_keys_are_supported_extensions :
  forall (cwd : list string) (n : node) (inputDir outputDir : string),
  exists t s,
    processDirectory cwd n inputDir outputDir tt = (t, tt, Ok s) /\
    (forall key count,
       formats s !! key = Some count ->
       In key SUPPORTED_FORMATS /\ (1 <= count)%N) /\
    size (formats s) <= 8.
Proof.
  intros cwd n inputDir outputDir.
  destruct (walk_ind cwd outputDir (fun _ => True)
              (fun _ _ s => forall key count,
                 formats s !! key = Some count ->
                 In key SUPPORTED_FORMATS /\ (1 <= count)%N))
    with (n := n) (inputDir := inputDir) as (t & s & Heq & Hkeys).
  - intros _ key count Hlook.
    change (formats emptyStats) with (∅ : gmap string N) in Hlook.
    rewrite lookup_empty in Hlook. discriminate.
  - intros _ _ key count Hlook.
    change (formats emptyStats) with (∅ : gmap string N) in Hlook.
    rewrite lookup_empty in Hlook. discriminate.
  - intros dir name t s tsub ssub _ Hs Hsub key count.
    rewrite formats_mergeStats, lookup_union_with.
    destruct (formats s !! key) as [a|] eqn:Ha, (formats ssub !! key) as [b|] eqn:Hb;
      simpl; intros [= <-].
    + destruct (Hs _ _ Ha), (Hsub _ _ Hb). unfold addCounts. split; [assumption | lia].
    + exact (Hs _ _ Ha).
    + exact (Hsub _ _ Hb).
  - intros dir name env t s tc r _ Hext Hs _ key count.
    rewrite formats_mergeStats, lookup_union_with.
    assert (Hfile : formats (fileStats (extensionOf name) r) !! key =
                    if decide (extensionOf name = key) then Some 1%N else None).
    { destruct r; simpl; rewrite bump_lookup, lookup_empty; reflexivity. }
    rewrite Hfile.
    assert (Hin : In (extensionOf name) SUPPORTED_FORMATS).
    { unfold has in Hext. apply existsb_exists in Hext as (x & Hx & Heqb).
      apply String.eqb_eq in Heqb. subst x. exact Hx. }
    destruct (formats s !! key) as [a|] eqn:Ha;
      destruct (decide (extensionOf name = key)) as [<-|Hne]; simpl; intros [= <-].
    + destruct (Hs _ _ Ha). split; [assumption | lia].
    + exact (Hs _ _ Ha).
    + split; [assumption | lia].
  - apply Forall_trivial.
  - eexists _, s. split; [exact Heq|]. split; [exact Hkeys|].
    assert (Hdom : dom (formats s) ⊆ (list_to_set SUPPORTED_FORMATS : gset string)).
    { intros key [count Hlook]%elem_of_dom.
      apply elem_of_list_to_set, list_elem_of_In. apply (Hkeys _ _ Hlook). }
    apply subseteq_size in Hdom. rewrite size_dom in Hdom.
    rewrite size_list_to_set in Hdom by apply supported_NoDup. exact Hdom.
Qed.

End RecordTheorems.

(** ** More about [convertFile] *)

(** X6.  For a supported path [convertFile] returns [null] exactly when a
    step fails; the object it returns otherwise has [success] set and holds
    the size read from the input before the conversion and the size read
    from the output after it. *)
Theorem convertFile_returns_the_sizes_unless_a_step_fails :
  forall (env : fileEnv) (inputPath outputPath : string),
    has SUPPORTED_FORMATS (extensionOf inputPath) = true ->
    exists t r,
      convertFile env inputPath outputPath tt = (t, tt, Ok r) /\
      (r = None <-> conversionFails env (extensionOf inputPath) = true) /\
      (forall out, r = Some out ->
         success out = true /\
         statInput env = Ok (originalSize out) /\
         statOutput env = Ok (newSize out)).
Proof.
  intros env inputPath outputPath Hext.
  destruct (conversionFails env (extensionOf inputPath)) eqn:Hfail.
  - destruct (convertFile_fails env inputPath outputPath Hext Hfail)
      as (tf & message & Heq & _).
    eexists _, None. split; [exact Heq|]. split; [tauto|]. discriminate.
  - destruct (convertFile_succeeds env inputPath outputPath Hext Hfail)
      as (t & original & new & Hin & Hout & Heq).
    eexists _, _. split; [exact Heq|]. split.
    + split; discriminate.
    + intros out [= <-]. simpl. auto.
Qed.

(** X7.  [convertFile] invokes at most one encoder, and none at all exactly
    when the extension is not supported, the input size cannot be read, or
    the output directory can neither be accessed nor created: nothing is
    encoded before the input was read and the output directory ensured. *)
Theorem no_encoder_before_the_input_is_read :
  forall (env : fileEnv) (inputPath outputPath : string),
    length (encodersOf (convertEvents env inputPath outputPath)) <= 1 /\
    (encodersOf (convertEvents env inputPath outputPath) = [] <->
     has SUPPORTED_FORMATS (extensionOf inputPath) = false \/
     throws (statInput env) = true \/
     throws (accessOutputDir env) && throws (mkdirOutputDir env) = true).
Proof.
  intros env inputPath outputPath. unfold convertEvents, extensionOf. run_eff.
  generalize (JsString.toLowerCase (Path.extname inputPath)). intros ext.
  destruct (has SUPPORTED_FORMATS ext); simpl; [|split; [lia | tauto]].
  destruct (String.eqb ext ".gif");
    destruct env as [[o|?] [[]|?] [[]|?] [[pages|]|?] [[]|?] [[]|?] [n|?]];
    simpl;
    repeat match goal with |- context [if ?b then _ else _] => destruct b; simpl end;
    (split; [lia|]);
    (split; [ intros H; first [discriminate H | auto]
            | intros [H|[H|H]]; first [reflexivity | discriminate H] ]).
Qed.

(** X8.  The output directory is created only when it is missing.  When
    [fs.access] succeeds, what [fs.mkdir] would answer plays no part; when
    it fails and [fs.mkdir] succeeds, the conversion goes on as if the
    directory had been there; when both fail, the conversion fails with the
    message of [fs.mkdir], before any encoder runs. *)
Theorem the_output_directory_is_created_when_missing :
  forall (inputPath outputPath : string),
    (forall env r,
       accessOutputDir env = Ok tt ->
       convertFile (withMkdir r env) inputPath outputPath tt =
       convertFile env inputPath outputPath tt) /\
    (forall env message,
       accessOutputDir env = Throw message ->
       mkdirOutputDir env = Ok tt ->
       convertFile env inputPath outputPath tt =
       convertFile (withAccess (Ok tt) env) inputPath outputPath tt) /\
    (forall env size accessMessage mkdirMessage,
       has SUPPORTED_FORMATS (extensionOf inputPath) = true ->
       statInput env = Ok size ->
       accessOutputDir env = Throw accessMessage ->
       mkdirOutputDir env = Throw mkdirMessage ->
       convertFile env inputPath outputPath tt =
         ([Console (ErrorConverting (Path.basename inputPath) mkdirMessage);
           ConvertFileReturns inputPath outputPath None], tt, Ok None)).
Proof.
  intros inputPath outputPath. split; [|split].
  - intros env r Haccess. destruct env; simpl in *. subst. reflexivity.
  - intros env message Haccess Hmkdir. destruct env; simpl in *. subst. reflexivity.
  - intros env size m1 m2 Hext Hstat Haccess Hmkdir.
    unfold extensionOf in Hext. destruct env; simpl in *. subst.
    run_eff. rewrite Hext. reflexivity.
Qed.

(** X9.  Whenever [convertFile] invokes sharp, it is on the two paths of
    the call, with effort 6, and with options chosen by the lower-cased
    extension: quality 80 for [.jpg] and [.jpeg] and 75 otherwise,
    near-lossless (and not lossless) for [.png] only, smart subsampling
    for [.png], [.jpg] and [.jpeg] only. *)
Theorem sharp_options_follow_the_extension :
  forall (env : fileEnv) (inputPath outputPath : string)
         (options : webpOptions) (a b : string),
    In (Encode (Sharp options) a b) (convertEvents env inputPath outputPath) ->
    let ext := extensionOf inputPath in
    let jpeg := String.eqb ext ".jpg" || String.eqb ext ".jpeg" in
    let png := String.eqb ext ".png" in
    a = inputPath /\ b = outputPath /\
    effort options = 6%N /\
    quality options = (if jpeg then 80 else 75)%N /\
    nearLossless options = (if png then Some true else None) /\
    lossless options = (if png then Some false else None) /\
    smartSubsample options = (if png || jpeg then Some true else None).
Proof.
  intros env inputPath outputPath options a b.
  unfold convertEvents, extensionOf. run_eff.
  generalize (JsString.toLowerCase (Path.extname inputPath)). intros ext.
  destruct (has SUPPORTED_FORMATS ext); simpl;
    [| intros [H|[H|[]]]; discriminate H ].
  destruct (String.eqb_spec ext ".gif") as [->|_];
    [| destruct (String.eqb_spec ext ".png") as [->|_] ];
    destruct env as [[o|?] [[]|?] [[]|?] [[pages|]|?] [[]|?] [[]|?] [n|?]];
    simpl;
    repeat match goal with |- context [if ?c then _ else _] => destruct c eqn:?; simpl end;
    intros Hin;
    repeat (destruct Hin as [Hin|Hin]; [try discriminate Hin|]);
    try contradiction;
    injection Hin as <- <- <-; cbv zeta; simpl; repeat split; reflexivity.
Qed.

(** X10.  gif2webp is never run on anything but a GIF the probe found
    animated (or could not read): whenever [convertFile] invokes it, the
    lower-cased extension is [.gif], and the command line is the input
    path, the fixed options, and the output path after [-o]. *)
Theorem gif2webp_runs_only_on_animated_gifs :
  forall (env : fileEnv) (inputPath outputPath : string)
         (args : list string) (a b : string),
    In (Encode (Gif2webp args) a b) (convertEvents env inputPath outputPath) ->
    extensionOf inputPath = ".gif" /\
    requiresAnimatedPath (extensionOf inputPath) (metadataPages env) = true /\
    a = inputPath /\ b = outputPath /\
    args = [inputPath; "-q"; "75"; "-m"; "6"; "-min_size"; "-mt"; "-o"; outputPath].
Proof.
  intros env inputPath outputPath args a b.
  unfold convertEvents, extensionOf, requiresAnimatedPath. run_eff.
  generalize (JsString.toLowerCase (Path.extname inputPath)). intros ext.
  destruct (has SUPPORTED_FORMATS ext); simpl;
    [| intros [H|[H|[]]]; discriminate H ].
  destruct (String.eqb_spec ext ".gif") as [->|_];
    destruct env as [[o|?] [[]|?] [[]|?] [[pages|]|?] [[]|?] [[]|?] [n|?]];
    simpl; try rewrite pages_test;
    repeat match goal with |- context [if ?c then _ else _] => destruct c eqn:?; simpl end;
    intros Hin;
    repeat (destruct Hin as [Hin|Hin]; [try discriminate Hin|]);
    try contradiction;
    injection Hin as <- <- <-; repeat split; reflexivity.
Qed.

(** ** The figures of the report *)


(** ** The sizes on the console *)

(** [(size / 1024 / 1024).toFixed(2)] rounds the size over 2^20. *)
Lemma megabytes_rounding (size : N) :
  megabytes size =
  JsNumber.fixed2 (Z.of_N size # 1048576).
Proof.
  unfold megabytes, JsNumber.divide, JsNumber.over, JsNumber.toFixed2.
  unfold JsNumber.fixed2. simpl. rewrite !Z.mul_1_r. reflexivity.
Qed.

(** X12.  The sizes on the console are megabytes with two decimals: a file
    of fewer than 5243 bytes reads 0.00, and one of 5243 to 15728 bytes
    reads 0.01. *)
Theorem small_files_show_as_zero_megabytes :
  (forall size : N, (size < 5243)%N -> megabytes size = "0.00") /\
  (forall size : N, (5243 <= size < 15729)%N -> megabytes size = "0.01").
Proof.
  split; intros size Hsize; rewrite megabytes_rounding; unfold JsNumber.fixed2; simpl.
  - assert (Hq : ((200 * Z.abs (Z.of_N size) + 1048576) / (2 * 1048576) = 0)%Z)
      by (apply Z.div_small; lia).
    rewrite Hq. destruct (Z.ltb_spec (Z.of_N size) 0); [lia | reflexivity].
  - assert (Hq : ((200 * Z.abs (Z.of_N size) + 1048576) / (2 * 1048576) = 1)%Z)
      by (symmetry; apply Z.div_unique with (r := (200 * Z.of_N size - 1048576)%Z); lia).
    rewrite Hq. destruct (Z.ltb_spec (Z.of_N size) 0); [lia | reflexivity].
Qed.

(** ** Output paths *)

Section OutputPaths.
Import JsString.

#[local] Arguments String.append !s1 s2 : simpl nomatch.

(** The output path of an entry [stem.ext] below the root, whatever the
    extension. *)
Lemma outputPathOf_stem cwd dirs stem ext :
  goodNames cwd -> goodNames dirs -> goodName (stem ++ ext) = true ->
  dotted ext = true ->
  outputPathOf cwd (join (TO_BE_CONVERTED_DIR :: dirs)) CONVERTED_DIR (stem ++ ext) =
    join (CONVERTED_DIR :: dirs ++ [stem ++ ".webp"]).
Proof.
  intros Hcwd Hdirs Hname Hext.
  apply dotted_inv in Hext as (e & -> & He1 & He2).
  set (name := stem ++ String "." e) in *.
  assert (Hrel : goodNames (dirs ++ [name]))
    by (apply goodNames_app; [assumption | constructor; [assumption | constructor]]).
  unfold outputPathOf.
  change name with (join [name]) at 1.
  rewrite join2_join; try discriminate;
    [| constructor; [reflexivity | assumption]
     | constructor; [assumption | constructor] ].
  change ((TO_BE_CONVERTED_DIR :: dirs) ++ [name])%list
    with (TO_BE_CONVERTED_DIR :: (dirs ++ [name]))%list.
  rewrite relative_below; try assumption; try reflexivity;
    [| destruct dirs; discriminate ].
  change CONVERTED_DIR with (join [CONVERTED_DIR]) at 1.
  rewrite join2_join; try assumption; try discriminate;
    [| destruct dirs; discriminate | constructor; [reflexivity | constructor] ].
  change ([CONVERTED_DIR] ++ dirs ++ [name])%list
    with ((CONVERTED_DIR :: dirs) ++ [name])%list.
  change (CONVERTED_DIR :: dirs ++ [(stem ++ ".webp")%string])%list
    with ((CONVERTED_DIR :: dirs) ++ [(stem ++ ".webp")%string])%list.
  rewrite !join_app by discriminate. simpl (join [_]). unfold name.
  rewrite <- !append_assoc. rewrite replaceExtension_append by assumption.
  reflexivity.
Qed.

(** X13.  The output path forgets the extension of the input: two entries
    of one directory that differ only in their extensions, such as
    [img.png] and [img.jpg], are given the same output path
    [converted/.../img.webp], so the later conversion overwrites the
    earlier one. *)
Theorem entries_with_one_stem_share_the_output_path :
  forall (cwd dirs : list string) (stem ext1 ext2 : string),
    goodNames cwd -> goodNames dirs ->
    goodName (stem ++ ext1) = true -> goodName (stem ++ ext2) = true ->
    dotted ext1 = true -> dotted ext2 = true ->
    let inputDir := join (TO_BE_CONVERTED_DIR :: dirs) in
    outputPathOf cwd inputDir CONVERTED_DIR (stem ++ ext1) =
      join (CONVERTED_DIR :: dirs ++ [stem ++ ".webp"]) /\
    outputPathOf cwd inputDir CONVERTED_DIR (stem ++ ext2) =
      outputPathOf cwd inputDir CONVERTED_DIR (stem ++ ext1).
Proof.
  intros cwd dirs stem ext1 ext2 Hcwd Hdirs H1 H2 He1 He2 inputDir. unfold inputDir.
  rewrite !outputPathOf_stem by assumption. split; reflexivity.
Qed.

End OutputPaths.

(** In a call of [convertFile] the encoders get the paths of the call. *)
Lemma convertFile_encode_paths env inputPath outputPath enc a b :
  In (Encode enc a b) (convertFile env inputPath outputPath tt).1.1 ->
  a = inputPath /\ b = outputPath.
Proof.
  run_eff.
  generalize (JsString.toLowerCase (Path.extname inputPath)). intros ext.
  destruct (has SUPPORTED_FORMATS ext); simpl;
    [| intros [H|[H|[]]]; discriminate H ].
  destruct (String.eqb ext ".gif");
    destruct env as [[o|?] [[]|?] [[]|?] [[pages|]|?] [[]|?] [[]|?] [n|?]];
    simpl;
    repeat match goal with |- context [if ?c then _ else _] => destruct c; simpl end;
    intros Hin;
    repeat (destruct Hin as [Hin|Hin]; [try discriminate Hin|]);
    try contradiction;
    injection Hin as _ <- <-; split; reflexivity.
Qed.

Lemma join_root_starts (root : string) (c : ascii) (r : string) (segs : list string) :
  root = String c r -> exists x, JsString.join (root :: segs) = String c x.
Proof.
  intros ->. destruct segs as [|s segs]; [exists r; reflexivity|].
  eexists. reflexivity.
Qed.

(** X14.  In the walk [main] starts, every encoder invocation reads a file
    below [to-be-converted] and writes the mirrored path below [converted]
    with the extension [.webp]; it never writes the file it reads. *)
Theorem encoders_write_below_converted_only :
  forall (cwd : list string) (root : node),
    goodNames cwd ->
    goodNames (namesIn root) ->
    exists t s,
      walk cwd root tt = (t, tt, Ok s) /\
      forall enc inputPath outputPath,
        In (Encode enc inputPath outputPath) t ->
        mirrors cwd inputPath outputPath /\ inputPath <> outputPath.
Proof.
  intros cwd root Hcwd Hroot.
  assert (Hdiff : forall a b, mirrors cwd a b -> a <> b).
  { intros a b (dirs & name & stem & _ & _ & -> & _ & ->) Heq.
    destruct (join_root_starts TO_BE_CONVERTED_DIR "t" "o-be-converted"
                (dirs ++ [name]) eq_refl) as (x & Hx).
    destruct (join_root_starts CONVERTED_DIR "c" "onverted"
                (dirs ++ [(stem ++ ".webp")%string]) eq_refl) as (y & Hy).
    rewrite Hx, Hy in Heq. discriminate Heq. }
  destruct (walk_ind cwd CONVERTED_DIR (fun name => goodName name = true)
              (fun dir t _ =>
                 forall dirs, goodNames dirs ->
                   dir = JsString.join (TO_BE_CONVERTED_DIR :: dirs) ->
                   forall enc inputPath outputPath,
                     In (Encode enc inputPath outputPath) t ->
                     mirrors cwd inputPath outputPath))
    with (n := root) (inputDir := TO_BE_CONVERTED_DIR) as (t & s & Heq & Hinv).
  - intros dir dirs _ _ enc inputPath outputPath [].
  - intros dir message dirs _ _ enc inputPath outputPath [Hin|[]]. discriminate.
  - intros dir name t s tsub ssub Hname Ht Hsub dirs Hdirs -> enc inputPath outputPath Hin.
    rewrite !in_app_iff in Hin. destruct Hin as [Hin|[Hin|[Hin|[]]]].
    + eapply Ht; eauto.
    + eapply (Hsub (dirs ++ [name])%list); eauto.
      * apply goodNames_app; [assumption | constructor; [assumption | constructor]].
      * unfold inputPathOf. change name with (JsString.join [name]) at 1.
        change (TO_BE_CONVERTED_DIR :: dirs ++ [name])%list
          with ((TO_BE_CONVERTED_DIR :: dirs) ++ [name])%list.
        apply join2_join; try discriminate.
        -- constructor; [reflexivity | assumption].
        -- constructor; [assumption | constructor].
    + discriminate.
  - intros dir name env t s tc r Hname Hext Ht Hconv dirs Hdirs ->
      enc inputPath outputPath Hin.
    rewrite in_app_iff in Hin. destruct Hin as [Hin|Hin]; [eapply Ht; eauto|].
    pose proof (convertFile_encode_paths env
                  (inputPathOf (JsString.join (TO_BE_CONVERTED_DIR :: dirs)) name)
                  (outputPathOf cwd (JsString.join (TO_BE_CONVERTED_DIR :: dirs))
                     CONVERTED_DIR name) enc inputPath outputPath) as Hpaths.
    rewrite Hconv in Hpaths. destruct (Hpaths Hin) as [-> ->].
    destruct (outputPathOf_mirror cwd dirs name Hcwd Hdirs Hname Hext)
      as (stem & Hstem & Hi & Hr & Ho).
    exists dirs, name, stem.
    split; [exact Hstem|]. split; [exact Hext|]. split; [exact Hi|].
    split; [|exact Ho].
    rewrite <- Hr. f_equal. exact Hi.
  - exact Hroot.
  - exists (t ++ [ProcessDirectoryReturns TO_BE_CONVERTED_DIR s])%list, s.
    split; [exact Heq|]. intros enc inputPath outputPath Hin.
    rewrite in_app_iff in Hin. destruct Hin as [Hin|[Hin|[]]]; [|discriminate].
    assert (Hm : mirrors cwd inputPath outputPath)
      by (apply (Hinv []) with (enc := enc); [constructor | reflexivity | exact Hin]).
    split; [exact Hm | exact (Hdiff _ _ Hm)].
Qed.

(** ** Letter case *)

Section LetterCase.
Import JsString.

#[local] Arguments String.append !s1 s2 : simpl nomatch.

Lemma lowerChar_facts c :
  isSlash (lowerChar c) = isSlash c /\
  isDot (lowerChar c) = isDot c /\
  lowerChar (lowerChar c) = lowerChar c.
Proof. destruct c as [[] [] [] [] [] [] [] []]; repeat split; reflexivity. Qed.

Lemma toLowerCase_idempotent s : toLowerCase (toLowerCase s) = toLowerCase s.
Proof.
  induction s as [|c s IH]; simpl; [reflexivity|].
  rewrite IH, (proj2 (proj2 (lowerChar_facts c))). reflexivity.
Qed.

Lemma toLowerCase_rev_acc s acc :
  rev_acc (toLowerCase s) (toLowerCase acc) = toLowerCase (rev_acc s acc).
Proof.
  revert acc. induction s as [|c s IH]; intros acc; simpl; [reflexivity|].
  rewrite <- IH. reflexivity.
Qed.

Lemma toLowerCase_dropSlashes r :
  Path.dropSlashes (toLowerCase r) = toLowerCase (Path.dropSlashes r).
Proof.
  induction r as [|c r IH]; simpl; [reflexivity|].
  rewrite (proj1 (lowerChar_facts c)). destruct (isSlash c); [exact IH | reflexivity].
Qed.

Lemma toLowerCase_untilSlash r :
  Path.untilSlash (toLowerCase r) = toLowerCase (Path.untilSlash r).
Proof.
  induction r as [|c r IH]; simpl; [reflexivity|].
  rewrite (proj1 (lowerChar_facts c)). destruct (isSlash c); [reflexivity|].
  simpl. rewrite IH. reflexivity.
Qed.

Lemma toLowerCase_basenameRev p :
  Path.basenameRev (toLowerCase p) = toLowerCase (Path.basenameRev p).
Proof.
  unfold Path.basenameRev.
  change EmptyString with (toLowerCase EmptyString) at 1.
  rewrite toLowerCase_rev_acc, toLowerCase_dropSlashes, toLowerCase_untilSlash.
  reflexivity.
Qed.

Lemma toLowerCase_cutAtDot r acc :
  Path.cutAtDot (toLowerCase r) (toLowerCase acc) =
  match Path.cutAtDot r acc with
  | Some (ext, before) => Some (toLowerCase ext, toLowerCase before)
  | None => None
  end.
Proof.
  revert acc. induction r as [|c r IH]; intros acc; simpl; [reflexivity|].
  rewrite (proj1 (proj2 (lowerChar_facts c))).
  destruct (isDot c); [reflexivity|].
  rewrite <- IH. reflexivity.
Qed.

Lemma toLowerCase_is_dot s : String.eqb (toLowerCase s) "." = String.eqb s ".".
Proof.
  destruct s as [|c s]; [reflexivity|]. simpl.
  pose proof (proj1 (proj2 (lowerChar_facts c))) as Hdot. unfold isDot in Hdot.
  rewrite Hdot. destruct s; reflexivity.
Qed.

(** [path.extname] commutes with [toLowerCase]. *)
Lemma extname_toLowerCase p :
  Path.extname (toLowerCase p) = toLowerCase (Path.extname p).
Proof.
  unfold Path.extname. rewrite toLowerCase_basenameRev.
  change EmptyString with (toLowerCase EmptyString) at 1.
  rewrite toLowerCase_cutAtDot.
  destruct (Path.cutAtDot (Path.basenameRev p) "") as [[ext before]|]; [|reflexivity].
  destruct before as [|c before]; [reflexivity|].
  change (toLowerCase (String c before))
    with (String (lowerChar c) (toLowerCase before)) at 1.
  cbv iota beta.
  change (String (lowerChar c) (toLowerCase before))
    with (toLowerCase (String c before)).
  rewrite !toLowerCase_is_dot.
  destruct (String.eqb (String c before) "." && String.eqb ext "."); reflexivity.
Qed.

(** X15.  The extension is matched without regard to letter case: two paths
    with the same lower-casing (paths that differ only in the case of their
    letters) have the same lower-cased extension, so they are supported or
    not together, routed alike and counted under the same key.  The paths
    are strings of code units below 256, where lower-casing acts on each
    code unit by itself; the context-dependent lower-casing of other
    alphabets (the final sigma of Greek) is outside the model. *)
Theorem the_extension_is_matched_without_regard_to_case :
  forall p q : string,
    toLowerCase p = toLowerCase q ->
    extensionOf p = extensionOf q /\
    has SUPPORTED_FORMATS (extensionOf p) = has SUPPORTED_FORMATS (extensionOf q).
Proof.
  intros p q Hpq.
  assert (Hext : extensionOf p = extensionOf q).
  { unfold extensionOf.
    rewrite <- (toLowerCase_idempotent (Path.extname p)),
            <- (toLowerCase_idempotent (Path.extname q)).
    rewrite <- !extname_toLowerCase, Hpq. reflexivity. }
  split; [exact Hext | rewrite Hext; reflexivity].
Qed.

End LetterCase.

(** ** The run *)

Lemma ensureDir_ensureDirAt {S} (env : fileEnv) :
  @ensureDir S env = ensureDirAt (accessOutputDir env) (mkdirOutputDir env).
Proof. reflexivity. Qed.

Lemma recordOf_balanced cwd n inputDir outputDir :
  balanced (recordOf cwd n inputDir outputDir).
Proof.
  destruct (walk_ind cwd outputDir (fun _ => True) (fun _ _ s => balanced s))
    with (n := n) (inputDir := inputDir) as (t & s & Heq & Hs).
  - reflexivity.
  - reflexivity.
  - intros dir name t s tsub ssub _ Hs Hsub. unfold balanced in *. simpl. lia.
  - intros dir name env t s tc r _ _ Hs _. unfold balanced in *.
    destruct r; simpl; lia.
  - apply Forall_trivial.
  - unfold recordOf. rewrite Heq. exact Hs.
Qed.

Lemma recordOf_nothing_supported cwd n :
  countSupported n = 0%N ->
  forall inputDir outputDir, recordOf cwd n inputDir outputDir = emptyStats.
Proof.
  induction n as [env|entries IH|message|] using node_tree_ind;
    intros Hcount inputDir outputDir; try reflexivity.
  induction entries as [|[name child] entries IHentries]; [reflexivity|].
  inversion IH as [|? ? Hchild IH']; subst. simpl in Hchild, Hcount.
  apply N.eq_add_0 in Hcount as [Hentry Hrest].
  rewrite recordOf_cons, (IHentries IH' Hrest), mergeStats_empty_r.
  unfold entryRecord. simpl.
  destruct child as [env|es|m|]; try reflexivity.
  - destruct (has SUPPORTED_FORMATS (extensionOf name)); [discriminate | reflexivity].
  - apply Hchild. exact Hentry.
Qed.

(** X16.  When a base directory can neither be accessed nor created, [main]
    prints the error of [fs.mkdir] and nothing else: no directory is walked
    and no summary is printed. *)
Theorem main_stops_when_a_base_directory_is_missing :
  forall (cwd : list string) (setup : setupEnv) (root : node),
    setupSucceeds setup = false ->
    exists message,
      main cwd setup root = [Main (ErrorLine message)] /\
      (mkdirInputRoot setup = Throw message \/ mkdirOutputRoot setup = Throw message).
Proof.
  intros cwd [[[]|a1] [[]|m1] [[]|a2] [[]|m2]] root Hsetup;
    try discriminate Hsetup; eexists; (split; [reflexivity|]); simpl; auto.
Qed.

Lemma walk_events_no_error (t : list event) :
  existsb isErrorLine (map Walk t) = false.
Proof. induction t as [|e t IH]; [reflexivity | exact IH]. Qed.

(** X17.  When both base directories exist or could be created, nothing
    that happens in the walk reaches the [catch] of [main]: it prints the
    starting line, the walk runs to its end, and the summary shows the
    counters of the record the walk returned, with as many files as
    successes and failures together. *)
Theorem main_always_prints_the_summary :
  forall (cwd : list string) (setup : setupEnv) (root : node),
    setupSucceeds setup = true ->
    exists t s,
      walk cwd root tt = (t, tt, Ok s) /\
      main cwd setup root = (Main Starting :: map Walk t ++ map Main (summary s))%list /\
      existsb isErrorLine (main cwd setup root) = false /\
      totalFiles s = (successfulConversions s + failedConversions s)%N.
Proof.
  intros cwd setup root Hsetup.
  destruct (recordOf_eq cwd root TO_BE_CONVERTED_DIR CONVERTED_DIR) as (t & Heq).
  pose proof (recordOf_balanced cwd root TO_BE_CONVERTED_DIR CONVERTED_DIR) as Hbal.
  set (s := recordOf cwd root TO_BE_CONVERTED_DIR CONVERTED_DIR) in *.
  assert (Hmain : main cwd setup root =
            (Main Starting ::
             map Walk (t ++ [ProcessDirectoryReturns TO_BE_CONVERTED_DIR s]) ++
             map Main (summary s))%list).
  { unfold main. rewrite Heq.
    destruct setup as [[[]|a1] [[]|m1] [[]|a2] [[]|m2]];
      try discriminate Hsetup; reflexivity. }
  eexists _, s. split; [exact Heq|]. split; [exact Hmain|]. split; [|exact Hbal].
  rewrite Hmain. simpl. rewrite existsb_app, walk_events_no_error. reflexivity.
Qed.

(** X18.  A run that finds no supported file (an empty [to-be-converted],
    for one) still prints the summary: every counter is 0, both sizes read
    0.00, and the overall reduction reads NaN. *)
Theorem a_run_without_files_prints_NaN :
  forall (cwd : list string) (setup : setupEnv) (root : node),
    setupSucceeds setup = true ->
    countSupported root = 0%N ->
    exists t,
      main cwd setup root =
        (Main Starting :: map Walk t ++
         map Main [SummaryHeader; TotalFilesLine 0; SuccessfulLine 0; FailedLine 0;
                   OriginalSizeLine "0.00"; NewSizeLine "0.00";
                   OverallReductionLine "NaN"; FormatsHeader; FormatLines ∅;
                   ConvertedFilesLine])%list.
Proof.
  intros cwd setup root Hsetup Hcount.
  destruct (recordOf_eq cwd root TO_BE_CONVERTED_DIR CONVERTED_DIR) as (t & Heq).
  rewrite (recordOf_nothing_supported cwd root Hcount) in Heq.
  eexists. unfold main. rewrite Heq.
  destruct setup as [[[]|a1] [[]|m1] [[]|a2] [[]|m2]];
    try discriminate Hsetup; reflexivity.
Qed.

(** ** What a call says, and what a name is *)

(** X19.  Every call of [convertFile] tells its outcome on the console,
    once: the block of the converted file with the two sizes and the
    reduction when it returns an object, and otherwise the line of the
    skipped file or one error line. *)
Theorem every_call_of_convertFile_prints_its_outcome :
  forall (env : fileEnv) (inputPath outputPath : string),
  exists l,
    consoleLines (convertEvents env inputPath outputPath) = [l] /\
    match resultOf env inputPath outputPath with
    | Some out =>
        l = ConvertedLine (Path.basename inputPath)
              (megabytes (originalSize out)) (megabytes (newSize out))
              (JsNumber.toFixed2 (reduction (originalSize out) (newSize out)))
    | None =>
        l = Skipping (Path.basename inputPath) \/
        exists message, l = ErrorConverting (Path.basename inputPath) message
    end.
Proof.
  intros env inputPath outputPath. unfold convertEvents, resultOf. run_eff.
  generalize (JsString.toLowerCase (Path.extname inputPath)). intros ext.
  destruct (has SUPPORTED_FORMATS ext); simpl;
    [| eexists; split; [reflexivity | left; reflexivity] ].
  destruct (String.eqb ext ".gif");
    destruct env as [[o|?] [[]|?] [[]|?] [[pages|]|?] [[]|?] [[]|?] [n|?]];
    simpl;
    repeat match goal with |- context [if ?c then _ else _] => destruct c; simpl end;
    eexists; (split; [reflexivity|]);
    first [ reflexivity | right; eexists; reflexivity ].
Qed.

Section DotFiles.
Import JsString.

#[local] Arguments String.append !s1 s2 : simpl nomatch.

Lemma cutAtDot_first_dot r rest acc :
  allChars notDot r = true ->
  Path.cutAtDot (r ++ String "." rest) acc = Some (String "." (rev_acc r acc), rest).
Proof.
  revert acc. induction r as [|c r IH]; intros acc; simpl; [reflexivity|].
  intros [Hc Hr]%andb_prop. unfold notDot in Hc. apply negb_true_iff in Hc.
  rewrite Hc. apply IH. assumption.
Qed.

Lemma notSlashDot_split e :
  allChars notSlashDot e = true ->
  allChars notSlash e = true /\ allChars notDot e = true.
Proof.
  induction e as [|c e IH]; simpl; [auto|].
  intros [Hc He]%andb_prop. destruct (IH He) as [H1 H2].
  unfold notSlashDot in Hc. apply andb_prop in Hc as [Hc1 Hc2].
  rewrite H1, H2. unfold notSlash, notDot. rewrite Hc1, Hc2. auto.
Qed.

(** X20.  A name that is nothing but a dot and an extension, such as
    [.png] or [.gif], has no extension for [path.extname]: the walk takes
    the file for unsupported and passes it over. *)
Theorem a_name_that_is_only_an_extension_is_not_supported :
  forall e : string,
    allChars notSlashDot e = true ->
    Path.extname (String "." e) = "" /\
    has SUPPORTED_FORMATS (extensionOf (String "." e)) = false /\
    forall env, isUnsupportedFile (String "." e, File env) = true.
Proof.
  intros e He. destruct (notSlashDot_split e He) as [Hslash Hdot].
  assert (Hext : Path.extname (String "." e) = "").
  { unfold Path.extname. rewrite basenameRev_no_slash by (simpl; exact Hslash).
    simpl rev_acc. rewrite rev_acc_acc.
    rewrite cutAtDot_first_dot; [reflexivity|].
    rewrite allChars_rev_acc, Hdot. reflexivity. }
  assert (Hsup : has SUPPORTED_FORMATS (extensionOf (String "." e)) = false)
    by (unfold extensionOf; rewrite Hext; reflexivity).
  split; [exact Hext|]. split; [exact Hsup|].
  intros env. unfold isUnsupportedFile. simpl. rewrite Hsup. reflexivity.
Qed.

End DotFiles.

(** ** The further properties at concrete inputs *)

Lemma listing_order_does_not_change_the_record_witness :
  Permutation [("a.png", File plainFile); ("c.jpg", File corruptFile)]
              [("c.jpg", File corruptFile); ("a.png", File plainFile)] /\
  exists tx ty s,
    processDirectory sampleCwd
      (Dir [("a.png", File plainFile); ("c.jpg", File corruptFile)])
      TO_BE_CONVERTED_DIR CONVERTED_DIR tt = (tx, tt, Ok s) /\
    processDirectory sampleCwd
      (Dir [("c.jpg", File corruptFile); ("a.png", File plainFile)])
      TO_BE_CONVERTED_DIR CONVERTED_DIR tt = (ty, tt, Ok s).
Proof.
  assert (H : Permutation [("a.png", File plainFile); ("c.jpg", File corruptFile)]
                          [("c.jpg", File corruptFile); ("a.png", File plainFile)])
    by apply perm_swap.
  split; [exact H|].
  exact (listing_order_does_not_change_the_record sampleCwd _ _
           TO_BE_CONVERTED_DIR CONVERTED_DIR H).
Defined.

Lemma convertFile_returns_the_sizes_unless_a_step_fails_witness :
  has SUPPORTED_FORMATS (extensionOf "to-be-converted/a.png") = true /\
  exists t r,
    convertFile plainFile "to-be-converted/a.png" "converted/a.webp" tt = (t, tt, Ok r) /\
    (r = None <-> conversionFails plainFile (extensionOf "to-be-converted/a.png") = true) /\
    (forall out, r = Some out ->
       success out = true /\
       statInput plainFile = Ok (originalSize out) /\
       statOutput plainFile = Ok (newSize out)).
Proof.
  split; [reflexivity|].
  apply (convertFile_returns_the_sizes_unless_a_step_fails plainFile
           "to-be-converted/a.png" "converted/a.webp").
  reflexivity.
Defined.

Lemma the_output_directory_is_created_when_missing_witness :
  accessOutputDir freshDirectoryFile = Throw "ENOENT: no such file or directory" /\
  mkdirOutputDir freshDirectoryFile = Ok tt /\
  convertFile freshDirectoryFile "to-be-converted/a.png" "converted/a.webp" tt =
  convertFile (withAccess (Ok tt) freshDirectoryFile)
    "to-be-converted/a.png" "converted/a.webp" tt.
Proof.
  split; [reflexivity|]. split; [reflexivity|].
  apply (proj1 (proj2 (the_output_directory_is_created_when_missing
                         "to-be-converted/a.png" "converted/a.webp"))
           freshDirectoryFile "ENOENT: no such file or directory");
    reflexivity.
Defined.

Lemma sharp_options_follow_the_extension_witness :
  In (Encode (Sharp pngOptions) "to-be-converted/A.PNG" "converted/A.webp")
     (convertEvents plainFile "to-be-converted/A.PNG" "converted/A.webp") /\
  effort pngOptions = 6%N /\ quality pngOptions = 75%N /\
  nearLossless pngOptions = Some true.
Proof.
  assert (H : In (Encode (Sharp pngOptions) "to-be-converted/A.PNG" "converted/A.webp")
                (convertEvents plainFile "to-be-converted/A.PNG" "converted/A.webp"))
    by (left; reflexivity).
  split; [exact H|].
  destruct (sharp_options_follow_the_extension plainFile
              "to-be-converted/A.PNG" "converted/A.webp" pngOptions _ _ H)
    as (_ & _ & He & Hq & Hn & _).
  split; [exact He|]. split; [exact Hq | exact Hn].
Defined.

Lemma gif2webp_runs_only_on_animated_gifs_witness :
  In (Encode (Gif2webp ["to-be-converted/anim.gif"; "-q"; "75"; "-m"; "6";
                        "-min_size"; "-mt"; "-o"; "converted/anim.webp"])
        "to-be-converted/anim.gif" "converted/anim.webp")
     (convertEvents twoFrameGif "to-be-converted/anim.gif" "converted/anim.webp") /\
  extensionOf "to-be-converted/anim.gif" = ".gif" /\
  requiresAnimatedPath (extensionOf "to-be-converted/anim.gif")
    (metadataPages twoFrameGif) = true.
Proof.
  assert (H : In (Encode (Gif2webp ["to-be-converted/anim.gif"; "-q"; "75"; "-m"; "6";
                                    "-min_size"; "-mt"; "-o"; "converted/anim.webp"])
                    "to-be-converted/anim.gif" "converted/anim.webp")
                (convertEvents twoFrameGif "to-be-converted/anim.gif"
                   "converted/anim.webp"))
    by (left; reflexivity).
  split; [exact H|].
  destruct (gif2webp_runs_only_on_animated_gifs twoFrameGif
              "to-be-converted/anim.gif" "converted/anim.webp" _ _ _ H)
    as (He & Hr & _).
  split; [exact He | exact Hr].
Defined.

Lemma entries_with_one_stem_share_the_output_path_witness :
  goodNames sampleCwd /\ goodNames ["a"; "b"] /\
  goodName ("img" ++ ".png") = true /\ goodName ("img" ++ ".jpg") = true /\
  dotted ".png" = true /\ dotted ".jpg" = true /\
  outputPathOf sampleCwd "to-be-converted/a/b" CONVERTED_DIR "img.png" =
    "converted/a/b/img.webp" /\
  outputPathOf sampleCwd "to-be-converted/a/b" CONVERTED_DIR "img.jpg" =
    outputPathOf sampleCwd "to-be-converted/a/b" CONVERTED_DIR "img.png".
Proof.
  assert (H1 : goodNames sampleCwd) by (repeat constructor).
  assert (H2 : goodNames ["a"; "b"]) by (repeat constructor).
  split; [exact H1|]. split; [exact H2|].
  split; [reflexivity|]. split; [reflexivity|].
  split; [reflexivity|]. split; [reflexivity|].
  exact (entries_with_one_stem_share_the_output_path sampleCwd ["a"; "b"]
           "img" ".png" ".jpg" H1 H2 eq_refl eq_refl eq_refl eq_refl).
Defined.

Lemma encoders_write_below_converted_only_witness :
  goodNames sampleCwd /\ goodNames (namesIn nestedTree) /\
  exists t s,
    walk sampleCwd nestedTree tt = (t, tt, Ok s) /\
    forall enc inputPath outputPath,
      In (Encode enc inputPath outputPath) t ->
      mirrors sampleCwd inputPath outputPath /\ inputPath <> outputPath.
Proof.
  assert (H1 : goodNames sampleCwd) by (repeat constructor).
  assert (H2 : goodNames (namesIn nestedTree)) by (repeat constructor).
  split; [exact H1|]. split; [exact H2|].
  exact (encoders_write_below_converted_only sampleCwd nestedTree H1 H2).
Defined.

Lemma the_extension_is_matched_without_regard_to_case_witness :
  JsString.toLowerCase "Holiday/IMG_0001.JPeG" =
  JsString.toLowerCase "holiday/img_0001.jpeg" /\
  extensionOf "Holiday/IMG_0001.JPeG" = extensionOf "holiday/img_0001.jpeg" /\
  has SUPPORTED_FORMATS (extensionOf "Holiday/IMG_0001.JPeG") =
  has SUPPORTED_FORMATS (extensionOf "holiday/img_0001.jpeg").
Proof.
  split; [reflexivity|].
  apply (the_extension_is_matched_without_regard_to_case
           "Holiday/IMG_0001.JPeG" "holiday/img_0001.jpeg").
  reflexivity.
Defined.

Lemma main_stops_when_a_base_directory_is_missing_witness :
  setupSucceeds readOnlySetup = false /\
  exists message,
    main sampleCwd readOnlySetup nestedTree = [Main (ErrorLine message)] /\
    (mkdirInputRoot readOnlySetup = Throw message \/
     mkdirOutputRoot readOnlySetup = Throw message).
Proof.
  split; [reflexivity|].
  apply (main_stops_when_a_base_directory_is_missing sampleCwd readOnlySetup nestedTree).
  reflexivity.
Defined.

Lemma main_always_prints_the_summary_witness :
  setupSucceeds readySetup = true /\
  exists t s,
    walk sampleCwd (Dir threeFiles) tt = (t, tt, Ok s) /\
    main sampleCwd readySetup (Dir threeFiles) =
      (Main Starting :: map Walk t ++ map Main (summary s))%list /\
    existsb isErrorLine (main sampleCwd readySetup (Dir threeFiles)) = false /\
    totalFiles s = (successfulConversions s + failedConversions s)%N.
Proof.
  split; [reflexivity|].
  apply (main_always_prints_the_summary sampleCwd readySetup (Dir threeFiles)).
  reflexivity.
Defined.

Lemma a_run_without_files_prints_NaN_witness :
  setupSucceeds readySetup = true /\
  countSupported (Dir [("notes.txt", File plainFile); ("empty", Dir [])]) = 0%N /\
  exists t,
    main sampleCwd readySetup (Dir [("notes.txt", File plainFile); ("empty", Dir [])]) =
      (Main Starting :: map Walk t ++
       map Main [SummaryHeader; TotalFilesLine 0; SuccessfulLine 0; FailedLine 0;
                 OriginalSizeLine "0.00"; NewSizeLine "0.00";
                 OverallReductionLine "NaN"; FormatsHeader; FormatLines ∅;
                 ConvertedFilesLine])%list.
Proof.
  split; [reflexivity|]. split; [reflexivity|].
  apply (a_run_without_files_prints_NaN sampleCwd readySetup); reflexivity.
Defined.

Lemma a_name_that_is_only_an_extension_is_not_supported_witness :
  JsString.allChars JsString.notSlashDot "png" = true /\
  Path.extname ".png" = "" /\
  has SUPPORTED_FORMATS (extensionOf ".png") = false /\
  forall env, isUnsupportedFile (".png", File env) = true.
Proof.
  split; [reflexivity|].
  apply (a_name_that_is_only_an_extension_is_not_supported "png"). reflexivity.
Defined.

(** Lower-casing beyond ASCII: [É] (U+00C9) becomes [é] (U+00E9); the
    multiplication sign U+00D7 and the sharp s U+00DF stay. *)
Example latin1_letters_are_folded :
  JsString.toLowerCase (String "201" (String "215" (String "223" "JPG"))) =
  String "233" (String "215" (String "223" "jpg")).
Proof. reflexivity. Qed.

(** The percentage is the double's: 97 of 160 is 60.625 exactly, the double
    lies just below and is printed as 60.62. *)
Example percentage_is_rounded_as_a_double :
  JsNumber.toFixed2 (reduction 160 63) = "60.62" /\
  JsNumber.toFixed2 (exactReduction 160 63) = "60.63" /\
  JsNumber.toFixed2 (reduction 80000 9980) = "87.52" /\
  JsNumber.toFixed2 (reduction 20000 19799) = "1.00".
Proof. vm_compute. repeat split. Qed.

(** The summary of the directory of three files, run. *)
Example summary_of_three_files :
  map Main (summary (recordOf sampleCwd (Dir threeFiles)
                       TO_BE_CONVERTED_DIR CONVERTED_DIR)) =
  map Main [SummaryHeader; TotalFilesLine 3; SuccessfulLine 2; FailedLine 1;
            OriginalSizeLine "0.00"; NewSizeLine "0.00";
            OverallReductionLine "41.67"; FormatsHeader;
            FormatLines {[ ".png" := 2%N; ".jpg" := 1%N ]};
            ConvertedFilesLine].
Proof. vm_compute. reflexivity. Qed.
